(** * SEP-24 checks and the console reporter of stellar-anchor-tests

    A shallow embedding of [src/tests/sep24/tests.ts] and
    [src/helpers/console.ts].

    - [Js]       the fragment of JavaScript values the two files compute with;
    - [Obj]      object literals read by key only (the failure catalogs);
    - [Imports]  what the two files import from modules that are not part of
                 the embedding (schema validator, JSON codec, key generator,
                 the generic failure catalog, the sep1 test [tomlExists]),
                 and what the engine and node-fetch decide (number formatting,
                 built-in prototypes, the url of a [Request]);
    - [Async]    async functions: a shared store, exceptions, suspension on a
                 network request, and calls whose promise is not awaited;
    - one module per test of the suite, named as in the source;
    - [Console]  the reporter. *)

From Stdlib Require Import ZArith QArith String Ascii DecimalString.
From stdpp Require Import base option list gmap strings.

Set Default Proof Using "Type".
Set Warnings "-register-all".
Open Scope Z_scope.

(** ** JavaScript values *)

Module Js.

(** A JavaScript number, as far as the code looks at one: only its
    truthiness ([0], [-0] and [NaN] are falsy). *)
Inductive number : Type :=
| NaN
| Infinity (negative : bool)
| Finite (q : Q).

Definition number_truthy (n : number) : bool :=
  match n with
  | NaN => false
  | Infinity _ => true
  | Finite q => negb (Qnum q =? 0)
  end.

(** Values of type [any] in the source: decoded JSON and TOML documents,
    configuration fields, context slots, and the built-in functions that a
    lookup under a computed key can come across.  The property list of
    [VObj] holds the enumerable own properties, in the object's own
    enumeration order (the order of [for ... in] and of [Object.keys]), each
    key once. *)
Inductive Value : Type :=
| VUndefined
| VNull
| VBool (b : bool)
| VNum (n : number)
| VStr (s : string)
| VArr (elems : list Value)
| VObj (props : list (string * Value))
| VFun (name : string).

(** What a [throw] (or a rejected promise) carries.  [FetchError] is
    node-fetch's own error, with its [type]. *)
Inductive Exn : Type :=
| TypeError (msg : string)
| SyntaxError (msg : string)
| FetchError (msg type : string).

Definition Throws (A : Type) : Type := Exn + A.

(** [ToBoolean]: the test of [if (v)], [!v], [a || b] and [a && b]. *)
Definition truthy (v : Value) : bool :=
  match v with
  | VUndefined | VNull => false
  | VBool b => b
  | VNum n => number_truthy n
  | VStr s => negb (String.eqb s EmptyString)
  | VArr _ | VObj _ | VFun _ => true
  end.

(** [a || b] *)
Definition or (a b : Value) : Value := if truthy a then a else b.

(** The key under which an array or a string lists its [i]-th element. *)
Definition index_key (i : nat) : string :=
  NilEmpty.string_of_uint (Nat.to_uint i).

Fixpoint own_lookup {A} (k : string) (props : list (string * A)) : option A :=
  match props with
  | [] => None
  | (k', v) :: rest => if String.eqb k k' then Some v else own_lookup k rest
  end.

Fixpoint lookup_index {A} (k : string) (elems : list A) (i : nat) : option A :=
  match elems with
  | [] => None
  | e :: rest =>
      if String.eqb k (index_key i) then Some e else lookup_index k rest (S i)
  end.

Fixpoint chars (s : string) : list Value :=
  match s with
  | EmptyString => []
  | String c rest => VStr (String c EmptyString) :: chars rest
  end.

Definition of_nat (n : nat) : Value := VNum (Finite (inject_Z (Z.of_nat n))).

Definition or_undefined (o : option Value) : Value := default VUndefined o.

(** [v.k] for the names the two files write out ([TRANSFER_SERVER_SEP0024],
    [TRANSFER_SERVER], [deposit], [enabled], [errors], [assetCode]), and
    [v[k]] for a key [k] that [for (k in v)] gave.  Reading a property of
    [undefined] or [null] throws.  None of these names is a member of a
    built-in prototype, and an enumerated key is an own property, so the
    own properties decide; [GetV] below is the lookup under any key. *)
Definition get (v : Value) (k : string) : Throws Value :=
  match v with
  | VUndefined =>
      inl (TypeError ("Cannot read properties of undefined (reading '" +:+ k +:+ "')"))
  | VNull =>
      inl (TypeError ("Cannot read properties of null (reading '" +:+ k +:+ "')"))
  | VBool _ | VNum _ | VFun _ => inr VUndefined
  | VStr s =>
      if String.eqb k "length" then inr (of_nat (String.length s))
      else inr (or_undefined (lookup_index k (chars s) 0))
  | VArr elems =>
      if String.eqb k "length" then inr (of_nat (List.length elems))
      else inr (or_undefined (lookup_index k elems 0))
  | VObj props => inr (or_undefined (own_lookup k props))
  end.

(** The own property of a value under a key, if it has one. *)
Definition own_property (v : Value) (k : string) : option Value :=
  match v with
  | VStr s =>
      if String.eqb k "length" then Some (of_nat (String.length s))
      else lookup_index k (chars s) 0
  | VArr elems =>
      if String.eqb k "length" then Some (of_nat (List.length elems))
      else lookup_index k elems 0
  | VObj props => own_lookup k props
  | _ => None
  end.

(** What every object inherits from [Object.prototype]: its methods, and
    the accessor [__proto__], which for a plain object gives the prototype
    itself, an object without enumerable properties. *)
Definition Object_prototype : list (string * Value) :=
  [ ("constructor", VFun "Object");
    ("__defineGetter__", VFun "__defineGetter__");
    ("__defineSetter__", VFun "__defineSetter__");
    ("hasOwnProperty", VFun "hasOwnProperty");
    ("__lookupGetter__", VFun "__lookupGetter__");
    ("__lookupSetter__", VFun "__lookupSetter__");
    ("isPrototypeOf", VFun "isPrototypeOf");
    ("propertyIsEnumerable", VFun "propertyIsEnumerable");
    ("toString", VFun "toString");
    ("valueOf", VFun "valueOf");
    ("__proto__", VObj []);
    ("toLocaleString", VFun "toLocaleString") ].

Section GetV.
(** What the built-in prototype of a value that is not a plain object
    (an array, a string, a number, a boolean, a function) answers under a
    key, before [Object.prototype] is asked: the engine's. *)
Variable builtin_member : Value -> string -> option Value.

(** [v[k]] for any key: the own property, else the member the prototype
    chain holds under the key, else [undefined]. *)
Definition GetV (v : Value) (k : string) : Throws Value :=
  match v with
  | VUndefined | VNull => get v k
  | VObj props =>
      inr (match own_lookup k props with
           | Some x => x
           | None => or_undefined (own_lookup k Object_prototype)
           end)
  | _ =>
      inr (match own_property v k with
           | Some x => x
           | None =>
               match builtin_member v k with
               | Some m => m
               | None => or_undefined (own_lookup k Object_prototype)
               end
           end)
  end.
End GetV.

(** The keys visited by [for (const k in v)], in order.  Nothing is
    visited for [undefined], [null], booleans and numbers. *)
Definition forin_keys (v : Value) : list string :=
  match v with
  | VObj props => map fst props
  | VArr elems => map index_key (seq 0 (List.length elems))
  | VStr s => map index_key (seq 0 (String.length s))
  | _ => []
  end.

(** [s.startsWith(p)] *)
Definition startsWith (s p : string) : bool := String.prefix p s.

(** [s.includes(p)] *)
Definition includes (s p : string) : bool :=
  match String.index 0 p s with Some _ => true | None => false end.

(** [s.slice(-1)]: the last character, or the empty string. *)
Fixpoint slice_last (s : string) : string :=
  match s with
  | EmptyString => EmptyString
  | String c EmptyString => s
  | String _ rest => slice_last rest
  end.

Fixpoint join (sep : string) (parts : list string) : string :=
  match parts with
  | [] => EmptyString
  | [p] => p
  | p :: rest => p +:+ sep +:+ join sep rest
  end.

Section ToString.
(** Number formatting is the engine's. *)
Variable number_toString : number -> string.

(** [`${v}`] and [v + "text"]. *)
Fixpoint ToString (v : Value) : string :=
  match v with
  | VUndefined => "undefined"
  | VNull => "null"
  | VBool true => "true"
  | VBool false => "false"
  | VNum n => number_toString n
  | VStr s => s
  | VArr elems =>
      join ","
        (map (fun e => match e with
                       | VUndefined | VNull => EmptyString
                       | _ => ToString e
                       end) elems)
  | VObj _ => "[object Object]"
  | VFun name => "function " +:+ name +:+ "() { [native code] }"
  end.
End ToString.

End Js.

Import Js.

(** ** Object literals used as tables *)

Module Obj.

(** An object literal [{ k1: v1, ..., kn: vn }]: the properties are set
    in the order they are written. *)
Definition literal {A} (entries : list (string * A)) : gmap string A :=
  fold_left (fun o kv => <[kv.1 := kv.2]> o) entries ∅.

(** [{ ...o, ...more }]: the properties of [more] are set after those of
    [o] and win over them. *)
Definition spread {A} (o more : gmap string A) : gmap string A := more ∪ o.

End Obj.

(** ** Failures, network calls, results ([types.ts], [helpers/failure.ts]) *)

(** An entry of a [failureModes] catalog: [{ name, text(args) }].  Rendering
    reads properties of [args] and so can throw. *)
Record FailureMode : Type := {
  mode_name : string;
  text : Value -> Throws string;
}.

(** A [failureModes] object, read by key only. *)
Abbreviation Catalog := (gmap string FailureMode).

(** What the reporter reads of a failure: [failure.name], [failure.message]. *)
Record Failure : Type := {
  name : string;
  message : string;
}.

(** Modelled from the spec: [makeFailure] of [helpers/failure.ts] is not in
    the sources read here.  Section 3 describes a Failure as a kind with its
    rendered message: the name of the catalog entry and its [text] applied
    to the arguments.  A catalog key that is not there gives [undefined],
    whose [name] cannot be read. *)
Definition makeFailure (mode : option FailureMode) (args : Value) : Throws Failure :=
  match mode with
  | None => inl (TypeError "Cannot read properties of undefined (reading 'name')")
  | Some m =>
      match text m args with
      | inl e => inl e
      | inr msg => inr {| name := mode_name m; message := msg |}
      end
  end.

(** A node-fetch [Request].  [url] is what [request.url] reports: the
    constructor's argument as node-fetch parses and formats it.
    [req_headers] lists the entries of
    [Object.fromEntries(request.headers.entries())] in [Object.keys] order:
    names in lower case, one entry per name.  The body is a stream that can
    be read once. *)
Record Request : Type := {
  method : string;
  url : string;
  req_headers : list (string * string);
  req_body : string;
  req_bodyUsed : bool;
}.

(** A node-fetch [Response].  [resp_headers] lists the entries of
    [Object.fromEntries(response.headers.entries())] in the same way;
    [response.headers.get(name)] is the entry under the lower-cased name. *)
Record Response : Type := {
  resp_url : string;
  status : Z;
  resp_headers : list (string * string);
  resp_body : string;
  resp_bodyUsed : bool;
}.

Record NetworkCall : Type := {
  request : Request;
  response : option Response;
}.

(** [Result]: [{ networkCalls, failure?, expected?, actual? }]. *)
Record Result : Type := {
  networkCalls : list NetworkCall;
  failure : option Failure;
  expected : Value;
  actual : Value;
}.

(** ** The tests of the suite, as objects *)

(** The identity of a [Test] object: [dependencies] holds references. *)
Inductive TestId : Type :=
| tomlExists_ref
| hasTransferServerUrl_ref
| isCompliantWithSchema_ref
| containsConfiguredAssetCode_ref
| depositRequiresToken_ref.

#[global] Instance TestId_eq_dec : EqDecision TestId.
Proof. solve_decision. Defined.

(** The declarative part of a [Test]; [run] is given per test below. *)
Record Test : Type := {
  assertion : string;
  sep : Z;
  group : string;
  dependencies : list TestId;
  failureModes : Catalog;
  successMessage : option string;
}.

(** [RunConfig]: the optional [assetCode] and the other fields, by name. *)
Record Config : Type := {
  assetCode : option string;
  otherFields : gmap string Value;
}.

(** [this.context]: the slots a test expects and the slots it provides. *)
Record Context : Type := {
  expects : gmap string Value;
  provides : gmap string Value;
}.

(** What can go wrong with a request, for the helper's failure. *)
Inductive RequestProblem : Type :=
| ConnectionRefused
| StatusMismatch (expectedStatus actualStatus : Z)
| UnparsableBody.

(** ** Imported names that are not part of the embedding *)

Class Imports : Type := {
  (** the engine's number formatting *)
  number_toString : number -> string;
  (** [genericFailures] of [helpers/failure.ts] *)
  genericFailures : Catalog;
  (** the failure [makeRequest] builds from the generic catalog *)
  requestFailure : RequestProblem -> Failure;
  (** [tomlExists] of [tests/sep1/tests.ts] *)
  tomlExists : Test;
  (** [validate(v, infoSchema).errors], each error as [join] renders it *)
  validate_infoSchema : Value -> list string;
  (** [JSON.stringify] and [JSON.parse] ([None]: a SyntaxError) *)
  JSON_stringify : Value -> string;
  JSON_parse : string -> option Value;
  (** the message of the [SyntaxError] that [JSON.parse] throws for a text *)
  JSON_parse_reason : string -> string;
  (** the key [Keypair.random().publicKey()] returns at its call *)
  Keypair_random_publicKey : string;
  (** the members of the engine's built-in prototypes other than
      [Object.prototype], for [GetV] *)
  builtin_member : Value -> string -> option Value;
  (** [new Request(input).url]: the input as node-fetch parses and formats
      it (an absolute URL comes back normalised: host in lower case, default
      port and dot segments removed) *)
  Request_url : string -> string;
}.

Definition toString `{Imports} (v : Value) : string := ToString number_toString v.

(** [v[k]] for a computed key *)
Definition getV `{Imports} (v : Value) (k : string) : Throws Value :=
  GetV builtin_member v k.

(** [new Request(url)] *)
Definition new_Request `{Imports} (u : string) : Request :=
  {| method := "GET"; url := Request_url u; req_headers := [];
     req_body := EmptyString; req_bodyUsed := false |}.

(** [new Request(url, { method, body, headers })]; header names are kept in
    lower case by the [Headers] class. *)
Definition new_Request_init `{Imports} (u m body : string)
  (headers : list (string * string)) : Request :=
  {| method := m; url := Request_url u; req_headers := headers;
     req_body := body; req_bodyUsed := false |}.

(** ** Async functions over a shared store *)

(** A reference to a [Result] object: its index in the store. *)
Definition ref : Type := nat.

(** The objects the checks share: the run configuration, the [context] of
    each test object, and the [Result] objects allocated so far. *)
Record Store : Type := {
  config : Config;
  contexts : TestId -> Context;
  results : list Result;
}.

(** What a request comes back with. *)
Inductive FetchResult : Type :=
| NetworkError
| Responded (r : Response).

(** The body of an async function.  [Fetch] is the one place where a body
    is suspended until something outside the program happens.  [Spawn t k]
    is a call [t] of an async function whose promise is dropped: [t] runs up
    to its first suspension, then [k] goes on without waiting for it. *)
Inductive Async (A : Type) : Type :=
| Ret (a : A)
| Throw (e : Exn)
| Get (k : Store -> Async A)
| Put (s : Store) (k : Async A)
| Fetch (req : Request) (k : FetchResult -> Async A)
| Spawn (t : Async unit) (k : Async A).

Arguments Ret {A} a.
Arguments Throw {A} e.
Arguments Get {A} k.
Arguments Put {A} s k.
Arguments Fetch {A} req k.
Arguments Spawn {A} t k.

Fixpoint bind {A B : Type} (t : Async A) (f : A -> Async B) : Async B :=
  match t with
  | Ret a => f a
  | Throw e => Throw e
  | Get k => Get (fun s => bind (k s) f)
  | Put s k => Put s (bind k f)
  | Fetch req k => Fetch req (fun r => bind (k r) f)
  | Spawn t' k => Spawn t' (bind k f)
  end.

#[global] Instance Async_ret : MRet Async := fun A a => Ret a.
#[global] Instance Async_bind : MBind Async := fun A B f t => bind t f.

(** A request whose answer is still awaited, and what runs when it comes. *)
Record InFlight : Type := {
  sent : Request;
  resume : FetchResult -> Async unit;
}.

(** How far a body gets before it has to wait. *)
Inductive Turn (A : Type) : Type :=
| Completed (a : A)
| Rejected (e : Exn)
| Pending (req : Request) (k : FetchResult -> Async A).

Arguments Completed {A} a.
Arguments Rejected {A} e.
Arguments Pending {A} req k.

(** Runs a body until it returns, throws or suspends.  A dropped call that
    suspends joins the requests in flight; one that throws is an unhandled
    rejection and does not reach the caller. *)
Fixpoint turn {A : Type} (t : Async A) (s : Store) (fl : list InFlight)
  : Turn A * Store * list InFlight :=
  match t with
  | Ret a => (Completed a, s, fl)
  | Throw e => (Rejected e, s, fl)
  | Get k => turn (k s) s fl
  | Put s' k => turn k s' fl
  | Fetch req k => (Pending req k, s, fl)
  | Spawn t' k =>
      let '(o, s1, fl1) := turn t' s fl in
      let fl2 := match o with
                 | Pending req k' => fl1 ++ [{| sent := req; resume := k' |}]
                 | _ => fl1
                 end in
      turn k s1 fl2
  end.

(** Runs an awaited body to its end against a network that answers each
    request through [net]; the requests of dropped calls stay in flight. *)
Fixpoint finish {A : Type} (net : Request -> FetchResult) (t : Async A) (s : Store)
  (fl : list InFlight) : (Exn + A) * Store * list InFlight :=
  match t with
  | Ret a => (inr a, s, fl)
  | Throw e => (inl e, s, fl)
  | Get k => finish net (k s) s fl
  | Put s' k => finish net k s' fl
  | Fetch req k => finish net (k (net req)) s fl
  | Spawn t' k =>
      let '(o, s1, fl1) := turn t' s fl in
      let fl2 := match o with
                 | Pending req k' => fl1 ++ [{| sent := req; resume := k' |}]
                 | _ => fl1
                 end in
      finish net k s1 fl2
  end.

(** The answer to a request in flight arrives. *)
Definition deliver (p : InFlight) (r : FetchResult) (s : Store)
  (fl : list InFlight) : Turn unit * Store * list InFlight :=
  turn (resume p r) s fl.

Module Op.

Definition lift {A : Type} (x : Throws A) : Async A :=
  match x with inl e => Throw e | inr a => Ret a end.

Definition gets {A : Type} (f : Store -> A) : Async A := Get (fun s => Ret (f s)).

Definition modify (f : Store -> Store) : Async unit :=
  Get (fun s => Put (f s) (Ret tt)).

(** calls an async function and drops its promise *)
Definition spawn {A : Type} (t : Async A) : Async unit :=
  Spawn (bind t (fun _ => Ret tt)) (Ret tt).

Definition fetch (req : Request) : Async FetchResult := Fetch req Ret.

(** [{ networkCalls: [] }] *)
Definition empty_result : Result :=
  {| networkCalls := []; failure := None;
     expected := VUndefined; actual := VUndefined |}.

(** The store after an object is allocated, after a field of a [Result]
    is assigned, after a slot or the asset code is assigned. *)
Definition alloc (x : Result) (s : Store) : Store :=
  {| config := config s; contexts := contexts s;
     results := results s ++ [x] |}.

Definition update (r : ref) (f : Result -> Result) (s : Store) : Store :=
  {| config := config s; contexts := contexts s;
     results := match results s !! r with
                | Some x => <[r := f x]> (results s)
                | None => results s
                end |}.

Definition assign_provides (this : TestId) (slot : string) (v : Value)
  (s : Store) : Store :=
  {| config := config s;
     contexts := fun t =>
       if decide (t = this)
       then {| expects := expects (contexts s t);
               provides := <[slot := v]> (provides (contexts s t)) |}
       else contexts s t;
     results := results s |}.

Definition assign_assetCode (code : string) (s : Store) : Store :=
  {| config := {| assetCode := Some code;
                  otherFields := otherFields (config s) |};
     contexts := contexts s;
     results := results s |}.

Definition with_failure (f : Failure) (x : Result) : Result :=
  {| networkCalls := networkCalls x; failure := Some f;
     expected := expected x; actual := actual x |}.

Definition with_call (call : NetworkCall) (x : Result) : Result :=
  {| networkCalls := networkCalls x ++ [call]; failure := failure x;
     expected := expected x; actual := actual x |}.

(** [const result: Result = { networkCalls: [] }] *)
Definition new_result : Async ref :=
  Get (fun s => Put (alloc empty_result s) (Ret (List.length (results s)))).

Definition read_result (r : ref) : Async Result :=
  gets (fun s => default empty_result (results s !! r)).

(** [result.failure = f] *)
Definition set_failure (r : ref) (f : Failure) : Async unit :=
  modify (update r (with_failure f)).

(** [result.networkCalls.push(call)] *)
Definition push_call (r : ref) (call : NetworkCall) : Async unit :=
  modify (update r (with_call call)).

(** [this.context.expects.slot] *)
Definition expects_slot (this : TestId) (slot : string) : Async Value :=
  gets (fun s => default VUndefined (expects (contexts s this) !! slot)).

(** [this.context.provides.slot] *)
Definition provides_slot (this : TestId) (slot : string) : Async Value :=
  gets (fun s => default VUndefined (provides (contexts s this) !! slot)).

(** [this.context.provides.slot = v] *)
Definition set_provides (this : TestId) (slot : string) (v : Value) : Async unit :=
  modify (assign_provides this slot v).

(** [config.assetCode] *)
Definition config_assetCode : Async (option string) :=
  gets (fun s => assetCode (config s)).

(** [config.assetCode = code] *)
Definition set_config_assetCode (code : string) : Async unit :=
  modify (assign_assetCode code).

(** [!config.assetCode] for a field of type [string | undefined] *)
Definition absent_or_empty (code : option string) : bool :=
  negb (truthy (from_option VStr VUndefined code)).

End Op.

Import Op.

(** ** The request helper ([helpers/request.ts]) *)

Section Request.
Context `{Imports}.

(** The decoded body: JSON when the declared content type says so, the
    text otherwise. *)
Definition decode_body (contentType : option string) (body : string)
  : option Value :=
  match contentType with
  | Some ct => if includes ct "json" then JSON_parse body else Some (VStr body)
  | None => Some (VStr body)
  end.

(** Modelled from the spec: [makeRequest] of [helpers/request.ts] is not in
    the sources read here.  Section 4.4: the helper issues one outbound
    request and takes an expected status code; on a status mismatch or an
    unparsable body it appends a Failure to the Result and returns no
    decoded body; on success it returns the decoded body and appends a
    NetworkCall (request and response) to [Result.networkCalls].  A
    request that gets no answer is the first of the generic failure kinds
    of section 4.2. *)
Definition makeRequest (call : NetworkCall) (expectedStatus : Z)
  (result : ref) (contentType : option string) : Async Value :=
  answer ← fetch (request call);
  match answer with
  | NetworkError =>
      set_failure result (requestFailure ConnectionRefused);;
      mret VUndefined
  | Responded resp =>
      if negb (status resp =? expectedStatus)
      then
        set_failure result
          (requestFailure (StatusMismatch expectedStatus (status resp)));;
        mret VUndefined
      else
        match decode_body contentType (resp_body resp) with
        | None =>
            set_failure result (requestFailure UnparsableBody);;
            mret VUndefined
        | Some body =>
            push_call result
              {| request := request call; response := Some resp |};;
            mret body
        end
  end.

End Request.

(** ** The suite ([tests/sep24/tests.ts]) *)

Definition nl : string := String (ascii_of_nat 10) EmptyString.

Definition tomlTestsGroup : string := "TOML tests".
Definition infoTestsGroup : string := "/info tests".
Definition depositTestsGroup : string := "/deposit tests".
Definition depositEndpoint : string := "/transactions/deposit/interactive".

(** [text(_args)] that ignores its argument *)
Definition constant_text (s : string) : Value -> Throws string := fun _ => inr s.

(** [this.failureModes.KEY] *)
Definition mode (t : Test) (key : string) : option FailureMode :=
  failureModes t !! key.

(** [result.failure = makeFailure(this.failureModes.KEY, args); return result] *)
Definition fail_with (result : ref) (t : Test) (key : string) (args : Value)
  : Async ref :=
  f ← lift (makeFailure (mode t key) args);
  set_failure result f;;
  mret result.

Module hasTransferServerUrl.
Section Def.
Context `{Imports}.

Definition this : TestId := hasTransferServerUrl_ref.

Definition test : Test := {|
  assertion := "has a valid transfer server URL";
  sep := 24;
  group := tomlTestsGroup;
  dependencies := [tomlExists_ref];
  failureModes := Obj.literal [
    ("TRANSFER_SERVER_NOT_FOUND",
      {| mode_name := "TRANSFER_SERVER_SEP0024 not found";
         text := constant_text
           "The stellar.toml file does not have a valid TRANSFER_SERVER_SEP0024 URL" |});
    ("NO_HTTPS",
      {| mode_name := "no https";
         text := constant_text "The transfer server URL must use HTTPS" |});
    ("ENDS_WITH_SLASH",
      {| mode_name := "ends with slash";
         text := constant_text "The transfer server URL cannot end with a '/'" |})
  ];
  successMessage := None;
|}.

(** [this.context.provides.transferServerUrl.startsWith(p)] and
    [this.context.provides.transferServerUrl.slice(-1)]: [startsWith]
    exists on strings only, [slice] on strings and arrays.  The message of
    the [TypeError] names the callee as it is written. *)
Definition call_startsWith (v : Value) (p : string) : Throws bool :=
  match v with
  | VStr s => inr (startsWith s p)
  | _ =>
      inl (TypeError
             "this.context.provides.transferServerUrl.startsWith is not a function")
  end.

Definition call_slice_last (v : Value) : Throws Value :=
  match v with
  | VStr s => inr (VStr (slice_last s))
  | VArr elems => inr (VArr (match last elems with Some e => [e] | None => [] end))
  | _ =>
      inl (TypeError
             "this.context.provides.transferServerUrl.slice is not a function")
  end.

(** [v === "/"] *)
Definition is_slash (v : Value) : bool :=
  match v with VStr s => String.eqb s "/" | _ => false end.

Definition run : Async ref :=
  result ← new_result;
  tomlObj ← expects_slot this "tomlObj";
  sep24 ← lift (get tomlObj "TRANSFER_SERVER_SEP0024");
  chosen ← (if truthy sep24 then mret sep24
            else lift (get tomlObj "TRANSFER_SERVER"));
  set_provides this "transferServerUrl" chosen;;
  u ← provides_slot this "transferServerUrl";
  if negb (truthy u) then
    fail_with result test "TRANSFER_SERVER_NOT_FOUND" VUndefined
  else
    u ← provides_slot this "transferServerUrl";
    https ← lift (call_startsWith u "https");
    if negb https then
      fail_with result test "NO_HTTPS" VUndefined
    else
      u ← provides_slot this "transferServerUrl";
      tail ← lift (call_slice_last u);
      if is_slash tail then
        fail_with result test "ENDS_WITH_SLASH" VUndefined
      else
        mret result.

End Def.
End hasTransferServerUrl.

Module isCompliantWithSchema.
Section Def.
Context `{Imports}.

Definition this : TestId := isCompliantWithSchema_ref.

Definition INVALID_SCHEMA : FailureMode := {|
  mode_name := "invalid schema";
  text := fun args =>
    match get args "errors" with
    | inl e => inl e
    | inr errors =>
        inr ("The response body returned does not comply with the schema defined for the /info endpoint:"
             +:+ nl +:+ nl +:+
             "https://github.com/stellar/stellar-protocol/blob/master/ecosystem/sep-0024.md#info"
             +:+ nl +:+ nl +:+
             "The errors returned from the schema validation:"
             +:+ nl +:+ nl +:+
             toString errors)
    end
|}.

Definition test : Test := {|
  assertion := "response is compliant with the schema";
  sep := 24;
  group := infoTestsGroup;
  dependencies := [tomlExists_ref; hasTransferServerUrl_ref];
  failureModes :=
    Obj.spread (Obj.literal [("INVALID_SCHEMA", INVALID_SCHEMA)]) genericFailures;
  successMessage := None;
|}.

Definition run : Async ref :=
  result ← new_result;
  base ← expects_slot this "transferServerUrl";
  let infoCall :=
    {| request := new_Request (toString base +:+ "/info"); response := None |} in
  push_call result infoCall;;
  infoObj ← makeRequest infoCall 200 result (Some "application/json");
  set_provides this "infoObj" infoObj;;
  r ← read_result result;
  match failure r with
  | Some _ => mret result
  | None =>
      infoObj ← provides_slot this "infoObj";
      let errors := validate_infoSchema infoObj in
      if 0 <? Z.of_nat (List.length errors) then
        fail_with result test "INVALID_SCHEMA"
          (VObj [("errors", VStr (join nl errors))])
      else
        mret result
  end.

End Def.
End isCompliantWithSchema.

Module containsConfiguredAssetCode.
Section Def.
Context `{Imports}.

Definition this : TestId := containsConfiguredAssetCode_ref.

(** [`${args.assetCode} ...`] *)
Definition assetCode_text (tail : string) : Value -> Throws string :=
  fun args =>
    match get args "assetCode" with
    | inl e => inl e
    | inr code => inr (toString code +:+ tail)
    end.

Definition test : Test := {|
  assertion := "contains configured asset code";
  sep := 24;
  group := infoTestsGroup;
  dependencies := [tomlExists_ref; isCompliantWithSchema_ref];
  failureModes :=
    Obj.spread
      (Obj.literal [
        ("CONFIGURED_ASSET_CODE_NOT_FOUND",
          {| mode_name := "configured asset code not found";
             text := assetCode_text " is not present in the /info response" |});
        ("CONFIGURED_ASSET_CODE_NOT_ENABLED",
          {| mode_name := "configured asset code not enabled";
             text := assetCode_text " is not enabled for SEP-24" |});
        ("NO_ASSET_CODES",
          {| mode_name := "no enabled assets";
             text := constant_text
               "There are no enabled assets in the /info response" |});
        ("NO_INFO",
          {| mode_name := "unable to parse or fetch /info JSON";
             text := constant_text "unable to fetch JSON" |})
      ])
      genericFailures;
  successMessage := None;
|}.

(** [for (const assetCode in depositAssets) { if (depositAssets[assetCode]
    .enabled) { config.assetCode = assetCode; break; } }], over the keys
    still to visit. *)
Fixpoint discover (depositAssets : Value) (keys : list string) : Async unit :=
  match keys with
  | [] => mret tt
  | code :: rest =>
      entry ← lift (get depositAssets code);
      enabled ← lift (get entry "enabled");
      if truthy enabled then set_config_assetCode code
      else discover depositAssets rest
  end.

Definition run : Async ref :=
  result ← new_result;
  infoObj ← expects_slot this "infoObj";
  depositAssets ← lift (get infoObj "deposit");
  code ← config_assetCode;
  if absent_or_empty code then
    discover depositAssets (forin_keys depositAssets);;
    code ← config_assetCode;
    if absent_or_empty code then
      fail_with result test "NO_ASSET_CODES" VUndefined
    else
      mret result
  else
    let code := default EmptyString code in
    entry ← lift (getV depositAssets code);
    if negb (truthy entry) then
      fail_with result test "CONFIGURED_ASSET_CODE_NOT_FOUND"
        (VObj [("assetCode", VStr code)])
    else
      entry ← lift (getV depositAssets code);
      enabled ← lift (get entry "enabled");
      if negb (truthy enabled) then
        fail_with result test "CONFIGURED_ASSET_CODE_NOT_ENABLED"
          (VObj [("assetCode", VStr code)])
      else
        mret result.

End Def.
End containsConfiguredAssetCode.

Module depositRequiresToken.
Section Def.
Context `{Imports}.

Definition this : TestId := depositRequiresToken_ref.

Definition test : Test := {|
  assertion := "requires a SEP-10 JWT";
  sep := 24;
  group := depositTestsGroup;
  dependencies := [hasTransferServerUrl_ref; containsConfiguredAssetCode_ref];
  failureModes := Obj.spread (Obj.literal []) genericFailures;
  successMessage := None;
|}.

Definition postDepositCall (base : Value) (code : option string) : NetworkCall :=
  {| request :=
       new_Request_init
         (toString base +:+ depositEndpoint)
         "POST"
         (JSON_stringify
            (VObj [("account", VStr Keypair_random_publicKey);
                   ("asset_code", from_option VStr VUndefined code)]))
         [("content-type", "application/json")];
     response := None |}.

(** The call of [makeRequest] is not awaited: [run] goes on to
    [return result] as soon as the helper has sent its request. *)
Definition run : Async ref :=
  result ← new_result;
  base ← expects_slot this "transferServerUrl";
  code ← config_assetCode;
  let call := postDepositCall base code in
  push_call result call;;
  spawn (makeRequest call 403 result None);;
  mret result.

End Def.
End depositRequiresToken.

(** [const tests: Test[] = []] and the four [tests.push(...)], in order. *)
Definition tests : list TestId :=
  ((([] ++ [hasTransferServerUrl_ref])
        ++ [isCompliantWithSchema_ref])
        ++ [containsConfiguredAssetCode_ref])
        ++ [depositRequiresToken_ref].

Section Suite.
Context `{Imports}.

(** The object a reference stands for. *)
Definition test_of (t : TestId) : Test :=
  match t with
  | tomlExists_ref => tomlExists
  | hasTransferServerUrl_ref => hasTransferServerUrl.test
  | isCompliantWithSchema_ref => isCompliantWithSchema.test
  | containsConfiguredAssetCode_ref => containsConfiguredAssetCode.test
  | depositRequiresToken_ref => depositRequiresToken.test
  end.

(** [test.run(config)], for the tests declared in this file. *)
Definition run_of (t : TestId) : option (Async ref) :=
  match t with
  | tomlExists_ref => None
  | hasTransferServerUrl_ref => Some hasTransferServerUrl.run
  | isCompliantWithSchema_ref => Some isCompliantWithSchema.run
  | containsConfiguredAssetCode_ref => Some containsConfiguredAssetCode.run
  | depositRequiresToken_ref => Some depositRequiresToken.run
  end.

(** A dependency declared in this file: [d] is listed by a test of the
    suite. *)
Definition declares (t d : TestId) : Prop :=
  t ∈ tests ∧ d ∈ dependencies (test_of t).

End Suite.

(** ** The reporter ([helpers/console.ts]) *)

(** [TestRun.suite]: [{ sep?, name }]. *)
Record Suite : Type := {
  suite_sep : option Z;
  suite_name : string;
}.

(** [TestRun]: [{ test, result, suite? }]. *)
Record TestRun : Type := {
  run_test : Test;
  run_result : Result;
  run_suite : option Suite;
}.

(** An element of [Stats.suiteStats], as far as the reporter reads it. *)
Record SuiteStat : Type := {
  suite_failed : Z;
}.

(** [Stats]: [{ total, passed, failed, suiteStats? }]. *)
Record Stats : Type := {
  total : Z;
  passed : Z;
  failed : Z;
  suiteStats : option (list SuiteStat);
}.

(** The styles and symbols of [ansi-colors], and the formatting of the
    elapsed time [((endTime - startTime) / 1000).toFixed(3)]. *)
Class Terminal : Type := {
  red : string -> string;
  green : string -> string;
  bold : string -> string;
  red_bold : string -> string;
  green_bold : string -> string;
  symbol_cross : string;
  symbol_check : string;
  symbol_pointer : string;
  seconds_toFixed3 : Z -> Z -> string;
}.

Module Console.

(** A call on [console]. *)
Inductive ConsoleCall : Type :=
| Log (line : string)
| LogBlank
| Dir (v : Value)
| Group
| GroupEnd.

Inductive Side : Type := OfRequest | OfResponse.
Inductive Reader : Type := AsJson | AsText.

(** A call of [.json()] or [.text()] on the body of the [call]-th network
    call of the run. *)
Record BodyRead : Type := {
  call : nat;
  side : Side;
  reader : Reader;
}.

Record Io : Type := {
  console : list ConsoleCall;
  bodyReads : list BodyRead;
}.

Definition silent : Io := {| console := []; bodyReads := [] |}.

(** The reporter's effects: console output, body reads, rejection. *)
Record M (A : Type) : Type := Do { perform : Io -> Throws A * Io }.
Arguments Do {A} _.
Arguments perform {A} _ _.

#[global] Instance M_ret : MRet M := fun A a => Do (fun io => (inr a, io)).
#[global] Instance M_bind : MBind M := fun A B f m =>
  Do (fun io =>
    match perform m io with
    | (inl e, io') => (inl e, io')
    | (inr a, io') => perform (f a) io'
    end).

Definition emit (c : ConsoleCall) : M unit :=
  Do (fun io => (inr tt, {| console := console io ++ [c];
                            bodyReads := bodyReads io |})).

Definition note_read (r : BodyRead) : M unit :=
  Do (fun io => (inr tt, {| console := console io;
                            bodyReads := bodyReads io ++ [r] |})).

Definition reject {A} (e : Exn) : M A := Do (fun io => (inl e, io)).

Definition log (line : string) : M unit := emit (Log line).

Definition when (b : bool) (m : M unit) : M unit := if b then m else mret tt.

Fixpoint for_each {A} (f : A -> M unit) (l : list A) : M unit :=
  match l with
  | [] => mret tt
  | x :: rest => f x;; for_each f rest
  end.

(** [`${n}`] for an integral number *)
Definition Z_toString (n : Z) : string := NilZero.string_of_int (Z.to_int n).

Section Printer.
Context `{Imports} `{Terminal}.

(** The text of a body stream; a stream is read once. *)
Definition consume_request (i : nat) (how : Reader) (req : Request)
  : M (string * Request) :=
  note_read {| call := i; side := OfRequest; reader := how |};;
  if req_bodyUsed req
  then reject (TypeError ("body used already for: " +:+ url req))
  else mret (req_body req,
             {| method := method req; url := url req;
                req_headers := req_headers req; req_body := req_body req;
                req_bodyUsed := true |}).

Definition consume_response (i : nat) (how : Reader) (resp : Response)
  : M (string * Response) :=
  note_read {| call := i; side := OfResponse; reader := how |};;
  if resp_bodyUsed resp
  then reject (TypeError ("body used already for: " +:+ resp_url resp))
  else mret (resp_body resp,
             {| resp_url := resp_url resp; status := status resp;
                resp_headers := resp_headers resp;
                resp_body := resp_body resp; resp_bodyUsed := true |}).

(** The end of [.json()]: [JSON.parse] of the text; node-fetch turns its
    [SyntaxError] into a [FetchError] that names the url of the request or
    response. *)
Definition parse (u body : string) : M Value :=
  match JSON_parse body with
  | Some v => mret v
  | None =>
      reject (FetchError
                ("invalid json response body at " +:+ u +:+ " reason: "
                 +:+ JSON_parse_reason body)
                "invalid-json")
  end.

(** [h && h.includes(part)] as a condition *)
Definition header_includes (h : option string) (part : string) : bool :=
  match h with
  | Some v => negb (String.eqb v EmptyString) && includes v part
  | None => false
  end.

Definition print_headers (headers : list (string * string)) : M unit :=
  when (negb (Nat.eqb (List.length (map fst headers)) 0))
    (log ("Headers:" +:+ nl);;
     emit Group;;
     for_each
       (fun header =>
          log (header +:+ ": " +:+
               default "undefined" (own_lookup header headers)))
       (map fst headers);;
     emit GroupEnd;;
     emit LogBlank).

(** [printColoredTextStats] *)
Definition suitesPassed (suites : list SuiteStat) : Z :=
  fold_left (fun n suiteStat => if suite_failed suiteStat =? 0 then n + 1 else n)
            suites 0.

Definition testSuitesLine (suites : list SuiteStat) : string :=
  let passedCount := suitesPassed suites in
  let len := Z.of_nat (List.length suites) in
  "Test Suites: "
  +:+ (if negb (len =? passedCount)
       then red (Z_toString (len - passedCount) +:+ " failed") +:+ ", "
       else EmptyString)
  +:+ (if negb (passedCount =? 0)
       then green (Z_toString passedCount +:+ " passed") +:+ ", "
       else EmptyString)
  +:+ Z_toString len +:+ " total".

Definition testsLine (stats : Stats) : string :=
  "Tests:       "
  +:+ (if negb (failed stats =? 0)
       then red (Z_toString (failed stats) +:+ " failed") +:+ ", "
       else EmptyString)
  +:+ (if negb (passed stats =? 0)
       then green (Z_toString (passed stats) +:+ " passed") +:+ ", "
       else EmptyString)
  +:+ Z_toString (total stats) +:+ " total".

Definition printColoredTextStats (stats : Stats) (startTime endTime : Z)
  : M unit :=
  match suiteStats stats with
  | Some suites => log (testSuitesLine suites)
  | None => mret tt
  end;;
  log (testsLine stats);;
  log ("Time:        " +:+ seconds_toFixed3 startTime endTime +:+ "s").

Definition printStats (stats : Stats) (startTime endTime : Z) : M unit :=
  printColoredTextStats stats startTime endTime.


(** [printColoredTextTestRun]: one network call of the verbose listing.
    Gives back the call as the reads leave it. *)
Definition print_request_body (i : nat) (req : Request) : M Request :=
  let contentType := own_lookup "content-type" (req_headers req) in
  if header_includes contentType "json" then
    '(body, req') ← consume_request i AsJson req;
    requestBody ← parse (url req) body;
    when (truthy requestBody)
      (log ("Body:" +:+ nl);;
       emit (Dir requestBody);;
       emit LogBlank);;
    mret req'
  else if header_includes contentType "multipart/form-data" then
    mret req
  else
    '(requestBody, req') ← consume_request i AsText req;
    when (truthy (VStr requestBody))
      (log ("Body:" +:+ nl);;
       emit Group;;
       log requestBody;;
       emit GroupEnd;;
       emit LogBlank);;
    mret req'.

Definition print_response (i : nat) (resp : Response) : M Response :=
  log ("Status Code: " +:+ Z_toString (status resp) +:+ nl);;
  print_headers (resp_headers resp);;
  log ("Body:" +:+ nl);;
  resp' ← (if header_includes (own_lookup "content-type" (resp_headers resp)) "json"
           then
             '(body, resp') ← consume_response i AsJson resp;
             v ← parse (resp_url resp) body;
             emit (Dir v);;
             mret resp'
           else
             emit Group;;
             '(body, resp') ← consume_response i AsText resp;
             log body;;
             emit GroupEnd;;
             mret resp');
  emit LogBlank;;
  mret resp'.

Definition print_networkCall (i : nat) (networkCall : NetworkCall)
  : M NetworkCall :=
  let req := request networkCall in
  log ("Request:" +:+ nl);;
  emit Group;;
  log (method req +:+ " " +:+ url req +:+ nl);;
  print_headers (req_headers req);;
  emit GroupEnd;;
  req' ← print_request_body i req;
  log ("Response:" +:+ nl);;
  emit Group;;
  resp' ← match response networkCall with
          | Some resp => resp' ← print_response i resp; mret (Some resp')
          | None => log ("No response returned." +:+ nl);; mret None
          end;
  emit GroupEnd;;
  mret {| request := req'; response := resp' |}.

(** [for (const networkCall of testRun.result.networkCalls)], from the
    [i]-th call on. *)
Fixpoint print_networkCalls (i : nat) (calls : list NetworkCall)
  : M (list NetworkCall) :=
  match calls with
  | [] => mret []
  | networkCall :: rest =>
      networkCall' ← print_networkCall i networkCall;
      rest' ← print_networkCalls (S i) rest;
      mret (networkCall' :: rest')
  end.

Definition header_line (testRun : TestRun) : string :=
  let symbol := match failure (run_result testRun) with
                | Some _ => symbol_cross
                | None => symbol_check
                end in
  (symbol +:+ " ")
  +:+ match run_suite testRun with
      | Some suite =>
          match suite_sep suite with
          | Some n =>
              if negb (n =? 0)
              then "SEP-" +:+ Z_toString n +:+ " " +:+ symbol_pointer +:+ " "
              else EmptyString
          | None => EmptyString
          end
          +:+ suite_name suite +:+ " " +:+ symbol_pointer +:+ " "
      | None => EmptyString
      end
  +:+ assertion (run_test testRun).

(** The two lines under [if (result.expected && result.actual)]. *)
Definition print_expected_received (result : Result) : M unit :=
  log ("Expected: " +:+ toString (expected result));;
  log ("Received: '" +:+ toString (actual result) +:+ "'" +:+ nl).

Definition print_failure (result : Result) (f : Failure) : M unit :=
  emit LogBlank;;
  log (bold ("Failure Type:" +:+ nl));;
  emit Group;;
  log (name f +:+ nl);;
  emit GroupEnd;;
  log (bold ("Description:" +:+ nl));;
  emit Group;;
  log (message f +:+ nl);;
  when (truthy (expected result) && truthy (actual result))
    (print_expected_received result);;
  emit GroupEnd.

Definition print_success (test : Test) : M unit :=
  log (bold (nl +:+ "Description:" +:+ nl));;
  emit Group;;
  log (toString (from_option VStr VUndefined (successMessage test)) +:+ nl);;
  emit GroupEnd.

(** The block under [if (verbose && testRun.result.networkCalls.length)]. *)
Definition print_network_section (result : Result) (verbose : bool)
  : M (list NetworkCall) :=
  if verbose && negb (Nat.eqb (List.length (networkCalls result)) 0)
  then
    log (bold ("Network Calls:" +:+ nl));;
    print_networkCalls 0 (networkCalls result)
  else mret (networkCalls result).

(** Gives back [testRun.result.networkCalls] as the reads leave them. *)
Definition printColoredTextTestRun (testRun : TestRun) (verbose : bool)
  : M (list NetworkCall) :=
  let result := run_result testRun in
  let color := match failure result with
               | Some _ => red_bold
               | None => green_bold
               end in
  log (color (header_line testRun));;
  emit Group;;
  match failure result with
  | Some f => print_failure result f
  | None => when verbose (print_success (run_test testRun))
  end;;
  calls ← print_network_section result verbose;
  emit GroupEnd;;
  mret calls.

Definition printTestRun (testRun : TestRun) (verbose : bool)
  : M (list NetworkCall) :=
  printColoredTextTestRun testRun verbose.

End Printer.
End Console.

(** ** A concrete environment, for evaluating the definitions *)

Module Sample.

(** Modelled from the spec: the contents of [genericFailures] are not in
    the sources read here.  Section 4.2 lists the generic kinds:
    connection refused, non-2xx status, malformed body, schema mismatch. *)
Definition generic : Catalog :=
  Obj.literal [
    ("CONNECTION_REFUSED",
      {| mode_name := "connection refused";
         text := constant_text "connection refused" |});
    ("NON_2XX_STATUS",
      {| mode_name := "non-2xx status";
         text := constant_text "non-2xx status" |});
    ("MALFORMED_BODY",
      {| mode_name := "malformed body";
         text := constant_text "malformed body" |});
    ("SCHEMA_MISMATCH",
      {| mode_name := "schema mismatch";
         text := constant_text "schema mismatch" |})
  ].

Definition problem_failure (p : RequestProblem) : Failure :=
  match p with
  | ConnectionRefused =>
      {| name := "connection refused"; message := "connection refused" |}
  | StatusMismatch _ _ =>
      {| name := "non-2xx status"; message := "non-2xx status" |}
  | UnparsableBody =>
      {| name := "malformed body"; message := "malformed body" |}
  end.

Definition sep1_tomlExists : Test := {|
  assertion := "the TOML file exists";
  sep := 1;
  group := "TOML tests";
  dependencies := [];
  failureModes := generic;
  successMessage := None;
|}.

(** A stand-in for the JSON codec: only the literals [null] and [{}]. *)
Definition parse (body : string) : option Value :=
  if String.eqb body "null" then Some VNull
  else if String.eqb body "{}" then Some (VObj [])
  else None.

#[local] Instance imports : Imports := {|
  number_toString := fun n =>
    match n with
    | NaN => "NaN"
    | Infinity false => "Infinity"
    | Infinity true => "-Infinity"
    | Finite q => Console.Z_toString (Qnum q)
    end;
  genericFailures := generic;
  requestFailure := problem_failure;
  tomlExists := sep1_tomlExists;
  validate_infoSchema := fun _ => [];
  JSON_stringify := fun _ => "{}";
  JSON_parse := parse;
  JSON_parse_reason := fun _ => "Unexpected token";
  Keypair_random_publicKey := "GSAMPLE";
  builtin_member := fun _ _ => None;
  Request_url := fun u => u;
|}.

#[local] Instance terminal : Terminal := {|
  red := fun s => s;
  green := fun s => s;
  bold := fun s => s;
  red_bold := fun s => s;
  green_bold := fun s => s;
  symbol_cross := "x";
  symbol_check := "v";
  symbol_pointer := ">";
  seconds_toFixed3 := fun a b => Console.Z_toString ((b - a) / 1000);
|}.

(** The request of a call to [/info]. *)
Definition info_request : Request := new_Request "https://x/info".

Definition no_context : Context := {| expects := ∅; provides := ∅ |}.

(** A store in which one slot of one test is filled in. *)
Definition store (code : option string) (t : TestId) (slot : string) (v : Value)
  : Store :=
  {| config := {| assetCode := code; otherFields := ∅ |};
     contexts := fun t' =>
       if decide (t' = t)
       then {| expects := {[ slot := v ]}; provides := ∅ |}
       else no_context;
     results := [] |}.

End Sample.

(** ** Notions used in the statements *)

(** The position of a test in [tests]; [tomlExists] is not in the list. *)
Definition position (t : TestId) : option nat :=
  match t with
  | tomlExists_ref => None
  | hasTransferServerUrl_ref => Some 0%nat
  | isCompliantWithSchema_ref => Some 1%nat
  | containsConfiguredAssetCode_ref => Some 2%nat
  | depositRequiresToken_ref => Some 3%nat
  end.

(** The rank that every declared dependency decreases. *)
Definition rank (t : TestId) : nat :=
  match position t with Some i => S i | None => 0%nat end.

(** The kinds a test names in its own [failureModes], before the spread:
    the key and the [name] of each. *)
Definition named_kinds (t : TestId) : list (string * string) :=
  match t with
  | tomlExists_ref => []
  | hasTransferServerUrl_ref =>
      [ ("TRANSFER_SERVER_NOT_FOUND", "TRANSFER_SERVER_SEP0024 not found");
        ("NO_HTTPS", "no https");
        ("ENDS_WITH_SLASH", "ends with slash") ]
  | isCompliantWithSchema_ref => [ ("INVALID_SCHEMA", "invalid schema") ]
  | containsConfiguredAssetCode_ref =>
      [ ("CONFIGURED_ASSET_CODE_NOT_FOUND", "configured asset code not found");
        ("CONFIGURED_ASSET_CODE_NOT_ENABLED", "configured asset code not enabled");
        ("NO_ASSET_CODES", "no enabled assets");
        ("NO_INFO", "unable to parse or fetch /info JSON") ]
  | depositRequiresToken_ref => []
  end.

(** No entry of the deposit section that [for ... in] visits is [null] (or
    [undefined]), so that its [enabled] can be read. *)
Definition entries_readable (depositAssets : Value) : Prop :=
  forall (code : string) (entry : Value),
    code ∈ forin_keys depositAssets ->
    get depositAssets code = inr entry ->
    entry ≠ VUndefined ∧ entry ≠ VNull.

(** [depositAssets[code].enabled] is truthy. *)
Definition enabled_at (depositAssets : Value) (code : string) : bool :=
  match get depositAssets code with
  | inr entry =>
      match get entry "enabled" with
      | inr v => truthy v
      | inl _ => false
      end
  | inl _ => false
  end.

(** The first enabled asset code, in enumeration order. *)
Definition first_enabled (depositAssets : Value) : option string :=
  List.find (enabled_at depositAssets) (forin_keys depositAssets).

(** Every assignment to the store that a body can make satisfies [R]
    (before, after), and every store it can return from satisfies [Q].
    A body resumed after a request may find any store; so may the caller
    of a dropped call. *)
Fixpoint every_put (R : Store -> Store -> Prop) {A : Type} (t : Async A)
  (s : Store) (Q : A -> Store -> Prop) : Prop :=
  match t with
  | Ret a => Q a s
  | Throw _ => True
  | Get k => every_put R (k s) s Q
  | Put s' k => R s s' ∧ every_put R k s' Q
  | Fetch _ k => forall (r : FetchResult) (s2 : Store), every_put R (k r) s2 Q
  | Spawn t' k =>
      every_put R t' s (fun _ _ => True)
      ∧ forall s1 : Store, every_put R k s1 Q
  end.

(** The run configuration is left as it is. *)
Definition config_kept (s s' : Store) : Prop := config s' = config s.

(** Only [assetCode] may change, and only from absent or empty. *)
Definition assetCode_filled (s s' : Store) : Prop :=
  otherFields (config s') = otherFields (config s)
  ∧ (assetCode (config s') = assetCode (config s)
     ∨ absent_or_empty (assetCode (config s)) = true).

(** What a test may do to the run configuration. *)
Definition frame (t : TestId) : Store -> Store -> Prop :=
  match t with
  | containsConfiguredAssetCode_ref => assetCode_filled
  | _ => config_kept
  end.

Import Console.

(** What a computation adds to the console and to the body reads. *)
Definition io_app (io d : Io) : Io :=
  {| console := console io ++ console d;
     bodyReads := bodyReads io ++ bodyReads d |}.

(** A computation that only appends, the same way from every start. *)
Definition tracer {A : Type} (m : M A) : Prop :=
  forall io, perform m io = ((perform m silent).1, io_app io (perform m silent).2).

(** The body reads a computation makes. *)
Definition reads_of {A : Type} (m : M A) : list BodyRead :=
  bodyReads (perform m silent).2.

(** The same run, its result carrying neither payload. *)
Definition without_payload (testRun : TestRun) : TestRun :=
  {| run_test := run_test testRun;
     run_result :=
       {| networkCalls := networkCalls (run_result testRun);
          failure := failure (run_result testRun);
          expected := VUndefined;
          actual := VUndefined |};
     run_suite := run_suite testRun |}.


(** The suites whose [failed] counter is zero, and the others. *)
Definition suites_passed (suites : list SuiteStat) : list SuiteStat :=
  filter (fun suiteStat => suite_failed suiteStat = 0) suites.

Definition suites_failed (suites : list SuiteStat) : list SuiteStat :=
  filter (fun suiteStat => suite_failed suiteStat ≠ 0) suites.

(** The body reads the verbose listing asks for: per call, the request
    body unless the content type mentions [multipart/form-data] and not
    [json], then the response body if there is a response. *)
Definition request_reads (i : nat) (req : Request) : list BodyRead :=
  let contentType := own_lookup "content-type" (req_headers req) in
  if header_includes contentType "json"
  then [{| call := i; side := OfRequest; reader := AsJson |}]
  else if header_includes contentType "multipart/form-data"
  then []
  else [{| call := i; side := OfRequest; reader := AsText |}].

Definition response_reads (i : nat) (resp : option Response) : list BodyRead :=
  match resp with
  | Some r =>
      if header_includes (own_lookup "content-type" (resp_headers r)) "json"
      then [{| call := i; side := OfResponse; reader := AsJson |}]
      else [{| call := i; side := OfResponse; reader := AsText |}]
  | None => []
  end.

Fixpoint listed_reads (i : nat) (calls : list NetworkCall) : list BodyRead :=
  match calls with
  | [] => []
  | c :: rest =>
      (request_reads i (request c) ++ response_reads i (response c))
      ++ listed_reads (S i) rest
  end.

(** The read [r] is one that the listing makes of the call [c]: of its
    request body, as JSON when the content type mentions [json], and as
    text when it mentions neither [json] nor [multipart/form-data]; or of
    the body of its response, as JSON or as text by the content type. *)
Definition reads_body_of (c : NetworkCall) (r : BodyRead) : Prop :=
  match side r with
  | OfRequest =>
      let contentType := own_lookup "content-type" (req_headers (request c)) in
      if header_includes contentType "json" then reader r = AsJson
      else header_includes contentType "multipart/form-data" = false
           ∧ reader r = AsText
  | OfResponse =>
      exists resp : Response,
        response c = Some resp
        ∧ reader r
          = if header_includes (own_lookup "content-type" (resp_headers resp)) "json"
            then AsJson else AsText
  end.

(** A computation that only appends and whose body reads are among [l],
    in the order of [l]. *)
Definition reads_in {A : Type} (m : M A) (l : list BodyRead) : Prop :=
  tracer m ∧ reads_of m `sublist_of` l.

(** ** Notions used in the further properties *)

(** A body that gets to its end in one turn: it waits for no request and
    drops no call. *)
Fixpoint local {A : Type} (t : Async A) (s : Store) : Prop :=
  match t with
  | Ret _ | Throw _ => True
  | Get k => local (k s) s
  | Put s' k => local k s'
  | Fetch _ _ => False
  | Spawn _ _ => False
  end.

(** The failure [hasTransferServerUrl.run] reports for a URL that is a
    string, in the order of its tests. *)
Definition url_verdict (u : string) : option Failure :=
  if String.eqb u EmptyString then
    Some {| name := "TRANSFER_SERVER_SEP0024 not found";
            message := "The stellar.toml file does not have a valid TRANSFER_SERVER_SEP0024 URL" |}
  else if negb (startsWith u "https") then
    Some {| name := "no https";
            message := "The transfer server URL must use HTTPS" |}
  else if String.eqb (slice_last u) "/" then
    Some {| name := "ends with slash";
            message := "The transfer server URL cannot end with a '/'" |}
  else None.

(** The failure [containsConfiguredAssetCode.run] reports for a configured
    asset code, given the entries of the deposit section.  An entry that is
    falsy counts as missing; a code that names a member of
    [Object.prototype] and has no entry finds that member, which has no
    [enabled]. *)
Definition configured_verdict (code : string) (props : list (string * Value))
  : option Failure :=
  let not_found :=
    Some {| name := "configured asset code not found";
            message := code +:+ " is not present in the /info response" |} in
  let not_enabled :=
    Some {| name := "configured asset code not enabled";
            message := code +:+ " is not enabled for SEP-24" |} in
  match own_lookup code props with
  | Some entry =>
      if negb (truthy entry) then not_found
      else if enabled_at (VObj props) code then None
      else not_enabled
  | None =>
      match own_lookup code Object_prototype with
      | Some _ => not_enabled
      | None => not_found
      end
  end.

(** The [Result] objects allocated before index [n] are as they were. *)
Definition older_results_kept (n : nat) (s s' : Store) : Prop :=
  forall i : nat, (i < n)%nat -> results s' !! i = results s !! i.

(** The slot names of [context.expects] and [context.provides] in the
    declarations of the tests. *)
Definition declared_expects (t : TestId) : list string :=
  match t with
  | tomlExists_ref => []
  | hasTransferServerUrl_ref => ["tomlObj"]
  | isCompliantWithSchema_ref => ["transferServerUrl"]
  | containsConfiguredAssetCode_ref => ["infoObj"]
  | depositRequiresToken_ref => ["transferServerUrl"]
  end.

Definition declared_provides (t : TestId) : list string :=
  match t with
  | tomlExists_ref => []
  | hasTransferServerUrl_ref => ["transferServerUrl"]
  | isCompliantWithSchema_ref => ["infoObj"]
  | containsConfiguredAssetCode_ref => []
  | depositRequiresToken_ref => []
  end.

(** Of all the contexts, only the slots [slots] of what [this] provides
    may differ. *)
Definition context_kept (this : TestId) (slots : list string) (s s' : Store)
  : Prop :=
  forall t : TestId,
    expects (contexts s' t) = expects (contexts s t)
    ∧ forall k : string,
        (t = this ∧ k ∈ slots)
        ∨ provides (contexts s' t) !! k = provides (contexts s t) !! k.

(** The number of console groups open after the calls [cs], starting from
    [n] open groups; [None] when a group is closed that was not open. *)
Fixpoint depth_after (n : nat) (cs : list ConsoleCall) : option nat :=
  match cs with
  | [] => Some n
  | Group :: rest => depth_after (S n) rest
  | GroupEnd :: rest =>
      match n with
      | O => None
      | S k => depth_after k rest
      end
  | _ :: rest => depth_after n rest
  end.

(** A computation that, entered with [i] groups open above some base,
    returns with [o] open and, if it rejects, stops with at least [lo]
    open. *)
Definition levels {A : Type} (i o lo : nat) (m : M A) : Prop :=
  tracer m
  ∧ forall n : nat,
      match perform m silent with
      | (inr _, d) => depth_after (n + i) (console d) = Some (n + o)%nat
      | (inl _, d) =>
          exists k : nat, depth_after (n + i) (console d) = Some (n + lo + k)%nat
      end.

(** A computation that always returns [a], one that always rejects with
    [e], and one whose returned values all satisfy [P]. *)
Definition returns {A : Type} (a : A) (m : M A) : Prop :=
  forall io, (perform m io).1 = inr a.

Definition rejects {A : Type} (e : Exn) (m : M A) : Prop :=
  forall io, (perform m io).1 = inl e.

Definition ensures {A : Type} (P : A -> Prop) (m : M A) : Prop :=
  forall io a io', perform m io = (inr a, io') -> P a.

(** A request, a response and a network call after the verbose listing has
    read their bodies. *)
Definition used_request (req : Request) : Request :=
  {| method := method req; url := url req; req_headers := req_headers req;
     req_body := req_body req; req_bodyUsed := true |}.

Definition used_response (resp : Response) : Response :=
  {| resp_url := resp_url resp; status := status resp;
     resp_headers := resp_headers resp;
     resp_body := resp_body resp; resp_bodyUsed := true |}.

Definition listed_request (req : Request) : Request :=
  match request_reads 0 req with
  | [] => req
  | _ :: _ => used_request req
  end.

Definition listed_call (c : NetworkCall) : NetworkCall :=
  {| request := listed_request (request c);
     response := used_response <$> response c |}.

(** The same run with other network calls in its result. *)
Definition with_calls (testRun : TestRun) (calls : list NetworkCall) : TestRun :=
  {| run_test := run_test testRun;
     run_result :=
       {| networkCalls := calls;
          failure := failure (run_result testRun);
          expected := expected (run_result testRun);
          actual := actual (run_result testRun) |};
     run_suite := run_suite testRun |}.

(** What the request helper holds against an answer, if anything. *)
Definition answer_problem `{Imports} (expectedStatus : Z)
  (contentType : option string) (answer : FetchResult) : option RequestProblem :=
  match answer with
  | NetworkError => Some ConnectionRefused
  | Responded resp =>
      if negb (status resp =? expectedStatus)
      then Some (StatusMismatch expectedStatus (status resp))
      else match decode_body contentType (resp_body resp) with
           | None => Some UnparsableBody
           | Some _ => None
           end
  end.


(** * Properties *)

(** ** The failure catalogs *)

Lemma lookup_spread {A} (o more : gmap string A) (k : string) :
  Obj.spread o more !! k =
    match more !! k with Some x => Some x | None => o !! k end.
Proof.
  unfold Obj.spread. rewrite lookup_union.
  destruct (more !! k), (o !! k); reflexivity.
Qed.

Lemma generic_in_spread {A} (o more : gmap string A) : more ⊆ Obj.spread o more.
Proof. unfold Obj.spread. apply map_union_subseteq_l. Qed.

(** The keys of [hasTransferServerUrl.failureModes]. *)
Lemma hasTransferServerUrl_catalog_keys :
  dom (failureModes hasTransferServerUrl.test)
  = ({["TRANSFER_SERVER_NOT_FOUND"; "NO_HTTPS"; "ENDS_WITH_SLASH"]} : gset string).
Proof.
  unfold hasTransferServerUrl.test, Obj.literal. simpl.
  rewrite !dom_insert_L, dom_empty_L. set_solver.
Qed.

(** The keys of a catalog made by spreading. *)
Lemma dom_spread {A} (o more : gmap string A) :
  dom (Obj.spread o more) = dom more ∪ dom o.
Proof. unfold Obj.spread. apply dom_union_L. Qed.

(** Each test of the suite has its named kinds under their keys; a kind
    that is not the named one was put there by the spread. *)
Lemma named_kinds_present `{Imports} (t : TestId) (key kind : string) :
  (key, kind) ∈ named_kinds t ->
  exists m : FailureMode,
    failureModes (test_of t) !! key = Some m
    ∧ (mode_name m = kind
       ∨ (t ≠ hasTransferServerUrl_ref ∧ genericFailures !! key = Some m)).
Proof.
  intros Hin.
  destruct t; simpl in Hin;
    repeat (apply elem_of_cons in Hin as [[= -> ->] | Hin]);
    try (by apply elem_of_nil in Hin);
    try (eexists; split; [reflexivity | by left]);
    simpl test_of;
    unfold isCompliantWithSchema.test, containsConfiguredAssetCode.test;
    simpl failureModes; rewrite lookup_spread;
    match goal with
    | |- context [genericFailures !! ?k] =>
        destruct (genericFailures !! k) as [g |] eqn:Hg
    end;
    try (exists g; split; [reflexivity | right; by split]);
    (eexists; split; [reflexivity | by left]).
Qed.

(** C1, as amended: every test of the suite other than
    [hasTransferServerUrl] has the whole shared catalog [genericFailures] in
    its own [failureModes], entry for entry, in addition to the kinds it
    names: its keys are the generic keys and the named keys, and each named
    key holds the named kind unless the spread put a generic kind of the
    same key there.  The catalog of [hasTransferServerUrl] holds its three
    named kinds and nothing else. *)
Theorem C1_generic_failures_merged `{Imports} (t : TestId) :
  t ∈ tests ->
  (t ≠ hasTransferServerUrl_ref ->
     genericFailures ⊆ failureModes (test_of t)
     ∧ dom (failureModes (test_of t))
       = dom genericFailures ∪ list_to_set (named_kinds t).*1)
  ∧ (t = hasTransferServerUrl_ref ->
       dom (failureModes (test_of t))
       = ({["TRANSFER_SERVER_NOT_FOUND"; "NO_HTTPS"; "ENDS_WITH_SLASH"]} : gset string))
  ∧ (forall key kind : string,
       (key, kind) ∈ named_kinds t ->
       exists m : FailureMode,
         failureModes (test_of t) !! key = Some m
         ∧ (mode_name m = kind
            ∨ (t ≠ hasTransferServerUrl_ref ∧ genericFailures !! key = Some m))).
Proof.
  intros Hin. split; [| split].
  - intros Hne. unfold tests in Hin. simpl in Hin.
    repeat (apply elem_of_cons in Hin as [-> | Hin]); try congruence;
      try (split; [apply generic_in_spread |];
           simpl test_of;
           unfold isCompliantWithSchema.test, containsConfiguredAssetCode.test,
             depositRequiresToken.test;
           simpl failureModes; rewrite dom_spread; f_equal;
           unfold Obj.literal; simpl;
           rewrite ?dom_insert_L, dom_empty_L; set_solver).
    by apply elem_of_nil in Hin.
  - intros ->. apply hasTransferServerUrl_catalog_keys.
  - intros key kind. apply named_kinds_present.
Qed.

Lemma C1_generic_failures_merged_witness :
  (@genericFailures Sample.imports)
    ⊆ failureModes (@test_of Sample.imports isCompliantWithSchema_ref)
  ∧ exists m : FailureMode,
      failureModes (@test_of Sample.imports isCompliantWithSchema_ref)
        !! "INVALID_SCHEMA" = Some m
      ∧ mode_name m = "invalid schema".
Proof.
  destruct (@C1_generic_failures_merged Sample.imports isCompliantWithSchema_ref)
    as (Hgeneric & _ & Hnamed).
  - unfold tests. set_solver.
  - split; [apply Hgeneric; discriminate |].
    destruct (Hnamed "INVALID_SCHEMA" "invalid schema") as (m & Hm & Hkind).
    + apply list_elem_of_here.
    + exists m. split; [exact Hm |].
      destruct Hkind as [Hkind | [_ Hclash]]; [exact Hkind |].
      vm_compute in Hclash. discriminate.
Defined.

(** C1 as stated fails: with a generic catalog that has a kind at all,
    [hasTransferServerUrl.failureModes] lacks it. *)
Lemma C1_counterexample :
  (@genericFailures Sample.imports) !! "CONNECTION_REFUSED" ≠ None
  ∧ hasTransferServerUrl_ref ∈ tests
  ∧ failureModes (@test_of Sample.imports hasTransferServerUrl_ref)
      !! "CONNECTION_REFUSED" = None.
Proof.
  split; [| split].
  - vm_compute. discriminate.
  - unfold tests. set_solver.
  - apply not_elem_of_dom.
    change (test_of hasTransferServerUrl_ref) with hasTransferServerUrl.test.
    rewrite hasTransferServerUrl_catalog_keys.
    rewrite !not_elem_of_union, !not_elem_of_singleton. by repeat split.
Qed.

(** ** The order of the exported list *)

Lemma position_spec (t : TestId) (i : nat) :
  tests !! i = Some t <-> position t = Some i.
Proof.
  split.
  - destruct i as [|[|[|[|i]]]]; simpl; intros [= <-]; reflexivity.
  - destruct t; simpl; intros [= <-]; reflexivity.
Qed.

Lemma in_tests_position (t : TestId) : t ∈ tests <-> is_Some (position t).
Proof.
  split.
  - intros [i Hi]%list_elem_of_lookup. apply position_spec in Hi. eauto.
  - intros [i Hi]. apply position_spec in Hi.
    eapply list_elem_of_lookup; eauto.
Qed.

Lemma declares_rank `{Imports} (t d : TestId) :
  declares t d -> (rank d < rank t)%nat.
Proof.
  intros [Hin Hd]. apply in_tests_position in Hin as [i Hi].
  destruct t; simpl in Hi; try discriminate; simpl in Hd;
    repeat (apply elem_of_cons in Hd as [-> | Hd]);
    try (by apply elem_of_nil in Hd); cbn; lia.
Qed.

Lemma tc_declares_rank `{Imports} (t d : TestId) :
  tc declares t d -> (rank d < rank t)%nat.
Proof.
  induction 1 as [t d Hd | t m d Hd _ IH].
  - by apply declares_rank.
  - apply declares_rank in Hd. lia.
Qed.

(** C7: the exported list is a topological order of the declared
    dependencies.  Every dependency of the [i]-th test is either
    [tomlExists], which is not in the list, or stands at an index below
    [i]; and no chain of declared dependencies leads from any test back to
    itself. *)
Theorem C7_tests_topological_order `{Imports} (i : nat) (t d : TestId) :
  tests !! i = Some t ->
  d ∈ dependencies (test_of t) ->
  ((d = tomlExists_ref ∧ d ∉ tests)
   ∨ (exists j : nat, (j < i)%nat ∧ tests !! j = Some d))
  ∧ (forall u : TestId, ¬ tc declares u u).
Proof.
  intros Hi Hd. split.
  - assert (Hdec : declares t d).
    { split; [eapply list_elem_of_lookup; eauto | done]. }
    apply declares_rank in Hdec. apply position_spec in Hi.
    unfold rank in Hdec. rewrite Hi in Hdec.
    destruct (position d) as [j|] eqn:Hj.
    + right. exists j. split; [lia | by apply position_spec].
    + left. destruct d; try discriminate. split; [done |].
      intros [? [=]]%in_tests_position.
  - intros u Hcycle%tc_declares_rank. lia.
Qed.

Lemma C7_tests_topological_order_witness :
  (exists j : nat, (j < 3)%nat ∧ tests !! j = Some containsConfiguredAssetCode_ref)
  ∧ (forall u : TestId, ¬ tc (@declares Sample.imports) u u).
Proof.
  destruct (@C7_tests_topological_order Sample.imports 3%nat
              depositRequiresToken_ref containsConfiguredAssetCode_ref)
    as [[[[=] _] | Hj] Hacyclic].
  - reflexivity.
  - simpl. set_solver.
  - split; [exact Hj | exact Hacyclic].
Defined.

(** ** One turn of an async body *)

Lemma turn_bind {A B : Type} (t : Async A) (f : A -> Async B) s fl :
  turn (bind t f) s fl =
    match turn t s fl with
    | (Completed a, s', fl') => turn (f a) s' fl'
    | (Rejected e, s', fl') => (Rejected e, s', fl')
    | (Pending req k, s', fl') => (Pending req (fun r => bind (k r) f), s', fl')
    end.
Proof.
  revert B f s fl.
  induction t as [A a|A e|A k IH|A s0 k IH|A req k IH|A t' IHt k IHk];
    intros B f s fl; simpl.
  - reflexivity.
  - reflexivity.
  - apply IH.
  - apply IH.
  - reflexivity.
  - destruct (turn t' s fl) as [[o s1] fl1]. apply IHk.
Qed.

Lemma turn_bind_completed {A B : Type} (t : Async A) (f : A -> Async B)
  s fl a s' fl' :
  turn t s fl = (Completed a, s', fl') ->
  turn (bind t f) s fl = turn (f a) s' fl'.
Proof. intros Ht. by rewrite turn_bind, Ht. Qed.

Lemma turn_mbind_completed {A B : Type} (t : Async A) (f : A -> Async B)
  s fl a s' fl' :
  turn t s fl = (Completed a, s', fl') ->
  turn (t ≫= f) s fl = turn (f a) s' fl'.
Proof.
  intros Ht. unfold mbind, Async_bind. by rewrite turn_bind, Ht.
Qed.

Lemma turn_mbind_rejected {A B : Type} (t : Async A) (f : A -> Async B)
  s fl e s' fl' :
  turn t s fl = (Rejected e, s', fl') ->
  turn (t ≫= f) s fl = (Rejected e, s', fl').
Proof.
  intros Ht. unfold mbind, Async_bind. by rewrite turn_bind, Ht.
Qed.

Lemma turn_mret {A : Type} (a : A) s fl : turn (mret a) s fl = (Completed a, s, fl).
Proof. reflexivity. Qed.

Lemma turn_lift_inr {A : Type} (x : Throws A) a s fl :
  x = inr a -> turn (lift x) s fl = (Completed a, s, fl).
Proof. by intros ->. Qed.

Lemma turn_lift_inl {A : Type} (x : Throws A) e s fl :
  x = inl e -> turn (lift x) s fl = (Rejected e, s, fl).
Proof. by intros ->. Qed.

Lemma turn_new_result s fl :
  turn new_result s fl
  = (Completed (List.length (results s)), alloc empty_result s, fl).
Proof. reflexivity. Qed.

Lemma turn_read_result r s fl :
  turn (read_result r) s fl
  = (Completed (default empty_result (results s !! r)), s, fl).
Proof. reflexivity. Qed.

Lemma turn_set_failure r f s fl :
  turn (set_failure r f) s fl = (Completed tt, update r (with_failure f) s, fl).
Proof. reflexivity. Qed.

Lemma turn_push_call r c s fl :
  turn (push_call r c) s fl = (Completed tt, update r (with_call c) s, fl).
Proof. reflexivity. Qed.

Lemma turn_expects_slot this slot s fl :
  turn (expects_slot this slot) s fl
  = (Completed (default VUndefined (expects (contexts s this) !! slot)), s, fl).
Proof. reflexivity. Qed.

Lemma turn_provides_slot this slot s fl :
  turn (provides_slot this slot) s fl
  = (Completed (default VUndefined (provides (contexts s this) !! slot)), s, fl).
Proof. reflexivity. Qed.

Lemma turn_set_provides this slot v s fl :
  turn (set_provides this slot v) s fl
  = (Completed tt, assign_provides this slot v s, fl).
Proof. reflexivity. Qed.

Lemma turn_config_assetCode s fl :
  turn config_assetCode s fl = (Completed (assetCode (config s)), s, fl).
Proof. reflexivity. Qed.

Lemma turn_set_config_assetCode code s fl :
  turn (set_config_assetCode code) s fl = (Completed tt, assign_assetCode code s, fl).
Proof. reflexivity. Qed.

Lemma turn_fail_with r t key args f s fl :
  makeFailure (mode t key) args = inr f ->
  turn (fail_with r t key args) s fl
  = (Completed r, update r (with_failure f) s, fl).
Proof.
  intros Hf. unfold fail_with.
  erewrite turn_mbind_completed by (by apply turn_lift_inr).
  erewrite turn_mbind_completed by apply turn_set_failure.
  reflexivity.
Qed.

(** Steps over the first statement of a body that runs to its end. *)
Tactic Notation "sync" "by" tactic3(t) :=
  erewrite turn_mbind_completed by t; cbv beta.

Ltac sync lem := sync by (apply lem).

(** What the store holds after the assignments. *)
Lemma results_alloc x s :
  results (alloc x s) !! List.length (results s) = Some x.
Proof.
  unfold alloc. simpl. rewrite lookup_app_r by lia.
  by rewrite Nat.sub_diag.
Qed.

Lemma results_update r g x s :
  results s !! r = Some x -> results (update r g s) !! r = Some (g x).
Proof.
  intros Hr. unfold update. simpl. rewrite Hr.
  apply list_lookup_insert_eq. by eapply lookup_lt_Some.
Qed.

Lemma results_assign_provides this slot v s :
  results (assign_provides this slot v s) = results s.
Proof. reflexivity. Qed.

Lemma provides_assigned this slot v s :
  provides (contexts (assign_provides this slot v s) this) !! slot = Some v.
Proof.
  unfold assign_provides. simpl. rewrite decide_True by done. simpl.
  apply lookup_insert_eq.
Qed.

Lemma provides_update r g this s :
  provides (contexts (update r g s) this) = provides (contexts s this).
Proof. reflexivity. Qed.

Lemma truthy_or (a b : Value) :
  truthy (Js.or a b) = false <-> truthy a = false ∧ truthy b = false.
Proof.
  unfold Js.or. destruct (truthy a) eqn:Ha; rewrite ?Ha; intuition congruence.
Qed.

(** ** [hasTransferServerUrl.run] *)

Lemma mode_TRANSFER_SERVER_NOT_FOUND :
  makeFailure (mode hasTransferServerUrl.test "TRANSFER_SERVER_NOT_FOUND") VUndefined
  = inr {| name := "TRANSFER_SERVER_SEP0024 not found";
           message := "The stellar.toml file does not have a valid TRANSFER_SERVER_SEP0024 URL" |}.
Proof. reflexivity. Qed.

Lemma mode_NO_HTTPS :
  makeFailure (mode hasTransferServerUrl.test "NO_HTTPS") VUndefined
  = inr {| name := "no https";
           message := "The transfer server URL must use HTTPS" |}.
Proof. reflexivity. Qed.

Lemma mode_ENDS_WITH_SLASH :
  makeFailure (mode hasTransferServerUrl.test "ENDS_WITH_SLASH") VUndefined
  = inr {| name := "ends with slash";
           message := "The transfer server URL cannot end with a '/'" |}.
Proof. reflexivity. Qed.

(** The first statements of [run]: the result object is allocated and the
    chosen URL is stored in the provided slot. *)
Lemma hasTransferServerUrl_prefix (s : Store) (fl : list InFlight)
  (tomlObj a b : Value) (k : ref -> Value -> Async ref) :
  expects (contexts s hasTransferServerUrl_ref) !! "tomlObj" = Some tomlObj ->
  get tomlObj "TRANSFER_SERVER_SEP0024" = inr a ->
  get tomlObj "TRANSFER_SERVER" = inr b ->
  turn
    (result ← new_result;
     tomlObj ← expects_slot hasTransferServerUrl_ref "tomlObj";
     sep24 ← lift (get tomlObj "TRANSFER_SERVER_SEP0024");
     chosen ← (if truthy sep24 then mret sep24
               else lift (get tomlObj "TRANSFER_SERVER"));
     set_provides hasTransferServerUrl_ref "transferServerUrl" chosen;;
     u ← provides_slot hasTransferServerUrl_ref "transferServerUrl";
     k result u) s fl
  = turn (k (List.length (results s)) (Js.or a b))
      (assign_provides hasTransferServerUrl_ref "transferServerUrl" (Js.or a b)
         (alloc empty_result s)) fl.
Proof.
  intros Hslot Ha Hb.
  sync turn_new_result. sync turn_expects_slot.
  change (contexts (alloc empty_result s)) with (contexts s).
  rewrite Hslot. simpl default.
  sync by (by apply turn_lift_inr).
  erewrite (turn_mbind_completed _ _ _ _ (Js.or a b)); cycle 1.
  { unfold Js.or. destruct (truthy a); [apply turn_mret | by apply turn_lift_inr]. }
  sync turn_set_provides. sync turn_provides_slot.
  rewrite provides_assigned. reflexivity.
Qed.

(** C4, as amended: when the URL chosen from the toml object is a
    non-empty string that does not start with [https], [run] completes in
    its first turn without sending a request, and the result it returns has
    the [NO_HTTPS] failure (name [no https]) and no network calls. *)
Theorem C4_no_https_failure (s : Store) (fl : list InFlight)
  (tomlObj a b : Value) (u : string) :
  expects (contexts s hasTransferServerUrl_ref) !! "tomlObj" = Some tomlObj ->
  get tomlObj "TRANSFER_SERVER_SEP0024" = inr a ->
  get tomlObj "TRANSFER_SERVER" = inr b ->
  Js.or a b = VStr u ->
  truthy (VStr u) = true ->
  startsWith u "https" = false ->
  exists (r : ref) (s' : Store),
    turn hasTransferServerUrl.run s fl = (Completed r, s', fl)
    ∧ results s' !! r
      = Some {| networkCalls := [];
                failure := Some {| name := "no https";
                                   message := "The transfer server URL must use HTTPS" |};
                expected := VUndefined; actual := VUndefined |}.
Proof.
  intros Hslot Ha Hb Hor Htruthy Hhttps.
  eexists _, _. split.
  - unfold hasTransferServerUrl.run, hasTransferServerUrl.this.
    etransitivity; [by eapply hasTransferServerUrl_prefix |]. cbv beta.
    rewrite Hor, Htruthy. simpl negb. cbv iota.
    sync turn_provides_slot. rewrite provides_assigned. simpl default.
    sync by (by apply turn_lift_inr). rewrite Hhttps. simpl negb. cbv iota.
    apply turn_fail_with, mode_NO_HTTPS.
  - rewrite (results_update _ _ empty_result); [reflexivity |].
    rewrite results_assign_provides. apply results_alloc.
Qed.

Lemma C4_no_https_failure_witness :
  exists (r : ref) (s' : Store),
    turn hasTransferServerUrl.run
      (Sample.store None hasTransferServerUrl_ref "tomlObj"
         (VObj [("TRANSFER_SERVER", VStr "http://x")])) []
    = (Completed r, s', [])
    ∧ results s' !! r
      = Some {| networkCalls := [];
                failure := Some {| name := "no https";
                                   message := "The transfer server URL must use HTTPS" |};
                expected := VUndefined; actual := VUndefined |}.
Proof.
  apply (C4_no_https_failure _ _
           (VObj [("TRANSFER_SERVER", VStr "http://x")])
           VUndefined (VStr "http://x") "http://x");
    reflexivity.
Defined.

(** C4 as stated fails for a URL that is present and truthy but not a
    string: the number [8000] does not start with [https], and [run] throws
    at [startsWith] instead of returning a result with the [NO_HTTPS]
    failure. *)
Lemma C4_counterexample :
  truthy (VNum (Finite (inject_Z 8000))) = true
  ∧ exists s' : Store,
      turn hasTransferServerUrl.run
        (Sample.store None hasTransferServerUrl_ref "tomlObj"
           (VObj [("TRANSFER_SERVER_SEP0024", VNum (Finite (inject_Z 8000)))])) []
      = (Rejected
           (TypeError
              "this.context.provides.transferServerUrl.startsWith is not a function"),
         s', []).
Proof. split; [reflexivity |]. eexists. vm_compute. reflexivity. Qed.

(** The rest of [run], from the test of the chosen URL on: where it ends,
    for each shape of the URL. *)
Lemma hasTransferServerUrl_outcome (s : Store) (fl : list InFlight)
  (tomlObj a b : Value) :
  expects (contexts s hasTransferServerUrl_ref) !! "tomlObj" = Some tomlObj ->
  get tomlObj "TRANSFER_SERVER_SEP0024" = inr a ->
  get tomlObj "TRANSFER_SERVER" = inr b ->
  let r := List.length (results s) in
  let s1 := assign_provides hasTransferServerUrl_ref "transferServerUrl"
              (Js.or a b) (alloc empty_result s) in
  (truthy (Js.or a b) = false
   ∧ turn hasTransferServerUrl.run s fl
     = (Completed r,
        update r (with_failure
                    {| name := "TRANSFER_SERVER_SEP0024 not found";
                       message := "The stellar.toml file does not have a valid TRANSFER_SERVER_SEP0024 URL" |})
               s1, fl))
  ∨ (truthy (Js.or a b) = true
     ∧ ((exists e, turn hasTransferServerUrl.run s fl = (Rejected e, s1, fl))
        ∨ (exists f, name f ≠ "TRANSFER_SERVER_SEP0024 not found"
             ∧ turn hasTransferServerUrl.run s fl
               = (Completed r, update r (with_failure f) s1, fl))
        ∨ turn hasTransferServerUrl.run s fl = (Completed r, s1, fl))).
Proof.
  intros Hslot Ha Hb r s1.
  assert (Hrun : forall o,
    turn (let u := Js.or a b in
          if negb (truthy u) then
            fail_with r hasTransferServerUrl.test "TRANSFER_SERVER_NOT_FOUND" VUndefined
          else
            u ← provides_slot hasTransferServerUrl_ref "transferServerUrl";
            https ← lift (hasTransferServerUrl.call_startsWith u "https");
            if negb https then
              fail_with r hasTransferServerUrl.test "NO_HTTPS" VUndefined
            else
              u ← provides_slot hasTransferServerUrl_ref "transferServerUrl";
              tail ← lift (hasTransferServerUrl.call_slice_last u);
              if hasTransferServerUrl.is_slash tail then
                fail_with r hasTransferServerUrl.test "ENDS_WITH_SLASH" VUndefined
              else
                mret r) s1 fl = o ->
    turn hasTransferServerUrl.run s fl = o).
  { intros o <-. unfold hasTransferServerUrl.run, hasTransferServerUrl.this.
    etransitivity; [by eapply hasTransferServerUrl_prefix |]. reflexivity. }
  cbv zeta in Hrun.
  destruct (truthy (Js.or a b)) eqn:Htruthy; [right | left]; split; try done.
  - simpl negb in Hrun. cbv iota in Hrun.
    destruct (Js.or a b) as [| |?|?|u|?|?|?] eqn:Hu;
      try (left; eexists; apply Hrun;
           sync turn_provides_slot; unfold s1; rewrite provides_assigned;
           simpl default;
           by apply turn_mbind_rejected, turn_lift_inl).
    right.
    destruct (startsWith u "https") eqn:Hhttps.
    + destruct (hasTransferServerUrl.is_slash (VStr (slice_last u))) eqn:Hslash.
      * left. eexists. split; cycle 1.
        { apply Hrun.
          sync turn_provides_slot. unfold s1 at 1. rewrite provides_assigned.
          simpl default.
          sync by (by apply turn_lift_inr). rewrite Hhttps. simpl negb. cbv iota.
          sync turn_provides_slot. unfold s1 at 1. rewrite provides_assigned.
          simpl default.
          sync by (by apply turn_lift_inr). rewrite Hslash.
          apply turn_fail_with, mode_ENDS_WITH_SLASH. }
        discriminate.
      * right. apply Hrun.
        sync turn_provides_slot. unfold s1 at 1. rewrite provides_assigned.
        simpl default.
        sync by (by apply turn_lift_inr). rewrite Hhttps. simpl negb. cbv iota.
        sync turn_provides_slot. unfold s1 at 1. rewrite provides_assigned.
        simpl default.
        sync by (by apply turn_lift_inr). rewrite Hslash.
        apply turn_mret.
    + left. eexists. split; cycle 1.
      { apply Hrun.
        sync turn_provides_slot. unfold s1 at 1. rewrite provides_assigned.
        simpl default.
        sync by (by apply turn_lift_inr). rewrite Hhttps. simpl negb. cbv iota.
        apply turn_fail_with, mode_NO_HTTPS. }
      discriminate.
  - apply Hrun. simpl negb. cbv iota.
    apply turn_fail_with, mode_TRANSFER_SERVER_NOT_FOUND.
Qed.

(** C9: [run] stores in the provided slot [transferServerUrl] the value of
    [TRANSFER_SERVER_SEP0024] when that value is truthy and the value of
    [TRANSFER_SERVER] otherwise; and it returns a result with the
    [TRANSFER_SERVER_NOT_FOUND] failure exactly when both values are
    falsy (absent included). *)
Theorem C9_transfer_server_url_choice (s : Store) (fl : list InFlight)
  (tomlObj a b : Value) :
  expects (contexts s hasTransferServerUrl_ref) !! "tomlObj" = Some tomlObj ->
  get tomlObj "TRANSFER_SERVER_SEP0024" = inr a ->
  get tomlObj "TRANSFER_SERVER" = inr b ->
  exists (o : Turn ref) (s' : Store),
    turn hasTransferServerUrl.run s fl = (o, s', fl)
    ∧ provides (contexts s' hasTransferServerUrl_ref) !! "transferServerUrl"
      = Some (if truthy a then a else b)
    ∧ ((exists (r : ref) (x : Result),
          o = Completed r
          ∧ results s' !! r = Some x
          ∧ failure x
            = Some {| name := "TRANSFER_SERVER_SEP0024 not found";
                      message := "The stellar.toml file does not have a valid TRANSFER_SERVER_SEP0024 URL" |})
       <-> truthy a = false ∧ truthy b = false).
Proof.
  intros Hslot Ha Hb.
  pose proof (results_alloc empty_result s) as Halloc.
  destruct (hasTransferServerUrl_outcome s fl tomlObj a b Hslot Ha Hb)
    as [[Hfalsy Hrun] | [Htruthy [[e Hrun] | [(f & Hname & Hrun) | Hrun]]]];
    rewrite Hrun; eexists _, _; (split; [reflexivity |]);
    (split; [rewrite ?provides_update; apply provides_assigned |]).
  - split; [intros _; by apply truthy_or |]. intros _.
    eexists _, _. split; [reflexivity |]. split.
    + apply results_update. rewrite results_assign_provides. apply Halloc.
    + reflexivity.
  - split; [by intros (r & x & [=] & _) |].
    intros Hboth%truthy_or. congruence.
  - split; [| intros Hboth%truthy_or; congruence].
    intros (r & x & [= <-] & Hx & Hfail).
    erewrite results_update in Hx
      by (rewrite results_assign_provides; apply Halloc).
    injection Hx as <-. simpl in Hfail. injection Hfail as ->.
    by destruct Hname.
  - split; [| intros Hboth%truthy_or; congruence].
    intros (r & x & [= <-] & Hx & Hfail).
    change (results (alloc empty_result s) !! List.length (results s) = Some x) in Hx.
    rewrite Halloc in Hx. injection Hx as <-. discriminate.
Qed.

Lemma C9_transfer_server_url_choice_witness :
  exists (o : Turn ref) (s' : Store),
    turn hasTransferServerUrl.run
      (Sample.store None hasTransferServerUrl_ref "tomlObj"
         (VObj [("TRANSFER_SERVER_SEP0024", VStr EmptyString);
                ("TRANSFER_SERVER", VStr "https://x")])) []
    = (o, s', [])
    ∧ provides (contexts s' hasTransferServerUrl_ref) !! "transferServerUrl"
      = Some (VStr "https://x")
    ∧ ((exists (r : ref) (x : Result),
          o = Completed r
          ∧ results s' !! r = Some x
          ∧ failure x
            = Some {| name := "TRANSFER_SERVER_SEP0024 not found";
                      message := "The stellar.toml file does not have a valid TRANSFER_SERVER_SEP0024 URL" |})
       <-> truthy (VStr EmptyString) = false ∧ truthy (VStr "https://x") = false).
Proof.
  apply (C9_transfer_server_url_choice _ _
           (VObj [("TRANSFER_SERVER_SEP0024", VStr EmptyString);
                  ("TRANSFER_SERVER", VStr "https://x")])
           (VStr EmptyString) (VStr "https://x"));
    reflexivity.
Defined.

(** ** [containsConfiguredAssetCode.run] *)

(** A property of a value other than [undefined] and [null] can be read. *)
Lemma get_defined (v : Value) (k : string) :
  v ≠ VUndefined -> v ≠ VNull -> exists x : Value, get v k = inr x.
Proof.
  intros Hu Hn. destruct v; simpl; try done; eauto;
    destruct (String.eqb k "length"); eauto.
Qed.

(** When no visited entry is [null], every visited entry can be read, and
    so can its [enabled]. *)
Lemma entries_readable_visited (depositAssets : Value) :
  entries_readable depositAssets ->
  Forall (fun code => exists entry v,
            get depositAssets code = inr entry ∧ get entry "enabled" = inr v)
         (forin_keys depositAssets).
Proof.
  intros Hreadable. apply Forall_forall. intros code Hcode.
  assert (Hget : exists entry, get depositAssets code = inr entry).
  { apply get_defined; intros ->; by apply elem_of_nil in Hcode. }
  destruct Hget as [entry Hentry].
  destruct (Hreadable code entry Hcode Hentry) as [Hu Hn].
  destruct (get_defined entry "enabled" Hu Hn) as [v Hv]. eauto.
Qed.

(** The loop stops at the first enabled code and assigns it. *)
Lemma turn_discover (depositAssets : Value) (keys : list string) s fl :
  Forall (fun code => exists entry v,
            get depositAssets code = inr entry ∧ get entry "enabled" = inr v)
         keys ->
  turn (containsConfiguredAssetCode.discover depositAssets keys) s fl
  = (Completed tt,
     match List.find (enabled_at depositAssets) keys with
     | Some code => assign_assetCode code s
     | None => s
     end, fl).
Proof.
  induction 1 as [| code rest (entry & v & Hentry & Hv) _ IH]; simpl.
  - reflexivity.
  - sync by (by apply turn_lift_inr). sync by (by apply turn_lift_inr).
    unfold enabled_at at 1. rewrite Hentry, Hv.
    destruct (truthy v); [apply turn_set_config_assetCode | apply IH].
Qed.

Lemma mode_NO_ASSET_CODES `{Imports} :
  genericFailures !! "NO_ASSET_CODES" = None ->
  makeFailure (mode containsConfiguredAssetCode.test "NO_ASSET_CODES") VUndefined
  = inr {| name := "no enabled assets";
           message := "There are no enabled assets in the /info response" |}.
Proof.
  intros Hfree. unfold mode, containsConfiguredAssetCode.test. simpl failureModes.
  rewrite lookup_spread, Hfree. reflexivity.
Qed.

(** C5, as amended: with [config.assetCode] absent and no entry of the
    deposit section [null], [run] assigns the first enabled asset code (in
    enumeration order) to [config.assetCode] and returns a result with no
    failure, unless that code is the empty string: then the code is
    assigned and the result still carries [NO_ASSET_CODES].  When no asset
    is enabled it returns the [NO_ASSET_CODES] failure and
    [config.assetCode] stays absent. *)
Theorem C5_asset_code_discovery `{Imports} (s : Store) (fl : list InFlight)
  (infoObj depositAssets : Value) :
  assetCode (config s) = None ->
  expects (contexts s containsConfiguredAssetCode_ref) !! "infoObj" = Some infoObj ->
  get infoObj "deposit" = inr depositAssets ->
  entries_readable depositAssets ->
  genericFailures !! "NO_ASSET_CODES" = None ->
  let no_asset_codes :=
    with_failure
      {| name := "no enabled assets";
         message := "There are no enabled assets in the /info response" |}
      empty_result in
  exists (r : ref) (s' : Store),
    turn containsConfiguredAssetCode.run s fl = (Completed r, s', fl)
    ∧ assetCode (config s') = first_enabled depositAssets
    ∧ results s' !! r
      = Some match first_enabled depositAssets with
             | Some code =>
                 if String.eqb code EmptyString then no_asset_codes
                 else empty_result
             | None => no_asset_codes
             end.
Proof.
  intros Habsent Hslot Hdeposit Hmap%entries_readable_visited Hfree no_asset_codes.
  pose proof (results_alloc empty_result s) as Halloc.
  assert (Hrun : forall o,
    turn (discover_then ← containsConfiguredAssetCode.discover depositAssets
                             (forin_keys depositAssets);
          code ← config_assetCode;
          if absent_or_empty code then
            fail_with (List.length (results s)) containsConfiguredAssetCode.test
              "NO_ASSET_CODES" VUndefined
          else mret (List.length (results s)))
      (alloc empty_result s) fl = o ->
    turn containsConfiguredAssetCode.run s fl = o).
  { intros o <-.
    unfold containsConfiguredAssetCode.run, containsConfiguredAssetCode.this.
    sync turn_new_result. sync turn_expects_slot.
    change (contexts (alloc empty_result s)) with (contexts s).
    rewrite Hslot. simpl default.
    sync by (by apply turn_lift_inr). sync turn_config_assetCode.
    change (config (alloc empty_result s)) with (config s).
    rewrite Habsent. reflexivity. }
  unfold first_enabled in *.
  destruct (List.find (enabled_at depositAssets) (forin_keys depositAssets))
    as [code |] eqn:Hfind.
  - destruct (String.eqb code EmptyString) eqn:Hempty.
    + eexists _, _. split; [| split].
      * apply Hrun. sync by (by apply turn_discover). rewrite Hfind.
        sync turn_config_assetCode. simpl assetCode.
        replace (absent_or_empty (Some code)) with true
          by (unfold absent_or_empty; simpl; by rewrite Hempty).
        by apply turn_fail_with, mode_NO_ASSET_CODES.
      * reflexivity.
      * by apply results_update.
    + eexists _, _. split; [| split].
      * apply Hrun. sync by (by apply turn_discover). rewrite Hfind.
        sync turn_config_assetCode. simpl assetCode.
        replace (absent_or_empty (Some code)) with false
          by (unfold absent_or_empty; simpl; by rewrite Hempty).
        apply turn_mret.
      * reflexivity.
      * exact Halloc.
  - eexists _, _. split; [| split].
    + apply Hrun. sync by (by apply turn_discover). rewrite Hfind.
      sync turn_config_assetCode.
      change (config (alloc empty_result s)) with (config s). rewrite Habsent.
      by apply turn_fail_with, mode_NO_ASSET_CODES.
    + exact Habsent.
    + by apply results_update.
Qed.

Lemma C5_asset_code_discovery_witness :
  exists (r : ref) (s' : Store),
    turn (@containsConfiguredAssetCode.run Sample.imports)
      (Sample.store None containsConfiguredAssetCode_ref "infoObj"
         (VObj [("deposit",
                 VObj [("USD", VObj [("enabled", VBool false)]);
                       ("EUR", VObj [("enabled", VBool true)])])])) []
    = (Completed r, s', [])
    ∧ assetCode (config s') = Some "EUR"
    ∧ results s' !! r = Some empty_result.
Proof.
  apply (@C5_asset_code_discovery Sample.imports _ []
           (VObj [("deposit",
                   VObj [("USD", VObj [("enabled", VBool false)]);
                         ("EUR", VObj [("enabled", VBool true)])])])
           (VObj [("USD", VObj [("enabled", VBool false)]);
                  ("EUR", VObj [("enabled", VBool true)])])).
  - reflexivity.
  - reflexivity.
  - reflexivity.
  - intros code entry Hcode. simpl in Hcode.
    repeat (apply elem_of_cons in Hcode as [-> | Hcode]);
      [| | by apply elem_of_nil in Hcode];
      intros [= <-]; split; discriminate.
  - vm_compute. reflexivity.
Defined.

(** C5 as stated fails in two ways.  When the first enabled code is the
    empty string, the code is assigned and the result still carries
    [NO_ASSET_CODES].  When an entry visited before the first enabled one
    is [null], [run] throws and assigns nothing. *)
Lemma C5_counterexample :
  (first_enabled (VObj [(EmptyString, VObj [("enabled", VBool true)])])
   = Some EmptyString
   ∧ exists (r : ref) (s' : Store) (x : Result),
       turn (@containsConfiguredAssetCode.run Sample.imports)
         (Sample.store None containsConfiguredAssetCode_ref "infoObj"
            (VObj [("deposit",
                    VObj [(EmptyString, VObj [("enabled", VBool true)])])])) []
       = (Completed r, s', [])
       ∧ assetCode (config s') = Some EmptyString
       ∧ results s' !! r = Some x
       ∧ failure x
         = Some {| name := "no enabled assets";
                   message := "There are no enabled assets in the /info response" |})
  ∧ exists s' : Store,
      turn (@containsConfiguredAssetCode.run Sample.imports)
        (Sample.store None containsConfiguredAssetCode_ref "infoObj"
           (VObj [("deposit",
                   VObj [("USD", VNull);
                         ("EUR", VObj [("enabled", VBool true)])])])) []
      = (Rejected
           (TypeError "Cannot read properties of null (reading 'enabled')"),
         s', [])
      ∧ assetCode (config s') = None.
Proof.
  split.
  - split; [reflexivity |].
    eexists _, _, _. split; [vm_compute; reflexivity |].
    split; [reflexivity |]. split; reflexivity.
  - eexists. split; [vm_compute; reflexivity | reflexivity].
Qed.

(** ** What the checks do to the run configuration *)

Lemma every_put_mono (R : Store -> Store -> Prop) {A : Type} (t : Async A) :
  forall (s : Store) (Q Q' : A -> Store -> Prop),
    (forall a s', Q a s' -> Q' a s') ->
    every_put R t s Q -> every_put R t s Q'.
Proof.
  induction t as [A a|A e|A k IH|A s0 k IH|A req k IH|A t' IHt k IHk];
    intros s Q Q' HQ; simpl.
  - apply HQ.
  - done.
  - by apply IH.
  - intros [HR Hk]. split; [done |]. by eapply IH.
  - intros Hk r s2. by eapply IH.
  - intros [Ht Hk]. split; [done |]. intros s1. by eapply IHk.
Qed.

Lemma every_put_bind (R : Store -> Store -> Prop) {A : Type} (t : Async A) :
  forall (B : Type) (f : A -> Async B) (s : Store) (Q : B -> Store -> Prop),
    every_put R t s (fun a s' => every_put R (f a) s' Q) ->
    every_put R (bind t f) s Q.
Proof.
  induction t as [A a|A e|A k IH|A s0 k IH|A req k IH|A t' IHt k IHk];
    intros B f s Q; simpl.
  - done.
  - done.
  - apply IH.
  - intros [HR Hk]. split; [done |]. by apply IH.
  - intros Hk r s2. by apply IH.
  - intros [Ht Hk]. split; [done |]. intros s1. by apply IHk.
Qed.

(** A turn of a body whose assignments all satisfy [R] takes the store to
    one related by [R], and leaves behind only such bodies. *)
Lemma every_put_turn (R : Store -> Store -> Prop) :
  (forall s, R s s) ->
  (forall s1 s2 s3, R s1 s2 -> R s2 s3 -> R s1 s3) ->
  forall (A : Type) (t : Async A) (s : Store) (fl : list InFlight)
         (Q : A -> Store -> Prop),
    every_put R t s Q ->
    Forall (fun p => forall r s2, every_put R (resume p r) s2 (fun _ _ => True)) fl ->
    R s (turn t s fl).1.2
    ∧ Forall (fun p => forall r s2, every_put R (resume p r) s2 (fun _ _ => True))
        (turn t s fl).2
    ∧ match (turn t s fl).1.1 with
      | Completed a => Q a (turn t s fl).1.2
      | Rejected _ => True
      | Pending _ k => forall r s2, every_put R (k r) s2 Q
      end.
Proof.
  intros Hrefl Htrans A t.
  induction t as [A a|A e|A k IH|A s0 k IH|A req k IH|A t' IHt k IHk];
    intros s fl Q; simpl.
  - intros HQ Hfl. done.
  - intros _ Hfl. done.
  - apply IH.
  - intros [HR Hk] Hfl. destruct (IH s0 fl Q Hk Hfl) as (H1 & H2 & H3).
    split; [by eapply Htrans |]. done.
  - intros Hk Hfl. done.
  - intros [Ht Hk] Hfl.
    destruct (IHt s fl _ Ht Hfl) as (H1 & H2 & H3).
    destruct (turn t' s fl) as [[o s1] fl1]. simpl in H1, H2, H3.
    match goal with |- context [turn k s1 ?fl2] =>
      assert (Hfl2 : Forall (fun p => forall r s2,
                 every_put R (resume p r) s2 (fun _ _ => True)) fl2)
    end.
    { destruct o; try done. apply Forall_app. split; [done |].
      apply Forall_singleton. simpl. exact H3. }
    match goal with |- context [turn k s1 ?fl2] =>
      destruct (IHk s1 fl2 Q (Hk s1) Hfl2) as (H4 & H5 & H6)
    end.
    split; [by eapply Htrans |]. done.
Qed.

Section Frame.
Variable R : Store -> Store -> Prop.
Hypothesis R_config : forall s s', config s' = config s -> R s s'.

Lemma every_put_mbind {A B : Type} (t : Async A) (f : A -> Async B) s Q :
  every_put R t s (fun a s' => every_put R (f a) s' Q) ->
  every_put R (t ≫= f) s Q.
Proof using Type. apply every_put_bind. Qed.

Lemma every_put_lift {A : Type} (x : Throws A) s (Q : A -> Store -> Prop) :
  (forall a, x = inr a -> Q a s) -> every_put R (lift x) s Q.
Proof using Type. destruct x; simpl; auto. Qed.

Lemma every_put_gets {A : Type} (f : Store -> A) s (Q : A -> Store -> Prop) :
  Q (f s) s -> every_put R (gets f) s Q.
Proof using Type. done. Qed.

Lemma every_put_modify (f : Store -> Store) s (Q : unit -> Store -> Prop) :
  config (f s) = config s -> Q tt (f s) -> every_put R (modify f) s Q.
Proof using R_config. intros Hc HQ. simpl. auto. Qed.

Lemma every_put_new_result s (Q : ref -> Store -> Prop) :
  Q (List.length (results s)) (alloc empty_result s) ->
  every_put R new_result s Q.
Proof using R_config. intros HQ. simpl. auto. Qed.

Lemma every_put_fetch req s (Q : FetchResult -> Store -> Prop) :
  (forall r s2, Q r s2) -> every_put R (fetch req) s Q.
Proof using Type. intros HQ. simpl. done. Qed.

Lemma every_put_fail_with r t key args s :
  every_put R (fail_with r t key args) s (fun _ _ => True).
Proof using R_config.
  unfold fail_with. apply every_put_mbind, every_put_lift. intros f _.
  apply every_put_mbind. by apply every_put_modify.
Qed.

Lemma every_put_makeRequest `{Imports} call expectedStatus r contentType s
  (Q : Value -> Store -> Prop) :
  (forall v s', Q v s') ->
  every_put R (makeRequest call expectedStatus r contentType) s Q.
Proof using R_config.
  intros HQ. unfold makeRequest. apply every_put_mbind, every_put_fetch.
  intros answer s2. destruct answer as [| resp].
  - apply every_put_mbind, every_put_modify; [done | apply HQ].
  - destruct (negb (status resp =? expectedStatus)).
    + apply every_put_mbind, every_put_modify; [done | apply HQ].
    + destruct (decode_body contentType (resp_body resp)).
      * apply every_put_mbind, every_put_modify; [done | apply HQ].
      * apply every_put_mbind, every_put_modify; [done | apply HQ].
Qed.

End Frame.

Lemma every_put_mret (R : Store -> Store -> Prop) {A : Type} (a : A) s
  (Q : A -> Store -> Prop) :
  Q a s -> every_put R (mret a) s Q.
Proof. done. Qed.

Lemma every_put_spawn (R : Store -> Store -> Prop) {A : Type} (t : Async A) s
  (Q : unit -> Store -> Prop) :
  every_put R t s (fun _ _ => True) ->
  (forall s1, Q tt s1) ->
  every_put R (spawn t) s Q.
Proof.
  intros Ht HQ. unfold spawn. simpl. split; [| exact HQ].
  apply every_put_bind. eapply every_put_mono; [| exact Ht]. done.
Qed.

(** Walks through a body made of the operations above. *)
Ltac frame_step HR :=
  lazymatch goal with
  | |- True => exact I
  | |- every_put _ (_ ≫= _) _ _ => apply every_put_mbind
  | |- every_put _ (fail_with _ _ _ _) _ _ => apply (every_put_fail_with _ HR)
  | |- every_put _ new_result _ _ => apply (every_put_new_result _ HR)
  | |- every_put _ (set_provides _ _ _) _ _ =>
      apply (every_put_modify _ HR); [reflexivity |]
  | |- every_put _ (set_failure _ _) _ _ =>
      apply (every_put_modify _ HR); [reflexivity |]
  | |- every_put _ (push_call _ _) _ _ =>
      apply (every_put_modify _ HR); [reflexivity |]
  | |- every_put _ (expects_slot _ _) _ _ => apply every_put_gets
  | |- every_put _ (provides_slot _ _) _ _ => apply every_put_gets
  | |- every_put _ (read_result _) _ _ => apply every_put_gets
  | |- every_put _ config_assetCode _ _ => apply every_put_gets
  | |- every_put _ (mret _) _ _ => apply every_put_mret
  | |- every_put _ (lift _) _ _ => apply every_put_lift; intros
  | |- every_put _ (makeRequest _ _ _ _) _ _ =>
      apply (every_put_makeRequest _ HR); intros
  | |- every_put _ (spawn _) _ _ => apply every_put_spawn; [| intros]
  | |- every_put _ (if ?b then _ else _) _ _ => destruct b
  | |- every_put _ (match ?x with _ => _ end) _ _ => destruct x
  | |- _ => progress cbv beta
  end.

Ltac frame HR := repeat frame_step HR.

Lemma config_kept_config (s s' : Store) : config s' = config s -> config_kept s s'.
Proof. done. Qed.

Lemma assetCode_filled_config (s s' : Store) :
  config s' = config s -> assetCode_filled s s'.
Proof. intros Hc. unfold assetCode_filled. rewrite Hc. auto. Qed.

Lemma frame_config (t : TestId) (s s' : Store) :
  config s' = config s -> frame t s s'.
Proof.
  destruct t; simpl; auto using config_kept_config, assetCode_filled_config.
Qed.

Lemma frame_refl (t : TestId) (s : Store) : frame t s s.
Proof. by apply frame_config. Qed.

Lemma frame_trans (t : TestId) (s1 s2 s3 : Store) :
  frame t s1 s2 -> frame t s2 s3 -> frame t s1 s3.
Proof.
  assert (Hkept : forall a b c, config_kept a b -> config_kept b c -> config_kept a c).
  { unfold config_kept. intros a b c Hab Hbc. congruence. }
  destruct t; simpl; eauto.
  unfold assetCode_filled. intros [Ho1 Ha1] [Ho2 Ha2].
  split; [congruence |].
  destruct Ha1 as [Ha1 | Ha1]; [| by right].
  destruct Ha2 as [Ha2 | Ha2]; [left; congruence | right; congruence].
Qed.

Lemma hasTransferServerUrl_frame (R : Store -> Store -> Prop) :
  (forall s s', config s' = config s -> R s s') ->
  forall s, every_put R hasTransferServerUrl.run s (fun _ _ => True).
Proof.
  intros HR s. unfold hasTransferServerUrl.run. frame HR.
Qed.

Lemma isCompliantWithSchema_frame `{Imports} (R : Store -> Store -> Prop) :
  (forall s s', config s' = config s -> R s s') ->
  forall s, every_put R isCompliantWithSchema.run s (fun _ _ => True).
Proof.
  intros HR s. unfold isCompliantWithSchema.run. frame HR.
Qed.

Lemma depositRequiresToken_frame `{Imports} (R : Store -> Store -> Prop) :
  (forall s s', config s' = config s -> R s s') ->
  forall s, every_put R depositRequiresToken.run s (fun _ _ => True).
Proof.
  intros HR s. unfold depositRequiresToken.run. frame HR.
Qed.

Lemma discover_frame (depositAssets : Value) (keys : list string) s
  (Q : unit -> Store -> Prop) :
  absent_or_empty (assetCode (config s)) = true ->
  (forall s', Q tt s') ->
  every_put assetCode_filled
    (containsConfiguredAssetCode.discover depositAssets keys) s Q.
Proof.
  intros Habsent HQ. induction keys as [| code rest IH]; simpl.
  - apply HQ.
  - apply every_put_mbind, every_put_lift. intros entry _.
    apply every_put_mbind, every_put_lift. intros enabled _.
    destruct (truthy enabled); [| exact IH].
    simpl. split; [| apply HQ].
    split; [reflexivity | by right].
Qed.

Lemma containsConfiguredAssetCode_frame `{Imports} :
  forall s, every_put assetCode_filled containsConfiguredAssetCode.run s
              (fun _ _ => True).
Proof.
  intros s. unfold containsConfiguredAssetCode.run.
  pose proof assetCode_filled_config as HR.
  apply every_put_mbind, (every_put_new_result _ HR).
  apply every_put_mbind, every_put_gets.
  apply every_put_mbind, every_put_lift. intros depositAssets _.
  apply every_put_mbind, every_put_gets.
  change (config (alloc empty_result s)) with (config s).
  destruct (absent_or_empty (assetCode (config s))) eqn:Habsent.
  - apply every_put_mbind, discover_frame; [exact Habsent |].
    intros s'. frame HR.
  - frame HR.
Qed.

(** A turn only adds to the requests in flight. *)
Lemma turn_inflight {A : Type} (b : Async A) :
  forall (s : Store) (fl : list InFlight),
    turn b s fl
    = ((turn b s []).1.1, (turn b s []).1.2, fl ++ (turn b s []).2).
Proof.
  induction b as [A a|A e|A k IH|A s1 k IH|A req k IH|A t' IHt k IHk];
    intros s fl; simpl.
  - by rewrite app_nil_r.
  - by rewrite app_nil_r.
  - apply IH.
  - apply IH.
  - by rewrite app_nil_r.
  - rewrite (IHt s fl).
    destruct (turn t' s []) as [[o s1] fl1]. simpl.
    destruct o as [a | e | req k'];
      rewrite IHk; symmetry; rewrite IHk; simpl;
      by rewrite ?app_nil_r, <- ?app_assoc.
Qed.

(** C6, as amended: in every [run] of the suite, each assignment to the
    store leaves every field of the run configuration other than
    [assetCode] as it was; [assetCode] itself is assigned only by
    [containsConfiguredAssetCode], and only when it was absent or the empty
    string before.  The same holds from the start of a turn of [run] to its
    end, and for the bodies a turn leaves waiting for an answer. *)
Theorem C6_config_frame `{Imports} (t : TestId) (body : Async ref) :
  run_of t = Some body ->
  (forall s : Store, every_put (frame t) body s (fun _ _ => True))
  ∧ (forall (s : Store) (fl : list InFlight), frame t s (turn body s fl).1.2)
  ∧ (forall s : Store,
       Forall (fun p => forall r s2,
                 every_put (frame t) (resume p r) s2 (fun _ _ => True))
              (turn body s []).2).
Proof.
  intros Hrun.
  assert (Hbody : forall s, every_put (frame t) body s (fun _ _ => True)).
  { destruct t; simpl in Hrun; try discriminate; injection Hrun as <-.
    - apply hasTransferServerUrl_frame, config_kept_config.
    - apply isCompliantWithSchema_frame, config_kept_config.
    - apply containsConfiguredAssetCode_frame.
    - apply depositRequiresToken_frame, config_kept_config. }
  split; [exact Hbody |]. split.
  - intros s fl. rewrite turn_inflight. simpl.
    apply (every_put_turn (frame t) (frame_refl t) (frame_trans t)
             _ body s [] _ (Hbody s)). constructor.
  - intros s.
    apply (every_put_turn (frame t) (frame_refl t) (frame_trans t)
             _ body s [] _ (Hbody s)). constructor.
Qed.

Lemma C6_config_frame_witness :
  config
    (turn (@depositRequiresToken.run Sample.imports)
       (Sample.store (Some "USD") depositRequiresToken_ref "transferServerUrl"
          (VStr "https://x")) []).1.2
  = config
      (Sample.store (Some "USD") depositRequiresToken_ref "transferServerUrl"
         (VStr "https://x")).
Proof.
  apply (@C6_config_frame Sample.imports depositRequiresToken_ref
           (@depositRequiresToken.run Sample.imports)).
  reflexivity.
Defined.

(** C6 as stated fails: an [assetCode] that is present but empty is
    overwritten by [containsConfiguredAssetCode.run]. *)
Lemma C6_counterexample :
  exists (r : ref) (s' : Store),
    turn (@containsConfiguredAssetCode.run Sample.imports)
      (Sample.store (Some EmptyString) containsConfiguredAssetCode_ref "infoObj"
         (VObj [("deposit", VObj [("USD", VObj [("enabled", VBool true)])])])) []
    = (Completed r, s', [])
    ∧ assetCode
        (config
           (Sample.store (Some EmptyString) containsConfiguredAssetCode_ref "infoObj"
              (VObj [("deposit", VObj [("USD", VObj [("enabled", VBool true)])])])))
      = Some EmptyString
    ∧ assetCode (config s') = Some "USD".
Proof.
  eexists _, _. split; [vm_compute; reflexivity |].
  split; reflexivity.
Qed.

(** ** [depositRequiresToken.run] and the dropped call *)

Lemma turn_spawn_pending {A : Type} (t : Async A) s fl req k s' fl' :
  turn t s fl = (Pending req k, s', fl') ->
  turn (spawn t) s fl
  = (Completed tt, s',
     fl' ++ [{| sent := req;
                resume := fun r => bind (k r) (fun _ => Ret tt) |}]).
Proof.
  intros Ht. unfold spawn. simpl. rewrite turn_bind, Ht. reflexivity.
Qed.

Lemma turn_makeRequest `{Imports} call expectedStatus r contentType s fl :
  exists k,
    turn (makeRequest call expectedStatus r contentType) s fl
    = (Pending (request call) k, s, fl)
    ∧ forall resp s2 fl2,
        status resp ≠ expectedStatus ->
        turn (k (Responded resp)) s2 fl2
        = (Completed VUndefined,
           update r (with_failure
                       (requestFailure (StatusMismatch expectedStatus (status resp))))
                  s2, fl2).
Proof.
  eexists. split.
  - unfold makeRequest, mbind, Async_bind. rewrite turn_bind. simpl. reflexivity.
  - intros resp s2 fl2 Hstatus. simpl.
    apply Z.eqb_neq in Hstatus. rewrite Hstatus. simpl.
    reflexivity.
Qed.

(** C2, what the code does: [run] completes in its first turn.  The result
    it returns holds the one network call and no failure, whatever the
    server is going to answer: the request of the helper is still in
    flight. *)
Theorem C2_run_completes_before_the_answer `{Imports} (s : Store)
  (fl : list InFlight) :
  let r := List.length (results s) in
  let call :=
    depositRequiresToken.postDepositCall
      (default VUndefined
         (expects (contexts s depositRequiresToken_ref) !! "transferServerUrl"))
      (assetCode (config s)) in
  exists (s' : Store) (p : InFlight),
    turn depositRequiresToken.run s fl = (Completed r, s', fl ++ [p])
    ∧ sent p = request call
    ∧ results s' !! r
      = Some {| networkCalls := [call]; failure := None;
                expected := VUndefined; actual := VUndefined |}.
Proof.
  intros r call.
  destruct (turn_makeRequest call 403 r None
              (update r (with_call call) (alloc empty_result s)) fl)
    as (k & Hk & _).
  eexists _, _. split; [| split].
  - unfold depositRequiresToken.run, depositRequiresToken.this.
    sync turn_new_result. sync turn_expects_slot. sync turn_config_assetCode.
    sync turn_push_call.
    sync by (apply turn_spawn_pending, Hk).
    apply turn_mret.
  - reflexivity.
  - rewrite (results_update _ _ empty_result); [reflexivity |].
    apply results_alloc.
Qed.

(** The failure for a status other than 403 is set when the answer is
    delivered, in a later turn. *)
Lemma depositRequiresToken_failure_arrives_later `{Imports} (s : Store)
  (resp : Response) (s2 : Store) (x : Result) :
  status resp ≠ 403 ->
  results s2 !! List.length (results s) = Some x ->
  exists (s' : Store) (p : InFlight) (s3 : Store),
    turn depositRequiresToken.run s [] = (Completed (List.length (results s)), s', [p])
    ∧ deliver p (Responded resp) s2 [] = (Completed tt, s3, [])
    ∧ results s3 !! List.length (results s)
      = Some (with_failure (requestFailure (StatusMismatch 403 (status resp))) x).
Proof.
  intros Hstatus Hx.
  set (r := List.length (results s)).
  set (call :=
    depositRequiresToken.postDepositCall
      (default VUndefined
         (expects (contexts s depositRequiresToken_ref) !! "transferServerUrl"))
      (assetCode (config s))).
  destruct (turn_makeRequest call 403 r None
              (update r (with_call call) (alloc empty_result s)) [])
    as (k & Hk & Hlater).
  eexists _, _, _. split; [| split].
  - unfold depositRequiresToken.run, depositRequiresToken.this.
    sync turn_new_result. sync turn_expects_slot. sync turn_config_assetCode.
    sync turn_push_call.
    sync by (apply turn_spawn_pending, Hk).
    apply turn_mret.
  - unfold deliver. simpl resume. rewrite turn_bind, (Hlater _ _ _ Hstatus).
    reflexivity.
  - by apply results_update.
Qed.

(** Running to the end against a network: what one turn leaves undone is
    resumed with the answer. *)
Lemma finish_of_turn (net : Request -> FetchResult) {A : Type} (t : Async A) :
  forall (s : Store) (fl : list InFlight),
    finish net t s fl
    = match turn t s fl with
      | (Completed a, s', fl') => (inr a, s', fl')
      | (Rejected e, s', fl') => (inl e, s', fl')
      | (Pending req k, s', fl') => finish net (k (net req)) s' fl'
      end.
Proof.
  induction t as [A a|A e|A k IH|A s0 k IH|A req k IH|A t' IHt k IHk];
    intros s fl; simpl; try done.
  destruct (turn t' s fl) as [[o s1] fl1]. apply IHk.
Qed.

(** The sibling [isCompliantWithSchema.run] awaits the helper: its first
    turn ends suspended on the request, and the result it returns once the
    answer is there holds the failure for a status other than 200. *)
Lemma isCompliantWithSchema_awaits `{Imports} (net : Request -> FetchResult)
  (s : Store) (resp : Response) :
  let r := List.length (results s) in
  let infoCall :=
    {| request :=
         new_Request
           (toString
              (default VUndefined
                 (expects (contexts s isCompliantWithSchema_ref)
                    !! "transferServerUrl")) +:+ "/info");
       response := None |} in
  net (request infoCall) = Responded resp ->
  status resp ≠ 200 ->
  (exists k s1, turn isCompliantWithSchema.run s [] = (Pending (request infoCall) k, s1, []))
  ∧ exists s',
      finish net isCompliantWithSchema.run s [] = (inr r, s', [])
      ∧ results s' !! r
        = Some (with_failure (requestFailure (StatusMismatch 200 (status resp)))
                  (with_call infoCall empty_result)).
Proof.
  intros r infoCall Hnet Hstatus.
  destruct (turn_makeRequest infoCall 200 r (Some "application/json")
              (update r (with_call infoCall) (alloc empty_result s)) [])
    as (k & Hk & Hlater).
  assert (Hturn : exists k',
    turn isCompliantWithSchema.run s []
    = (Pending (request infoCall) k',
       update r (with_call infoCall) (alloc empty_result s), [])
    ∧ forall s2 x,
        results s2 !! r = Some x ->
        turn (k' (Responded resp)) s2 []
        = (Completed r,
           assign_provides isCompliantWithSchema_ref "infoObj" VUndefined
             (update r (with_failure
                          (requestFailure (StatusMismatch 200 (status resp)))) s2),
           [])).
  { eexists. split.
    - unfold isCompliantWithSchema.run, isCompliantWithSchema.this.
      sync turn_new_result. sync turn_expects_slot. sync turn_push_call.
      unfold mbind, Async_bind. rewrite turn_bind.
      change (contexts (alloc empty_result s)) with (contexts s).
      fold r infoCall. rewrite Hk. reflexivity.
    - intros s2 x Hx. cbv beta. rewrite turn_bind, (Hlater _ _ _ Hstatus).
      erewrite turn_bind_completed by apply turn_set_provides.
      erewrite turn_bind_completed by apply turn_read_result. cbv beta.
      rewrite results_assign_provides.
      rewrite (results_update _ _ x) by done. simpl default. simpl failure.
      cbv iota. apply turn_mret. }
  destruct Hturn as (k' & Hpending & Hresume).
  split; [eauto |].
  eexists. split.
  - rewrite finish_of_turn, Hpending, Hnet, finish_of_turn.
    rewrite (Hresume _ (with_call infoCall empty_result)); [reflexivity |].
    apply results_update, results_alloc.
  - rewrite results_assign_provides.
    apply results_update, results_update, results_alloc.
Qed.

(** ** The reporter's effects *)

Lemma io_app_silent_r (io : Io) : io_app io silent = io.
Proof. destruct io. unfold io_app. simpl. by rewrite !app_nil_r. Qed.

Lemma io_app_silent_l (d : Io) : io_app silent d = d.
Proof. by destruct d. Qed.

Lemma io_app_assoc (a b c : Io) : io_app (io_app a b) c = io_app a (io_app b c).
Proof. unfold io_app. simpl. by rewrite !app_assoc. Qed.

Lemma tracer_ret {A : Type} (a : A) : tracer (mret a).
Proof. intros io. simpl. by rewrite io_app_silent_r. Qed.

Lemma tracer_reject {A : Type} (e : Exn) : tracer (@reject A e).
Proof. intros io. simpl. by rewrite io_app_silent_r. Qed.

Lemma tracer_emit (c : ConsoleCall) : tracer (emit c).
Proof. intros io. unfold io_app. simpl. by rewrite app_nil_r. Qed.

Lemma tracer_note_read (r : BodyRead) : tracer (note_read r).
Proof. intros io. unfold io_app. simpl. by rewrite app_nil_r. Qed.

Lemma perform_bind {A B : Type} (m : M A) (f : A -> M B) (io : Io) :
  perform (m ≫= f) io
  = match perform m io with
    | (inl e, io') => (inl e, io')
    | (inr a, io') => perform (f a) io'
    end.
Proof. reflexivity. Qed.

Lemma tracer_bind {A B : Type} (m : M A) (f : A -> M B) :
  tracer m -> (forall a, tracer (f a)) -> tracer (m ≫= f).
Proof.
  intros Hm Hf io. rewrite !perform_bind, (Hm io).
  destruct (perform m silent) as [[e | a] d]; simpl.
  - reflexivity.
  - rewrite (Hf a (io_app io d)), (Hf a d). simpl. by rewrite io_app_assoc.
Qed.

Lemma tracer_when (b : bool) (m : M unit) : tracer m -> tracer (when b m).
Proof. destruct b; [done | intros _; apply tracer_ret]. Qed.

Lemma tracer_for_each {A : Type} (f : A -> M unit) (l : list A) :
  (forall a, tracer (f a)) -> tracer (for_each f l).
Proof.
  intros Hf. induction l as [| x rest IH]; simpl.
  - apply tracer_ret.
  - apply tracer_bind; [apply Hf | intros _; exact IH].
Qed.

(** Walks through a computation made of the operations above. *)
Ltac tracer_step :=
  lazymatch goal with
  | |- tracer (_ ≫= _) => apply tracer_bind; [| intros]
  | |- tracer (mret _) => apply tracer_ret
  | |- tracer (reject _) => apply tracer_reject
  | |- tracer (emit _) => apply tracer_emit
  | |- tracer (log _) => apply tracer_emit
  | |- tracer (note_read _) => apply tracer_note_read
  | |- tracer (when _ _) => apply tracer_when
  | |- tracer (for_each _ _) => apply tracer_for_each; intros
  | |- tracer (if ?b then _ else _) => destruct b
  | |- tracer (let '(_, _) := ?p in _) => destruct p
  | |- tracer (match ?x with _ => _ end) => destruct x
  end.

Ltac tracer_auto := repeat tracer_step.

Section Tracers.
Context `{Imports} `{Terminal}.

Lemma tracer_consume_request i how req : tracer (consume_request i how req).
Proof. unfold consume_request. tracer_auto. Qed.

Lemma tracer_consume_response i how resp : tracer (consume_response i how resp).
Proof. unfold consume_response. tracer_auto. Qed.

Lemma tracer_parse u body : tracer (parse u body).
Proof. unfold parse. tracer_auto. Qed.

Lemma tracer_print_headers headers : tracer (print_headers headers).
Proof. unfold print_headers. tracer_auto. Qed.

Lemma tracer_print_request_body i req : tracer (print_request_body i req).
Proof.
  unfold print_request_body.
  repeat first [ tracer_step
               | simple apply tracer_consume_request
               | simple apply tracer_parse ].
Qed.

Lemma tracer_print_response i resp : tracer (print_response i resp).
Proof.
  unfold print_response.
  repeat first [ tracer_step
               | simple apply tracer_consume_response
               | simple apply tracer_print_headers
               | simple apply tracer_parse ].
Qed.

Lemma tracer_print_networkCall i networkCall :
  tracer (print_networkCall i networkCall).
Proof.
  unfold print_networkCall.
  repeat first [ tracer_step
               | simple apply tracer_print_headers
               | simple apply tracer_print_request_body
               | simple apply tracer_print_response ].
Qed.

Lemma tracer_print_networkCalls calls :
  forall i, tracer (print_networkCalls i calls).
Proof.
  induction calls as [| c rest IH]; intros i; simpl.
  - apply tracer_ret.
  - apply tracer_bind; [apply tracer_print_networkCall | intros c'].
    apply tracer_bind; [apply IH | intros rest']. apply tracer_ret.
Qed.

Lemma tracer_print_failure result f : tracer (print_failure result f).
Proof. unfold print_failure, print_expected_received. tracer_auto. Qed.

Lemma tracer_print_success test : tracer (print_success test).
Proof. unfold print_success. tracer_auto. Qed.

Lemma tracer_print_network_section result verbose :
  tracer (print_network_section result verbose).
Proof.
  unfold print_network_section.
  repeat first [ tracer_step | simple apply tracer_print_networkCalls ].
Qed.

Lemma tracer_printTestRun testRun verbose : tracer (printTestRun testRun verbose).
Proof.
  unfold printTestRun, printColoredTextTestRun. cbv zeta.
  repeat first [ tracer_step
               | simple apply tracer_print_failure
               | simple apply tracer_print_success
               | simple apply tracer_print_network_section ].
Qed.


End Tracers.

(** ** The payload lines of a failed run *)



(** ** The suites line of the stats *)

Lemma suitesPassed_from (suites : list SuiteStat) (n : Z) :
  fold_left (fun n suiteStat => if suite_failed suiteStat =? 0 then n + 1 else n)
            suites n
  = n + Z.of_nat (List.length (suites_passed suites)).
Proof.
  revert n. induction suites as [| st rest IH]; intros n; simpl.
  - lia.
  - rewrite IH. unfold suites_passed. rewrite filter_cons.
    destruct (Z.eqb_spec (suite_failed st) 0) as [Hz | Hnz].
    + rewrite decide_True by done. simpl. lia.
    + rewrite decide_False by done. lia.
Qed.

Lemma suites_split (suites : list SuiteStat) :
  List.length suites
  = (List.length (suites_passed suites) + List.length (suites_failed suites))%nat.
Proof.
  unfold suites_passed, suites_failed.
  induction suites as [| st rest IH]; [done |].
  rewrite !filter_cons. simpl.
  destruct (decide (suite_failed st = 0)) as [Hz | Hnz].
  - rewrite decide_False by (intros Hne; by apply Hne). simpl. lia.
  - rewrite decide_True by done. simpl. lia.
Qed.

(** C8: in the stats it prints, the reporter counts a suite as passed
    exactly when its [failed] counter is zero; the number it reports as
    failed is the number of suites minus that count, which is the number of
    suites with a non-zero counter (for a counter that counts failed runs:
    at least one).  [printStats] prints the line with these two numbers and
    their sum first, then the tests line and the time. *)
Theorem C8_suites_line `{Terminal} (stats : Stats) (suites : list SuiteStat)
  (startTime endTime : Z) (io : Io) :
  suiteStats stats = Some suites ->
  let npassed := Z.of_nat (List.length (suites_passed suites)) in
  let nfailed := Z.of_nat (List.length (suites_failed suites)) in
  suitesPassed suites = npassed
  ∧ Z.of_nat (List.length suites) - suitesPassed suites = nfailed
  ∧ (forall st, st ∈ suites_passed suites <-> st ∈ suites ∧ suite_failed st = 0)
  ∧ (forall st, 0 <= suite_failed st ->
       (st ∈ suites_failed suites <-> st ∈ suites ∧ 1 <= suite_failed st))
  ∧ perform (printStats stats startTime endTime) io
    = (inr tt,
       {| console :=
            console io
            ++ [ Log ("Test Suites: "
                      +:+ (if negb (nfailed =? 0)
                           then red (Z_toString nfailed +:+ " failed") +:+ ", "
                           else EmptyString)
                      +:+ (if negb (npassed =? 0)
                           then green (Z_toString npassed +:+ " passed") +:+ ", "
                           else EmptyString)
                      +:+ Z_toString (npassed + nfailed) +:+ " total");
                 Log (testsLine stats);
                 Log ("Time:        " +:+ seconds_toFixed3 startTime endTime
                      +:+ "s") ];
          bodyReads := bodyReads io |}).
Proof.
  intros Hsuites npassed nfailed.
  assert (Hpassed : suitesPassed suites = npassed).
  { unfold suitesPassed. rewrite suitesPassed_from. subst npassed. lia. }
  assert (Hlen : Z.of_nat (List.length suites) = npassed + nfailed).
  { subst npassed nfailed. rewrite (suites_split suites). lia. }
  split; [exact Hpassed |]. split; [lia |].
  split; [| split].
  - intros st. unfold suites_passed. by rewrite list_elem_of_filter, (comm and).
  - intros st Hcount. unfold suites_failed.
    rewrite list_elem_of_filter, (comm and).
    split; intros [Hin Hst]; (split; [done | lia]).
  - unfold printStats, printColoredTextStats. rewrite Hsuites.
    unfold testSuitesLine. cbv zeta. rewrite Hpassed, Hlen.
    replace (npassed + nfailed =? npassed) with (nfailed =? 0)
      by (destruct (Z.eqb_spec nfailed 0), (Z.eqb_spec (npassed + nfailed) npassed);
          (reflexivity || lia)).
    replace (npassed + nfailed - npassed) with nfailed by lia.
    simpl. by rewrite <- !app_assoc.
Qed.

Lemma C8_suites_line_witness :
  @suitesPassed
    [ {| suite_failed := 0 |}; {| suite_failed := 2 |}; {| suite_failed := 0 |} ]
  = 2
  ∧ perform
      (@printStats Sample.terminal
         {| total := 5; passed := 3; failed := 2;
            suiteStats :=
              Some [ {| suite_failed := 0 |}; {| suite_failed := 2 |};
                     {| suite_failed := 0 |} ] |} 0 1500) silent
    = (inr tt,
       {| console :=
            [ Log "Test Suites: 1 failed, 2 passed, 3 total";
              Log "Tests:       2 failed, 3 passed, 5 total";
              Log "Time:        1s" ];
          bodyReads := [] |}).
Proof.
  destruct (@C8_suites_line Sample.terminal
              {| total := 5; passed := 3; failed := 2;
                 suiteStats :=
                   Some [ {| suite_failed := 0 |}; {| suite_failed := 2 |};
                          {| suite_failed := 0 |} ] |}
              [ {| suite_failed := 0 |}; {| suite_failed := 2 |};
                {| suite_failed := 0 |} ] 0 1500 silent eq_refl)
    as (Hpassed & _ & _ & _ & Hprinted).
  split; [exact Hpassed | exact Hprinted].
Defined.

(** ** The body reads of the reporter *)

Lemma reads_bind {A B : Type} (m : M A) (f : A -> M B) :
  tracer m -> (forall a, tracer (f a)) ->
  reads_of (m ≫= f)
  = reads_of m ++ match (perform m silent).1 with
                  | inr a => reads_of (f a)
                  | inl _ => []
                  end.
Proof.
  intros Hm Hf. unfold reads_of. rewrite perform_bind.
  destruct (perform m silent) as [[e | a] d]; simpl.
  - by rewrite app_nil_r.
  - by rewrite (Hf a d).
Qed.

Lemma reads_in_bind {A B : Type} (m : M A) (f : A -> M B) (l1 l2 : list BodyRead) :
  reads_in m l1 -> (forall a, reads_in (f a) l2) -> reads_in (m ≫= f) (l1 ++ l2).
Proof.
  intros [Hm Hl1] Hf. split.
  - apply tracer_bind; [done | intros a; apply Hf].
  - rewrite reads_bind by (done || intros a; apply Hf).
    apply sublist_app; [done |].
    destruct (perform m silent).1 as [e | a]; [apply sublist_nil_l | apply Hf].
Qed.

Lemma reads_in_quiet_bind {A B : Type} (m : M A) (f : A -> M B) (l : list BodyRead) :
  reads_in m [] -> (forall a, reads_in (f a) l) -> reads_in (m ≫= f) l.
Proof. apply (reads_in_bind m f [] l). Qed.

Lemma reads_in_bind_quiet {A B : Type} (m : M A) (f : A -> M B) (l : list BodyRead) :
  reads_in m l -> (forall a, reads_in (f a) []) -> reads_in (m ≫= f) l.
Proof.
  intros Hm Hf. rewrite <- (app_nil_r l). by apply reads_in_bind.
Qed.

Lemma reads_in_ret {A : Type} (a : A) (l : list BodyRead) : reads_in (mret a) l.
Proof. split; [apply tracer_ret | apply sublist_nil_l]. Qed.

Lemma reads_in_reject {A : Type} (e : Exn) (l : list BodyRead) :
  reads_in (@reject A e) l.
Proof. split; [apply tracer_reject | apply sublist_nil_l]. Qed.

Lemma reads_in_emit (c : ConsoleCall) (l : list BodyRead) : reads_in (emit c) l.
Proof. split; [apply tracer_emit | apply sublist_nil_l]. Qed.

Lemma reads_in_note_read (r : BodyRead) : reads_in (note_read r) [r].
Proof. split; [apply tracer_note_read | done]. Qed.

Lemma reads_in_when (b : bool) (m : M unit) (l : list BodyRead) :
  reads_in m l -> reads_in (when b m) l.
Proof. destruct b; [done | intros _; apply reads_in_ret]. Qed.

Lemma reads_in_for_each {A : Type} (f : A -> M unit) (xs : list A) :
  (forall a, reads_in (f a) []) -> reads_in (for_each f xs) [].
Proof.
  intros Hf. induction xs as [| x rest IH]; simpl.
  - apply reads_in_ret.
  - apply reads_in_quiet_bind; [apply Hf | intros _; exact IH].
Qed.

(** Steps over statements that read nothing. *)
Ltac quiet_step :=
  lazymatch goal with
  | |- reads_in (mret _) _ => apply reads_in_ret
  | |- reads_in (reject _) _ => apply reads_in_reject
  | |- reads_in (emit _) _ => apply reads_in_emit
  | |- reads_in (log _) _ => apply reads_in_emit
  | |- reads_in (when _ _) _ => apply reads_in_when
  | |- reads_in (for_each _ _) _ => apply reads_in_for_each; intros
  | |- reads_in (emit _ ≫= _) _ => apply reads_in_quiet_bind; [| intros]
  | |- reads_in (log _ ≫= _) _ => apply reads_in_quiet_bind; [| intros]
  | |- reads_in (when _ _ ≫= _) _ => apply reads_in_quiet_bind; [| intros]
  | |- reads_in (if ?b then _ else _) _ => destruct b
  | |- reads_in (let '(_, _) := ?p in _) _ => destruct p
  | |- reads_in (match ?x with _ => _ end) _ => destruct x
  end.

Ltac quiet := repeat quiet_step.

Section Reads.
Context `{Imports} `{Terminal}.

Lemma reads_in_consume_request i how req :
  reads_in (consume_request i how req)
           [{| call := i; side := OfRequest; reader := how |}].
Proof.
  unfold consume_request.
  apply reads_in_bind_quiet; [apply reads_in_note_read | intros _].
  quiet.
Qed.

Lemma reads_in_consume_response i how resp :
  reads_in (consume_response i how resp)
           [{| call := i; side := OfResponse; reader := how |}].
Proof.
  unfold consume_response.
  apply reads_in_bind_quiet; [apply reads_in_note_read | intros _].
  quiet.
Qed.

Lemma reads_in_parse u body l : reads_in (parse u body) l.
Proof. unfold parse. quiet. Qed.

Lemma reads_in_print_headers headers l : reads_in (print_headers headers) l.
Proof.
  unfold print_headers. apply reads_in_when. quiet.
  apply reads_in_quiet_bind; [| intros; quiet].
  apply reads_in_for_each. intros. quiet.
Qed.

Lemma reads_in_print_request_body i req :
  reads_in (print_request_body i req) (request_reads i req).
Proof.
  unfold print_request_body, request_reads. cbv zeta.
  destruct (header_includes (own_lookup "content-type" (req_headers req)) "json").
  - apply reads_in_bind_quiet; [apply reads_in_consume_request |].
    intros [body req'].
    apply reads_in_quiet_bind; [apply reads_in_parse | intros; quiet].
  - destruct (header_includes (own_lookup "content-type" (req_headers req))
                "multipart/form-data").
    + quiet.
    + apply reads_in_bind_quiet; [apply reads_in_consume_request |].
      intros [body req']. quiet.
Qed.

Lemma reads_in_print_response i resp :
  reads_in (print_response i resp) (response_reads i (Some resp)).
Proof.
  unfold print_response, response_reads. quiet.
  apply reads_in_quiet_bind; [apply reads_in_print_headers | intros _]. quiet.
  apply reads_in_bind_quiet; [| intros; quiet].
  destruct (header_includes (own_lookup "content-type" (resp_headers resp)) "json").
  - apply reads_in_bind_quiet; [apply reads_in_consume_response |].
    intros [body resp'].
    apply reads_in_quiet_bind; [apply reads_in_parse | intros; quiet].
  - quiet.
    apply reads_in_bind_quiet; [apply reads_in_consume_response |].
    intros [body resp']. quiet.
Qed.

Lemma reads_in_print_networkCall i networkCall :
  reads_in (print_networkCall i networkCall)
           (request_reads i (request networkCall)
            ++ response_reads i (response networkCall)).
Proof.
  unfold print_networkCall. cbv zeta. quiet.
  apply reads_in_quiet_bind; [apply reads_in_print_headers | intros _]. quiet.
  apply reads_in_bind; [apply reads_in_print_request_body | intros req'].
  quiet.
  apply reads_in_bind_quiet; [| intros; quiet].
  destruct (response networkCall) as [resp |].
  - apply reads_in_bind_quiet; [apply reads_in_print_response |].
    intros; quiet.
  - quiet.
Qed.

Lemma reads_in_print_networkCalls calls :
  forall i, reads_in (print_networkCalls i calls) (listed_reads i calls).
Proof.
  induction calls as [| c rest IH]; intros i; simpl.
  - apply reads_in_ret.
  - apply reads_in_bind; [apply reads_in_print_networkCall | intros c'].
    apply reads_in_bind_quiet; [apply IH | intros; quiet].
Qed.

Lemma reads_in_print_failure result f : reads_in (print_failure result f) [].
Proof. unfold print_failure, print_expected_received. quiet. Qed.

Lemma reads_in_print_success test : reads_in (print_success test) [].
Proof. unfold print_success. quiet. Qed.

Lemma reads_in_print_network_section result verbose :
  reads_in (print_network_section result verbose)
    (if verbose && negb (Nat.eqb (List.length (networkCalls result)) 0)
     then listed_reads 0 (networkCalls result)
     else []).
Proof.
  unfold print_network_section.
  destruct (verbose && negb (Nat.eqb (List.length (networkCalls result)) 0)).
  - quiet. apply reads_in_print_networkCalls.
  - quiet.
Qed.

Lemma reads_in_printTestRun testRun verbose :
  reads_in (printTestRun testRun verbose)
    (if verbose && negb (Nat.eqb (List.length (networkCalls (run_result testRun))) 0)
     then listed_reads 0 (networkCalls (run_result testRun))
     else []).
Proof.
  unfold printTestRun, printColoredTextTestRun. cbv zeta. quiet.
  apply reads_in_quiet_bind.
  { destruct (failure (run_result testRun)).
    - apply reads_in_print_failure.
    - apply reads_in_when, reads_in_print_success. }
  intros _.
  apply reads_in_bind_quiet;
    [apply reads_in_print_network_section | intros; quiet].
Qed.

End Reads.

Lemma listed_reads_calls (calls : list NetworkCall) :
  forall (i : nat) (r : BodyRead),
    r ∈ listed_reads i calls -> (i <= call r)%nat.
Proof.
  induction calls as [| c rest IH]; intros i r; simpl.
  - intros []%elem_of_nil.
  - rewrite !elem_of_app. intros [[Hreq | Hresp] | Hrest].
    + unfold request_reads in Hreq.
      repeat match type of Hreq with
             | context [if ?b then _ else _] => destruct b
             end;
        repeat (apply elem_of_cons in Hreq as [-> | Hreq]); simpl; try lia;
        by apply elem_of_nil in Hreq.
    + unfold response_reads in Hresp. destruct (response c) as [resp |].
      * destruct (header_includes _ _);
          repeat (apply elem_of_cons in Hresp as [-> | Hresp]); simpl; try lia;
          by apply elem_of_nil in Hresp.
      * by apply elem_of_nil in Hresp.
    + apply IH in Hrest. lia.
Qed.

(** No body is listed twice. *)
Lemma listed_reads_NoDup (calls : list NetworkCall) :
  forall i : nat,
    NoDup ((fun r => (call r, side r)) <$> listed_reads i calls).
Proof.
  induction calls as [| c rest IH]; intros i; simpl.
  - constructor.
  - rewrite fmap_app. apply NoDup_app. split; [| split].
    + unfold request_reads, response_reads.
      destruct (response c) as [resp |];
        repeat match goal with
               | |- context [if ?b then _ else _] => destruct b
               end;
        simpl; repeat constructor;
        rewrite ?not_elem_of_cons; repeat split;
        (discriminate || apply not_elem_of_nil).
    + intros [j sd] Hhere Hlater.
      apply list_elem_of_fmap in Hlater as (r & [= -> ->] & Hr).
      apply listed_reads_calls in Hr.
      apply list_elem_of_fmap in Hhere as (r' & [= Hcall Hside] & Hr').
      assert (call r' = i); [| lia].
      clear -Hr'. apply elem_of_app in Hr' as [Hreq | Hresp].
      * unfold request_reads in Hreq.
        repeat match type of Hreq with
               | context [if ?b then _ else _] => destruct b
               end;
          repeat (apply elem_of_cons in Hreq as [-> | Hreq]); simpl; try done;
          by apply elem_of_nil in Hreq.
      * unfold response_reads in Hresp. destruct (response c) as [resp |].
        -- destruct (header_includes _ _);
             repeat (apply elem_of_cons in Hresp as [-> | Hresp]); simpl; try done;
             by apply elem_of_nil in Hresp.
        -- by apply elem_of_nil in Hresp.
    + apply IH.
Qed.

(** Each listed read is a read of the body of the call it names. *)
Lemma listed_reads_shape (calls : list NetworkCall) :
  forall (i : nat) (r : BodyRead),
    r ∈ listed_reads i calls ->
    exists c : NetworkCall,
      calls !! (call r - i)%nat = Some c ∧ (i <= call r)%nat ∧ reads_body_of c r.
Proof.
  induction calls as [| c rest IH]; intros i r; simpl.
  - intros []%elem_of_nil.
  - rewrite !elem_of_app. intros [[Hreq | Hresp] | Hrest].
    + exists c. unfold request_reads in Hreq. unfold reads_body_of.
      cbv zeta in *.
      destruct (header_includes (own_lookup "content-type" (req_headers (request c)))
                  "json");
        [| destruct (header_includes
                       (own_lookup "content-type" (req_headers (request c)))
                       "multipart/form-data")];
        repeat (apply elem_of_cons in Hreq as [-> | Hreq]);
        try (by apply elem_of_nil in Hreq);
        simpl; rewrite Nat.sub_diag; done.
    + exists c. unfold response_reads in Hresp. unfold reads_body_of.
      destruct (response c) as [resp |]; [| by apply elem_of_nil in Hresp].
      destruct (header_includes (own_lookup "content-type" (resp_headers resp))
                  "json") eqn:Hjson;
        repeat (apply elem_of_cons in Hresp as [-> | Hresp]);
        try (by apply elem_of_nil in Hresp);
        simpl; rewrite Nat.sub_diag;
        (split; [done |]; split; [done |]);
        exists resp; by rewrite Hjson.
    + destruct (IH _ _ Hrest) as (c' & Hc' & Hle & Hshape).
      exists c'. split; [| split; [lia | done]].
      replace (call r - i)%nat with (S (call r - S i)) by lia. exact Hc'.
Qed.

(** C3, as amended: [printTestRun] reads no request or response body when
    it is not verbose or the run has no network calls.  In verbose mode
    it reads, in order, bodies of the listing only, and no body twice: per
    call the request body (as JSON when the content type mentions [json];
    not at all when it mentions [multipart/form-data] and not [json]; as
    text otherwise), then the response body if there is a response. *)
Theorem C3_body_reads `{Imports} `{Terminal} (testRun : TestRun)
  (verbose : bool) (io : Io) :
  let calls := networkCalls (run_result testRun) in
  let reads := reads_of (printTestRun testRun verbose) in
  bodyReads (perform (printTestRun testRun verbose) io).2 = bodyReads io ++ reads
  ∧ (verbose = false ∨ calls = [] -> reads = [])
  ∧ reads `sublist_of` listed_reads 0 calls
  ∧ NoDup ((fun r => (call r, side r)) <$> reads)
  ∧ (forall r : BodyRead,
       r ∈ reads ->
       exists c : NetworkCall, calls !! call r = Some c ∧ reads_body_of c r).
Proof.
  intros calls reads.
  destruct (reads_in_printTestRun testRun verbose) as [Htracer Hsub].
  fold calls reads in Hsub.
  assert (Hlisted : reads `sublist_of` listed_reads 0 calls).
  { destruct (verbose && negb (Nat.eqb (List.length calls) 0)); [done |].
    apply sublist_nil_r in Hsub. rewrite Hsub. apply sublist_nil_l. }
  split; [| split; [| split; [| split]]].
  - rewrite (Htracer io). reflexivity.
  - intros [-> | Hcalls].
    + by apply sublist_nil_r in Hsub.
    + rewrite Hcalls in Hsub. simpl in Hsub. rewrite andb_false_r in Hsub.
      by apply sublist_nil_r in Hsub.
  - exact Hlisted.
  - eapply sublist_NoDup; [apply (listed_reads_NoDup calls 0%nat) |].
    by apply fmap_sublist.
  - intros r Hr.
    assert (Hin : r ∈ listed_reads 0 calls).
    { eapply elem_of_sublist; [exact Hr | exact Hlisted]. }
    destruct (listed_reads_shape calls 0%nat r Hin) as (c & Hc & _ & Hshape).
    rewrite Nat.sub_0_r in Hc. eauto.
Qed.

Lemma C3_body_reads_witness :
  reads_of
    (@printTestRun Sample.imports Sample.terminal
       {| run_test := hasTransferServerUrl.test;
          run_result :=
            {| networkCalls :=
                 [{| request := Sample.info_request; response := None |}];
               failure := None;
               expected := VUndefined; actual := VUndefined |};
          run_suite := None |} false)
  = [].
Proof.
  apply (@C3_body_reads Sample.imports Sample.terminal
           {| run_test := hasTransferServerUrl.test;
              run_result :=
                {| networkCalls :=
                     [{| request := Sample.info_request; response := None |}];
                   failure := None;
                   expected := VUndefined; actual := VUndefined |};
              run_suite := None |} false silent).
  left. reflexivity.
Defined.

(** C3 as stated fails: in verbose mode the reporter reads the request
    body of a listed call, here as text. *)
Lemma C3_counterexample :
  reads_of
    (@printTestRun Sample.imports Sample.terminal
       {| run_test := hasTransferServerUrl.test;
          run_result :=
            {| networkCalls :=
                 [{| request := Sample.info_request; response := None |}];
               failure := None;
               expected := VUndefined; actual := VUndefined |};
          run_suite := None |} true)
  = [{| call := 0; side := OfRequest; reader := AsText |}].
Proof. vm_compute. reflexivity. Qed.

(** A body that a check has consumed makes the verbose listing reject. *)
Lemma verbose_listing_rejects_consumed_body :
  (perform
     (@printTestRun Sample.imports Sample.terminal
        {| run_test := hasTransferServerUrl.test;
           run_result :=
             {| networkCalls :=
                  [{| request :=
                        {| method := "GET"; url := "https://x/info";
                           req_headers := []; req_body := EmptyString;
                           req_bodyUsed := true |};
                      response := None |}];
                failure := None;
                expected := VUndefined; actual := VUndefined |};
           run_suite := None |} true) silent).1
  = inl (TypeError "body used already for: https://x/info").
Proof. vm_compute. reflexivity. Qed.


(** * Further properties *)

(** ** Checks that stay local *)

Lemma local_bind {A : Type} (t : Async A) :
  forall (B : Type) (f : A -> Async B) (s : Store),
    local t s -> (forall a s', local (f a) s') -> local (bind t f) s.
Proof.
  induction t as [A a|A e|A k IH|A s0 k IH|A req k IH|A t' IHt k IHk];
    intros B f s; simpl.
  - intros _ Hf. apply Hf.
  - done.
  - intros Hk Hf. by apply IH.
  - intros Hk Hf. by apply IH.
  - done.
  - done.
Qed.

Lemma local_mbind {A B : Type} (t : Async A) (f : A -> Async B) (s : Store) :
  local t s -> (forall a s', local (f a) s') -> local (t ≫= f) s.
Proof. apply local_bind. Qed.

Lemma local_fail_with r t key args s : local (fail_with r t key args) s.
Proof.
  unfold fail_with. apply local_mbind.
  - by destruct (makeFailure (mode t key) args).
  - intros f s'. by apply local_mbind.
Qed.

(** A local body ends its turn returned or thrown, the requests in flight
    as they were. *)
Lemma local_turn {A : Type} (t : Async A) :
  forall (s : Store) (fl : list InFlight),
    local t s ->
    (turn t s fl).2 = fl
    ∧ match (turn t s fl).1.1 with
      | Pending _ _ => False
      | _ => True
      end.
Proof.
  induction t as [A a|A e|A k IH|A s0 k IH|A req k IH|A t' IHt k IHk];
    intros s fl; simpl.
  - done.
  - done.
  - apply IH.
  - apply IH.
  - done.
  - done.
Qed.

Ltac local_step :=
  lazymatch goal with
  | |- local (_ ≫= _) _ => apply local_mbind; [| intros]
  | |- local (lift ?x) _ => destruct x; exact I
  | |- local (fail_with _ _ _ _) _ => apply local_fail_with
  | |- local (if ?b then _ else _) _ => destruct b
  | |- local (match ?x with _ => _ end) _ => destruct x
  | |- local _ _ => exact I
  end.

Lemma hasTransferServerUrl_local (s : Store) : local hasTransferServerUrl.run s.
Proof. unfold hasTransferServerUrl.run. repeat local_step. Qed.

Lemma discover_local (depositAssets : Value) (keys : list string) (s : Store) :
  local (containsConfiguredAssetCode.discover depositAssets keys) s.
Proof.
  revert s. induction keys as [| code rest IH]; intros s; simpl; [done |].
  repeat local_step. apply IH.
Qed.

Lemma containsConfiguredAssetCode_local `{Imports} (s : Store) :
  local containsConfiguredAssetCode.run s.
Proof.
  unfold containsConfiguredAssetCode.run.
  repeat first [ simple apply discover_local | local_step ].
Qed.

(** X1: [hasTransferServerUrl.run] and [containsConfiguredAssetCode.run]
    never touch the network.  From every store, with whatever is in their
    context, their first turn ends returned or thrown, never suspended,
    and the requests in flight are as before. *)
Theorem X1_local_checks `{Imports} (s : Store) (fl : list InFlight) :
  ((turn hasTransferServerUrl.run s fl).2 = fl
   ∧ match (turn hasTransferServerUrl.run s fl).1.1 with
     | Pending _ _ => False
     | _ => True
     end)
  ∧ ((turn containsConfiguredAssetCode.run s fl).2 = fl
     ∧ match (turn containsConfiguredAssetCode.run s fl).1.1 with
       | Pending _ _ => False
       | _ => True
       end).
Proof.
  split.
  - apply local_turn, hasTransferServerUrl_local.
  - apply local_turn, containsConfiguredAssetCode_local.
Qed.

(** ** The verdicts of [hasTransferServerUrl.run] *)

Lemma url_verdict_none (u : string) :
  url_verdict u = None
  <-> u ≠ EmptyString ∧ startsWith u "https" = true ∧ slice_last u ≠ "/".
Proof.
  unfold url_verdict.
  destruct (String.eqb_spec u EmptyString) as [-> | Hne].
  - split; [discriminate | by intros [[] _]].
  - destruct (startsWith u "https"); simpl.
    + destruct (String.eqb_spec (slice_last u) "/") as [Hs | Hs].
      * split; [discriminate | by intros (_ & _ & [])].
      * by split.
    + split; [discriminate | by intros (_ & [=] & _)].
Qed.

(** X2: for a chosen URL that is a string, [run] returns a result without
    network calls whose failure is decided by the tests in their order:
    empty gives [TRANSFER_SERVER_NOT_FOUND], otherwise a missing [https]
    prefix gives [NO_HTTPS] (also when the URL ends with a slash),
    otherwise a final slash gives [ENDS_WITH_SLASH], otherwise there is no
    failure; in every case the URL is left in the provided slot. *)
Theorem X2_url_verdict (s : Store) (fl : list InFlight)
  (tomlObj a b : Value) (u : string) :
  expects (contexts s hasTransferServerUrl_ref) !! "tomlObj" = Some tomlObj ->
  get tomlObj "TRANSFER_SERVER_SEP0024" = inr a ->
  get tomlObj "TRANSFER_SERVER" = inr b ->
  Js.or a b = VStr u ->
  exists (r : ref) (s' : Store),
    turn hasTransferServerUrl.run s fl = (Completed r, s', fl)
    ∧ results s' !! r
      = Some {| networkCalls := []; failure := url_verdict u;
                expected := VUndefined; actual := VUndefined |}
    ∧ provides (contexts s' hasTransferServerUrl_ref) !! "transferServerUrl"
      = Some (VStr u)
    ∧ (url_verdict u = None
       <-> u ≠ EmptyString ∧ startsWith u "https" = true ∧ slice_last u ≠ "/").
Proof.
  intros Hslot Ha Hb Hor.
  enough (exists (r : ref) (s' : Store),
    turn hasTransferServerUrl.run s fl = (Completed r, s', fl)
    ∧ results s' !! r
      = Some {| networkCalls := []; failure := url_verdict u;
                expected := VUndefined; actual := VUndefined |}
    ∧ provides (contexts s' hasTransferServerUrl_ref) !! "transferServerUrl"
      = Some (VStr u)) as (r & s' & Hturn & Hres & Hprov).
  { exists r, s'. repeat split; try done; by apply url_verdict_none. }
  pose proof (results_alloc empty_result s) as Halloc.
  assert (Hrun : forall o,
    turn (if negb (truthy (VStr u)) then
            fail_with (List.length (results s)) hasTransferServerUrl.test
              "TRANSFER_SERVER_NOT_FOUND" VUndefined
          else
            u' ← provides_slot hasTransferServerUrl_ref "transferServerUrl";
            https ← lift (hasTransferServerUrl.call_startsWith u' "https");
            if negb https then
              fail_with (List.length (results s)) hasTransferServerUrl.test
                "NO_HTTPS" VUndefined
            else
              u' ← provides_slot hasTransferServerUrl_ref "transferServerUrl";
              tail ← lift (hasTransferServerUrl.call_slice_last u');
              if hasTransferServerUrl.is_slash tail then
                fail_with (List.length (results s)) hasTransferServerUrl.test
                  "ENDS_WITH_SLASH" VUndefined
              else
                mret (List.length (results s)))
      (assign_provides hasTransferServerUrl_ref "transferServerUrl" (VStr u)
         (alloc empty_result s)) fl = o ->
    turn hasTransferServerUrl.run s fl = o).
  { intros o <-. unfold hasTransferServerUrl.run, hasTransferServerUrl.this.
    etransitivity; [by eapply hasTransferServerUrl_prefix |].
    rewrite Hor. reflexivity. }
  assert (Hfailed : forall f s0,
            results s0 !! List.length (results s) = Some empty_result ->
            results (update (List.length (results s)) (with_failure f) s0)
              !! List.length (results s)
            = Some {| networkCalls := []; failure := Some f;
                      expected := VUndefined; actual := VUndefined |}).
  { intros f s0 Hs0. by rewrite (results_update _ _ empty_result). }
  unfold url_verdict. simpl truthy in Hrun.
  destruct (String.eqb u EmptyString) eqn:Hempty; simpl negb in Hrun;
    cbv iota in Hrun.
  - eexists _, _. split; [| split].
    + apply Hrun, turn_fail_with, mode_TRANSFER_SERVER_NOT_FOUND.
    + apply Hfailed. rewrite results_assign_provides. exact Halloc.
    + rewrite provides_update. apply provides_assigned.
  - destruct (startsWith u "https") eqn:Hhttps; simpl negb; cbv iota.
    + destruct (String.eqb (slice_last u) "/") eqn:Hslash.
      * eexists _, _. split; [| split].
        -- apply Hrun.
           sync turn_provides_slot. rewrite provides_assigned. simpl default.
           sync by (by apply turn_lift_inr). rewrite Hhttps. simpl negb. cbv iota.
           sync turn_provides_slot. rewrite provides_assigned. simpl default.
           sync by (by apply turn_lift_inr).
           simpl hasTransferServerUrl.is_slash. rewrite Hslash.
           apply turn_fail_with, mode_ENDS_WITH_SLASH.
        -- apply Hfailed. rewrite results_assign_provides. exact Halloc.
        -- rewrite provides_update. apply provides_assigned.
      * eexists _, _. split; [| split].
        -- apply Hrun.
           sync turn_provides_slot. rewrite provides_assigned. simpl default.
           sync by (by apply turn_lift_inr). rewrite Hhttps. simpl negb. cbv iota.
           sync turn_provides_slot. rewrite provides_assigned. simpl default.
           sync by (by apply turn_lift_inr).
           simpl hasTransferServerUrl.is_slash. rewrite Hslash.
           apply turn_mret.
        -- rewrite results_assign_provides. exact Halloc.
        -- apply provides_assigned.
    + eexists _, _. split; [| split].
      * apply Hrun.
        sync turn_provides_slot. rewrite provides_assigned. simpl default.
        sync by (by apply turn_lift_inr). rewrite Hhttps. simpl negb. cbv iota.
        apply turn_fail_with, mode_NO_HTTPS.
      * apply Hfailed. rewrite results_assign_provides. exact Halloc.
      * rewrite provides_update. apply provides_assigned.
Qed.

Lemma X2_url_verdict_witness :
  exists (r : ref) (s' : Store),
    turn hasTransferServerUrl.run
      (Sample.store None hasTransferServerUrl_ref "tomlObj"
         (VObj [("TRANSFER_SERVER_SEP0024", VStr "https://x/")])) []
    = (Completed r, s', [])
    ∧ results s' !! r
      = Some {| networkCalls := [];
                failure := Some {| name := "ends with slash";
                                   message := "The transfer server URL cannot end with a '/'" |};
                expected := VUndefined; actual := VUndefined |}
    ∧ provides (contexts s' hasTransferServerUrl_ref) !! "transferServerUrl"
      = Some (VStr "https://x/")
    ∧ (url_verdict "https://x/" = None
       <-> "https://x/" ≠ EmptyString
           ∧ startsWith "https://x/" "https" = true
           ∧ slice_last "https://x/" ≠ "/").
Proof.
  apply (X2_url_verdict _ _
           (VObj [("TRANSFER_SERVER_SEP0024", VStr "https://x/")])
           (VStr "https://x/") VUndefined "https://x/");
    reflexivity.
Defined.

(** X3: a chosen URL that is truthy but not a string (a number or a table
    of the toml file) makes [run] throw a [TypeError] at [startsWith]: no
    result is returned, and the value is left in the provided slot. *)
Theorem X3_non_string_url_throws (s : Store) (fl : list InFlight)
  (tomlObj a b : Value) :
  expects (contexts s hasTransferServerUrl_ref) !! "tomlObj" = Some tomlObj ->
  get tomlObj "TRANSFER_SERVER_SEP0024" = inr a ->
  get tomlObj "TRANSFER_SERVER" = inr b ->
  truthy (Js.or a b) = true ->
  (forall u : string, Js.or a b ≠ VStr u) ->
  turn hasTransferServerUrl.run s fl
  = (Rejected
       (TypeError
          "this.context.provides.transferServerUrl.startsWith is not a function"),
     assign_provides hasTransferServerUrl_ref "transferServerUrl" (Js.or a b)
       (alloc empty_result s),
     fl).
Proof.
  intros Hslot Ha Hb Htruthy Hnot.
  unfold hasTransferServerUrl.run, hasTransferServerUrl.this.
  etransitivity; [by eapply hasTransferServerUrl_prefix |]. cbv beta.
  rewrite Htruthy. simpl negb. cbv iota.
  sync turn_provides_slot. rewrite provides_assigned. simpl default.
  apply turn_mbind_rejected, turn_lift_inl.
  destruct (Js.or a b) as [| | ? | ? | u | ? | ? | ?]; try reflexivity.
  by destruct (Hnot u).
Qed.

Lemma X3_non_string_url_throws_witness :
  turn hasTransferServerUrl.run
    (Sample.store None hasTransferServerUrl_ref "tomlObj"
       (VObj [("TRANSFER_SERVER", VNum (Finite (inject_Z 8000)))])) []
  = (Rejected
       (TypeError
          "this.context.provides.transferServerUrl.startsWith is not a function"),
     assign_provides hasTransferServerUrl_ref "transferServerUrl"
       (Js.or VUndefined (VNum (Finite (inject_Z 8000))))
       (alloc empty_result
          (Sample.store None hasTransferServerUrl_ref "tomlObj"
             (VObj [("TRANSFER_SERVER", VNum (Finite (inject_Z 8000)))]))),
     []).
Proof.
  apply (X3_non_string_url_throws _ _
           (VObj [("TRANSFER_SERVER", VNum (Finite (inject_Z 8000)))])
           VUndefined (VNum (Finite (inject_Z 8000)))).
  - reflexivity.
  - reflexivity.
  - reflexivity.
  - reflexivity.
  - intros u. discriminate.
Defined.

(** ** The verdicts of [containsConfiguredAssetCode.run] for a configured code *)

Lemma mode_CONFIGURED_ASSET_CODE_NOT_FOUND `{Imports} (code : string) :
  genericFailures !! "CONFIGURED_ASSET_CODE_NOT_FOUND" = None ->
  makeFailure
    (mode containsConfiguredAssetCode.test "CONFIGURED_ASSET_CODE_NOT_FOUND")
    (VObj [("assetCode", VStr code)])
  = inr {| name := "configured asset code not found";
           message := code +:+ " is not present in the /info response" |}.
Proof.
  intros Hfree. unfold mode, containsConfiguredAssetCode.test. simpl failureModes.
  rewrite lookup_spread, Hfree. reflexivity.
Qed.

Lemma mode_CONFIGURED_ASSET_CODE_NOT_ENABLED `{Imports} (code : string) :
  genericFailures !! "CONFIGURED_ASSET_CODE_NOT_ENABLED" = None ->
  makeFailure
    (mode containsConfiguredAssetCode.test "CONFIGURED_ASSET_CODE_NOT_ENABLED")
    (VObj [("assetCode", VStr code)])
  = inr {| name := "configured asset code not enabled";
           message := code +:+ " is not enabled for SEP-24" |}.
Proof.
  intros Hfree. unfold mode, containsConfiguredAssetCode.test. simpl failureModes.
  rewrite lookup_spread, Hfree. reflexivity.
Qed.

Lemma absent_or_empty_false (code : string) :
  code ≠ EmptyString -> absent_or_empty (Some code) = false.
Proof.
  intros Hne. unfold absent_or_empty. simpl.
  by destruct (String.eqb_spec code EmptyString).
Qed.

(** The members of [Object.prototype] are truthy and have no [enabled]. *)
Lemma Object_prototype_member (code : string) (m : Value) :
  own_lookup code Object_prototype = Some m ->
  truthy m = true ∧ get m "enabled" = inr VUndefined.
Proof.
  unfold Object_prototype. simpl.
  repeat match goal with
         | |- context [String.eqb code ?k] =>
             destruct (String.eqb code k); [by intros [= <-] |]
         end.
  done.
Qed.

Lemma truthy_defined (v : Value) :
  truthy v = true -> v ≠ VUndefined ∧ v ≠ VNull.
Proof. by destruct v. Qed.

(** X4: with a non-empty [config.assetCode] and an object as the deposit
    section, [run] leaves the configuration alone and returns a result
    without network calls.  Its failure is
    [CONFIGURED_ASSET_CODE_NOT_FOUND] when the section has no entry for the
    code or a falsy one, [CONFIGURED_ASSET_CODE_NOT_ENABLED] when the
    entry's [enabled] is falsy, and none when it is truthy; both messages
    start with the code.  A code without an entry that names a member of
    [Object.prototype] ([constructor], [toString], ...) finds that member
    and is reported as not enabled. *)
Theorem X4_configured_asset_code `{Imports} (s : Store) (fl : list InFlight)
  (infoObj : Value) (props : list (string * Value)) (code : string) :
  assetCode (config s) = Some code ->
  code ≠ EmptyString ->
  expects (contexts s containsConfiguredAssetCode_ref) !! "infoObj" = Some infoObj ->
  get infoObj "deposit" = inr (VObj props) ->
  genericFailures !! "CONFIGURED_ASSET_CODE_NOT_FOUND" = None ->
  genericFailures !! "CONFIGURED_ASSET_CODE_NOT_ENABLED" = None ->
  exists (r : ref) (s' : Store),
    turn containsConfiguredAssetCode.run s fl = (Completed r, s', fl)
    ∧ config s' = config s
    ∧ results s' !! r
      = Some {| networkCalls := []; failure := configured_verdict code props;
                expected := VUndefined; actual := VUndefined |}.
Proof.
  intros Hcode Hne Hslot Hdeposit Hfree1 Hfree2.
  pose proof (results_alloc empty_result s) as Halloc.
  assert (Hrun : forall o,
    turn (entry ← lift (getV (VObj props) code);
          if negb (truthy entry) then
            fail_with (List.length (results s)) containsConfiguredAssetCode.test
              "CONFIGURED_ASSET_CODE_NOT_FOUND" (VObj [("assetCode", VStr code)])
          else
            entry ← lift (getV (VObj props) code);
            enabled ← lift (get entry "enabled");
            if negb (truthy enabled) then
              fail_with (List.length (results s)) containsConfiguredAssetCode.test
                "CONFIGURED_ASSET_CODE_NOT_ENABLED" (VObj [("assetCode", VStr code)])
            else mret (List.length (results s)))
      (alloc empty_result s) fl = o ->
    turn containsConfiguredAssetCode.run s fl = o).
  { intros o <-.
    unfold containsConfiguredAssetCode.run, containsConfiguredAssetCode.this.
    sync turn_new_result. sync turn_expects_slot.
    change (contexts (alloc empty_result s)) with (contexts s).
    rewrite Hslot. simpl default.
    sync by (by apply turn_lift_inr). sync turn_config_assetCode.
    change (config (alloc empty_result s)) with (config s).
    rewrite Hcode, (absent_or_empty_false code Hne). reflexivity. }
  assert (Hverdict : forall entry enabled,
    getV (VObj props) code = inr entry ->
    (truthy entry = true -> get entry "enabled" = inr enabled) ->
    exists (r : ref) (s' : Store),
      turn containsConfiguredAssetCode.run s fl = (Completed r, s', fl)
      ∧ config s' = config s
      ∧ results s' !! r
        = Some {| networkCalls := [];
                  failure :=
                    if negb (truthy entry) then
                      Some {| name := "configured asset code not found";
                              message := code +:+ " is not present in the /info response" |}
                    else if negb (truthy enabled) then
                      Some {| name := "configured asset code not enabled";
                              message := code +:+ " is not enabled for SEP-24" |}
                    else None;
                  expected := VUndefined; actual := VUndefined |}).
  { intros entry enabled Hentry Henabled.
    destruct (truthy entry) eqn:Htruthy; simpl negb; cbv iota.
    - specialize (Henabled eq_refl).
      destruct (truthy enabled) eqn:Hen; simpl negb; cbv iota.
      + eexists _, _. split; [| split].
        * apply Hrun. sync by (by apply turn_lift_inr).
          rewrite Htruthy. simpl negb. cbv iota.
          sync by (by apply turn_lift_inr).
          sync by (by apply turn_lift_inr). rewrite Hen. apply turn_mret.
        * reflexivity.
        * exact Halloc.
      + eexists _, _. split; [| split].
        * apply Hrun. sync by (by apply turn_lift_inr).
          rewrite Htruthy. simpl negb. cbv iota.
          sync by (by apply turn_lift_inr).
          sync by (by apply turn_lift_inr). rewrite Hen. simpl negb. cbv iota.
          by apply turn_fail_with, mode_CONFIGURED_ASSET_CODE_NOT_ENABLED.
        * reflexivity.
        * by rewrite (results_update _ _ empty_result).
    - eexists _, _. split; [| split].
      + apply Hrun. sync by (by apply turn_lift_inr).
        rewrite Htruthy. simpl negb. cbv iota.
        by apply turn_fail_with, mode_CONFIGURED_ASSET_CODE_NOT_FOUND.
      + reflexivity.
      + by rewrite (results_update _ _ empty_result). }
  unfold configured_verdict, enabled_at. cbv zeta. simpl get.
  destruct (own_lookup code props) as [entry |] eqn:Hentry; simpl or_undefined.
  - destruct (truthy entry) eqn:Htruthy.
    + destruct (truthy_defined entry Htruthy) as [Hu Hn].
      destruct (get_defined entry "enabled" Hu Hn) as [enabled Hen].
      destruct (Hverdict entry enabled) as (r & s' & Hturn & Hconfig & Hres).
      { unfold getV, GetV. by rewrite Hentry. }
      { done. }
      exists r, s'. rewrite Hturn, Hconfig, Hres, Htruthy, Hen. simpl negb.
      by destruct (truthy enabled).
    + destruct (Hverdict entry VUndefined) as (r & s' & Hturn & Hconfig & Hres).
      { unfold getV, GetV. by rewrite Hentry. }
      { congruence. }
      exists r, s'. by rewrite Hturn, Hconfig, Hres, Htruthy.
  - destruct (own_lookup code Object_prototype) as [m |] eqn:Hm.
    + destruct (Object_prototype_member code m Hm) as [Htruthy Hen].
      destruct (Hverdict m VUndefined) as (r & s' & Hturn & Hconfig & Hres).
      { unfold getV, GetV. by rewrite Hentry, Hm. }
      { done. }
      exists r, s'. by rewrite Hturn, Hconfig, Hres, Htruthy.
    + destruct (Hverdict VUndefined VUndefined)
        as (r & s' & Hturn & Hconfig & Hres).
      { unfold getV, GetV. by rewrite Hentry, Hm. }
      { done. }
      exists r, s'. by rewrite Hturn, Hconfig, Hres.
Qed.

Lemma X4_configured_asset_code_witness :
  exists (r : ref) (s' : Store),
    turn (@containsConfiguredAssetCode.run Sample.imports)
      (Sample.store (Some "constructor") containsConfiguredAssetCode_ref "infoObj"
         (VObj [("deposit",
                 VObj [("USD", VObj [("enabled", VBool true)])])])) []
    = (Completed r, s', [])
    ∧ config s'
      = config
          (Sample.store (Some "constructor") containsConfiguredAssetCode_ref
             "infoObj"
             (VObj [("deposit",
                     VObj [("USD", VObj [("enabled", VBool true)])])]))
    ∧ results s' !! r
      = Some {| networkCalls := [];
                failure := Some {| name := "configured asset code not enabled";
                                   message := "constructor is not enabled for SEP-24" |};
                expected := VUndefined; actual := VUndefined |}.
Proof.
  apply (@X4_configured_asset_code Sample.imports _ []
           (VObj [("deposit", VObj [("USD", VObj [("enabled", VBool true)])])])
           [("USD", VObj [("enabled", VBool true)])] "constructor").
  - reflexivity.
  - discriminate.
  - reflexivity.
  - reflexivity.
  - vm_compute. reflexivity.
  - vm_compute. reflexivity.
Defined.

(** X5: when the [/info] object has no deposit section ([deposit] is
    [undefined] or [null]), [run] reports [NO_ASSET_CODES] if no asset code
    is configured, and throws a [TypeError] if one is: the configured code
    is looked up in a section that is not there. *)
Theorem X5_missing_deposit_section `{Imports} (s : Store) (fl : list InFlight)
  (infoObj depositAssets : Value) :
  expects (contexts s containsConfiguredAssetCode_ref) !! "infoObj" = Some infoObj ->
  get infoObj "deposit" = inr depositAssets ->
  depositAssets = VUndefined ∨ depositAssets = VNull ->
  genericFailures !! "NO_ASSET_CODES" = None ->
  if absent_or_empty (assetCode (config s))
  then
    exists (r : ref) (s' : Store),
      turn containsConfiguredAssetCode.run s fl = (Completed r, s', fl)
      ∧ config s' = config s
      ∧ results s' !! r
        = Some {| networkCalls := [];
                  failure := Some {| name := "no enabled assets";
                                     message := "There are no enabled assets in the /info response" |};
                  expected := VUndefined; actual := VUndefined |}
  else
    exists (msg : string),
      turn containsConfiguredAssetCode.run s fl
      = (Rejected (TypeError msg), alloc empty_result s, fl).
Proof.
  intros Hslot Hdeposit Hmissing Hfree.
  pose proof (results_alloc empty_result s) as Halloc.
  assert (Hrun : forall o,
    turn (if absent_or_empty (assetCode (config s)) then
            containsConfiguredAssetCode.discover depositAssets
              (forin_keys depositAssets);;
            code ← config_assetCode;
            if absent_or_empty code then
              fail_with (List.length (results s)) containsConfiguredAssetCode.test
                "NO_ASSET_CODES" VUndefined
            else mret (List.length (results s))
          else
            entry ← lift (getV depositAssets
                             (default EmptyString (assetCode (config s))));
            mret (List.length (results s)))
      (alloc empty_result s) fl = o ->
    absent_or_empty (assetCode (config s)) = true
    ∨ (exists e, getV depositAssets (default EmptyString (assetCode (config s)))
                 = inl e) ->
    turn containsConfiguredAssetCode.run s fl = o).
  { intros o <- Hcase.
    unfold containsConfiguredAssetCode.run, containsConfiguredAssetCode.this.
    sync turn_new_result. sync turn_expects_slot.
    change (contexts (alloc empty_result s)) with (contexts s).
    rewrite Hslot. simpl default.
    sync by (by apply turn_lift_inr). sync turn_config_assetCode.
    change (config (alloc empty_result s)) with (config s).
    destruct (absent_or_empty (assetCode (config s))); [reflexivity |].
    destruct Hcase as [[=] | [e He]].
    rewrite !(turn_mbind_rejected _ _ _ _ e (alloc empty_result s) fl);
      try reflexivity; by apply turn_lift_inl. }
  destruct (absent_or_empty (assetCode (config s))) eqn:Habsent.
  - eexists _, _. split; [| split].
    + apply Hrun; [| by left].
      assert (Hkeys : forin_keys depositAssets = []) by (by destruct Hmissing as [-> | ->]).
      rewrite Hkeys. simpl containsConfiguredAssetCode.discover.
      sync by (apply turn_mret). sync turn_config_assetCode.
      change (config (alloc empty_result s)) with (config s). rewrite Habsent.
      by apply turn_fail_with, mode_NO_ASSET_CODES.
    + reflexivity.
    + by rewrite (results_update _ _ empty_result).
  - assert (Hthrow : exists msg,
              getV depositAssets (default EmptyString (assetCode (config s)))
              = inl (TypeError msg)).
    { destruct Hmissing as [-> | ->]; simpl; eauto. }
    destruct Hthrow as [msg Hmsg]. exists msg.
    apply Hrun; [| right; eauto].
    by apply turn_mbind_rejected, turn_lift_inl.
Qed.

Lemma X5_missing_deposit_section_witness :
  exists (msg : string),
    turn (@containsConfiguredAssetCode.run Sample.imports)
      (Sample.store (Some "USD") containsConfiguredAssetCode_ref "infoObj"
         (VObj [("withdraw", VObj [])])) []
    = (Rejected (TypeError msg),
       alloc empty_result
         (Sample.store (Some "USD") containsConfiguredAssetCode_ref "infoObj"
            (VObj [("withdraw", VObj [])])),
       []).
Proof.
  apply (@X5_missing_deposit_section Sample.imports
           (Sample.store (Some "USD") containsConfiguredAssetCode_ref "infoObj"
              (VObj [("withdraw", VObj [])]))
           [] (VObj [("withdraw", VObj [])]) VUndefined).
  - reflexivity.
  - reflexivity.
  - left. reflexivity.
  - vm_compute. reflexivity.
Defined.

(** ** What the checks write *)

Lemma every_put_modify_gen (R : Store -> Store -> Prop) (f : Store -> Store) s
  (Q : unit -> Store -> Prop) :
  R s (f s) -> Q tt (f s) -> every_put R (modify f) s Q.
Proof. intros HR HQ. simpl. auto. Qed.

Lemma every_put_new_result_gen (R : Store -> Store -> Prop) s
  (Q : ref -> Store -> Prop) :
  R s (alloc empty_result s) ->
  Q (List.length (results s)) (alloc empty_result s) ->
  every_put R new_result s Q.
Proof. intros HR HQ. simpl. auto. Qed.

Lemma every_put_fail_with_gen (R : Store -> Store -> Prop) r t key args s :
  (forall f, R s (update r (with_failure f) s)) ->
  every_put R (fail_with r t key args) s (fun _ _ => True).
Proof.
  intros HR. unfold fail_with. apply every_put_mbind, every_put_lift.
  intros f _. apply every_put_mbind, every_put_modify_gen; [apply HR | done].
Qed.

Lemma every_put_makeRequest_gen `{Imports} (R : Store -> Store -> Prop)
  call expectedStatus r contentType s (Q : Value -> Store -> Prop) :
  (forall s2 g, R s2 (update r g s2)) ->
  (forall v s', Q v s') ->
  every_put R (makeRequest call expectedStatus r contentType) s Q.
Proof.
  intros HR HQ. unfold makeRequest. apply every_put_mbind, every_put_fetch.
  intros answer s2. destruct answer as [| resp].
  - apply every_put_mbind, every_put_modify_gen; [apply HR | apply HQ].
  - destruct (negb (status resp =? expectedStatus)).
    + apply every_put_mbind, every_put_modify_gen; [apply HR | apply HQ].
    + destruct (decode_body contentType (resp_body resp)).
      * apply every_put_mbind, every_put_modify_gen; [apply HR | apply HQ].
      * apply every_put_mbind, every_put_modify_gen; [apply HR | apply HQ].
Qed.

Lemma every_put_discover_gen (R : Store -> Store -> Prop)
  (depositAssets : Value) (keys : list string) s (Q : unit -> Store -> Prop) :
  (forall code s', R s' (assign_assetCode code s')) ->
  (forall s', Q tt s') ->
  every_put R (containsConfiguredAssetCode.discover depositAssets keys) s Q.
Proof.
  intros HR HQ. induction keys as [| code rest IH]; simpl.
  - apply HQ.
  - apply every_put_mbind, every_put_lift. intros entry _.
    apply every_put_mbind, every_put_lift. intros enabled _.
    destruct (truthy enabled); [| exact IH].
    apply every_put_modify_gen; [apply HR | apply HQ].
Qed.

(** Walks through a body; [tac] shows that an assignment is allowed. *)
Ltac writes_step tac :=
  lazymatch goal with
  | |- True => exact I
  | |- every_put _ (_ ≫= _) _ _ => apply every_put_mbind
  | |- every_put _ (fail_with _ _ _ _) _ _ =>
      apply every_put_fail_with_gen; intros; tac
  | |- every_put _ new_result _ _ => apply every_put_new_result_gen; [tac |]
  | |- every_put _ (set_provides _ _ _) _ _ =>
      apply every_put_modify_gen; [tac |]
  | |- every_put _ (set_failure _ _) _ _ =>
      apply every_put_modify_gen; [tac |]
  | |- every_put _ (push_call _ _) _ _ =>
      apply every_put_modify_gen; [tac |]
  | |- every_put _ (set_config_assetCode _) _ _ =>
      apply every_put_modify_gen; [tac |]
  | |- every_put _ (expects_slot _ _) _ _ => apply every_put_gets
  | |- every_put _ (provides_slot _ _) _ _ => apply every_put_gets
  | |- every_put _ (read_result _) _ _ => apply every_put_gets
  | |- every_put _ config_assetCode _ _ => apply every_put_gets
  | |- every_put _ (mret _) _ _ => apply every_put_mret
  | |- every_put _ (lift _) _ _ => apply every_put_lift; intros
  | |- every_put _ (makeRequest _ _ _ _) _ _ =>
      apply every_put_makeRequest_gen; [intros; tac | intros]
  | |- every_put _ (containsConfiguredAssetCode.discover _ _) _ _ =>
      apply every_put_discover_gen; [intros; tac | intros]
  | |- every_put _ (spawn _) _ _ => apply every_put_spawn; [| intros]
  | |- every_put _ (if ?b then _ else _) _ _ => destruct b
  | |- every_put _ (match ?x with _ => _ end) _ _ => destruct x
  | |- _ => progress cbv beta
  end.

Ltac writes tac := repeat writes_step tac.

(** A body whose assignments all satisfy [R], run to its end against any
    network, takes the store to one related by [R], and leaves in flight
    only bodies whose assignments satisfy [R]. *)
Lemma every_put_finish (R : Store -> Store -> Prop)
  (net : Request -> FetchResult) :
  (forall s, R s s) ->
  (forall s1 s2 s3, R s1 s2 -> R s2 s3 -> R s1 s3) ->
  forall (A : Type) (t : Async A) (s : Store) (fl : list InFlight)
         (Q : A -> Store -> Prop),
    every_put R t s Q ->
    Forall (fun p => forall r s2, every_put R (resume p r) s2 (fun _ _ => True)) fl ->
    R s (finish net t s fl).1.2
    ∧ Forall (fun p => forall r s2, every_put R (resume p r) s2 (fun _ _ => True))
        (finish net t s fl).2.
Proof.
  intros Hrefl Htrans A t.
  induction t as [A a|A e|A k IH|A s0 k IH|A req k IH|A t' _ k IHk];
    intros s fl Q; simpl.
  - intros _ Hfl. done.
  - intros _ Hfl. done.
  - apply IH.
  - intros [HR Hk] Hfl. destruct (IH s0 fl Q Hk Hfl) as [H1 H2].
    split; [by eapply Htrans | done].
  - intros Hk Hfl. apply (IH (net req) s fl Q (Hk (net req) s) Hfl).
  - intros [Ht Hk] Hfl.
    destruct (every_put_turn R Hrefl Htrans _ t' s fl _ Ht Hfl) as (H1 & H2 & H3).
    destruct (turn t' s fl) as [[o s1] fl1]. simpl in H1, H2, H3.
    match goal with |- context [finish net k s1 ?fl2] =>
      assert (Hfl2 : Forall (fun p => forall r s2,
                 every_put R (resume p r) s2 (fun _ _ => True)) fl2)
    end.
    { destruct o; try done. apply Forall_app. split; [done |].
      apply Forall_singleton. simpl. exact H3. }
    match goal with |- context [finish net k s1 ?fl2] =>
      destruct (IHk s1 fl2 Q (Hk s1) Hfl2) as [H4 H5]
    end.
    split; [by eapply Htrans | done].
Qed.

(** *** Results of earlier checks *)

Lemma kept_same (n : nat) (s s' : Store) :
  results s' = results s -> older_results_kept n s s'.
Proof. intros Hsame i _. by rewrite Hsame. Qed.

Lemma kept_alloc (n : nat) (x : Result) (s : Store) :
  (n <= List.length (results s))%nat -> older_results_kept n s (alloc x s).
Proof. intros Hn i Hi. unfold alloc. simpl. apply lookup_app_l. lia. Qed.

Lemma kept_update (n : nat) (r : ref) (g : Result -> Result) (s : Store) :
  (n <= r)%nat -> older_results_kept n s (update r g s).
Proof.
  intros Hn i Hi. unfold update. simpl.
  destruct (results s !! r); [| done].
  apply list_lookup_insert_ne. lia.
Qed.

Lemma kept_refl (n : nat) (s : Store) : older_results_kept n s s.
Proof. by intros i _. Qed.

Lemma kept_trans (n : nat) (s1 s2 s3 : Store) :
  older_results_kept n s1 s2 -> older_results_kept n s2 s3 ->
  older_results_kept n s1 s3.
Proof. intros H12 H23 i Hi. rewrite (H23 i Hi). by apply H12. Qed.

Ltac kept :=
  first [ apply kept_update; lia
        | apply kept_alloc; lia
        | apply kept_same; reflexivity ].

Lemma run_keeps_older_results `{Imports} (t : TestId) (body : Async ref)
  (s : Store) :
  run_of t = Some body ->
  every_put (older_results_kept (List.length (results s))) body s
            (fun _ _ => True).
Proof.
  intros Hrun.
  destruct t; simpl in Hrun; try discriminate; injection Hrun as <-.
  - unfold hasTransferServerUrl.run. writes kept.
  - unfold isCompliantWithSchema.run. writes kept.
  - unfold containsConfiguredAssetCode.run. writes kept.
  - unfold depositRequiresToken.run. writes kept.
Qed.

(** X6: a [run] of the suite never changes a [Result] object that was
    allocated before it started.  None of its assignments does, before or
    after it has waited for an answer, whatever the answer and whatever the
    store is by then; so the older results are as they were when [run] has
    run to its end against any network, at the end of its first turn, and
    after the answer to a request it left in flight is delivered. *)
Theorem X6_older_results_untouched `{Imports} (t : TestId) (body : Async ref)
  (s : Store) :
  run_of t = Some body ->
  let n := List.length (results s) in
  every_put (older_results_kept n) body s (fun _ _ => True)
  ∧ (forall (net : Request -> FetchResult) (i : nat),
       (i < n)%nat ->
       results (finish net body s []).1.2 !! i = results s !! i)
  ∧ (forall (fl : list InFlight) (i : nat),
       (i < n)%nat ->
       results (turn body s fl).1.2 !! i = results s !! i)
  ∧ (forall (net : Request -> FetchResult) (p : InFlight)
            (answer : FetchResult) (s2 : Store) (i : nat),
       p ∈ (turn body s []).2 ∨ p ∈ (finish net body s []).2 ->
       (i < n)%nat ->
       results (deliver p answer s2 []).1.2 !! i = results s2 !! i).
Proof.
  intros Hrun n.
  pose proof (run_keeps_older_results t body s Hrun) as Hbody.
  fold n in Hbody.
  pose proof (every_put_turn (older_results_kept n) (kept_refl n) (kept_trans n)
                _ body s [] _ Hbody (Forall_nil_2 _)) as (Hstore & Hleft & _).
  split; [exact Hbody |]. split; [| split].
  - intros net i Hi.
    by apply (every_put_finish (older_results_kept n) net (kept_refl n)
                (kept_trans n) _ body s [] _ Hbody (Forall_nil_2 _)).
  - intros fl i Hi. rewrite turn_inflight. simpl. by apply Hstore.
  - intros net p answer s2 i Hp Hi.
    assert (Hresume : every_put (older_results_kept n) (resume p answer) s2
                        (fun _ _ => True)).
    { destruct Hp as [Hp | Hp].
      - rewrite Forall_forall in Hleft. by apply Hleft.
      - destruct (every_put_finish (older_results_kept n) net (kept_refl n)
                    (kept_trans n) _ body s [] _ Hbody (Forall_nil_2 _))
          as [_ Hfinished].
        rewrite Forall_forall in Hfinished. by apply Hfinished. }
    unfold deliver.
    by apply (every_put_turn (older_results_kept n) (kept_refl n) (kept_trans n)
                _ (resume p answer) s2 [] _ Hresume (Forall_nil_2 _)).
Qed.

Lemma X6_older_results_untouched_witness :
  results
    (finish
       (fun _ => Responded {| resp_url := "https://x/info"; status := 404;
                              resp_headers := []; resp_body := EmptyString;
                              resp_bodyUsed := false |})
       (@isCompliantWithSchema.run Sample.imports)
       {| config := {| assetCode := Some "USD"; otherFields := ∅ |};
          contexts := fun _ => Sample.no_context;
          results := [with_failure (Sample.problem_failure UnparsableBody)
                        empty_result] |} []).1.2 !! 0%nat
  = Some (with_failure (Sample.problem_failure UnparsableBody) empty_result).
Proof.
  destruct (@X6_older_results_untouched Sample.imports isCompliantWithSchema_ref
              (@isCompliantWithSchema.run Sample.imports)
              {| config := {| assetCode := Some "USD"; otherFields := ∅ |};
                 contexts := fun _ => Sample.no_context;
                 results := [with_failure (Sample.problem_failure UnparsableBody)
                               empty_result] |} eq_refl)
    as (_ & Hfinish & _).
  apply Hfinish. simpl. lia.
Defined.

(** *** The contexts *)

Lemma context_same (this : TestId) (slots : list string) (s s' : Store) :
  contexts s' = contexts s -> context_kept this slots s s'.
Proof. intros Hsame t. rewrite Hsame. split; [done | by right]. Qed.

Lemma context_provides (this : TestId) (slots : list string) (slot : string)
  (v : Value) (s : Store) :
  slot ∈ slots -> context_kept this slots s (assign_provides this slot v s).
Proof.
  intros Hslot t. unfold assign_provides. simpl.
  destruct (decide (t = this)) as [-> | Hne]; simpl.
  - split; [done |]. intros k.
    destruct (decide (k = slot)) as [-> | Hk]; [by left | right].
    by apply lookup_insert_ne.
  - split; [done | by right].
Qed.

Lemma context_refl (this : TestId) (slots : list string) (s : Store) :
  context_kept this slots s s.
Proof. by apply context_same. Qed.

Lemma context_trans (this : TestId) (slots : list string) (s1 s2 s3 : Store) :
  context_kept this slots s1 s2 -> context_kept this slots s2 s3 ->
  context_kept this slots s1 s3.
Proof.
  intros H12 H23 t. destruct (H12 t) as [He12 Hp12], (H23 t) as [He23 Hp23].
  split; [congruence |]. intros k.
  destruct (Hp12 k) as [? | Hk12]; [by left |].
  destruct (Hp23 k) as [? | Hk23]; [by left |].
  right. congruence.
Qed.

Ltac context_ok :=
  first [ apply context_provides; apply list_elem_of_here
        | apply context_same; reflexivity ].

Lemma run_keeps_contexts `{Imports} (t : TestId) (body : Async ref) (s : Store) :
  run_of t = Some body ->
  every_put (context_kept t (declared_provides t)) body s (fun _ _ => True).
Proof.
  intros Hrun.
  destruct t; simpl in Hrun; try discriminate; injection Hrun as <-;
    simpl declared_provides.
  - unfold hasTransferServerUrl.run, hasTransferServerUrl.this.
    writes context_ok.
  - unfold isCompliantWithSchema.run, isCompliantWithSchema.this.
    writes context_ok.
  - unfold containsConfiguredAssetCode.run, containsConfiguredAssetCode.this.
    writes context_ok.
  - unfold depositRequiresToken.run, depositRequiresToken.this.
    writes context_ok.
Qed.

(** X7: a [run] of the suite writes to the contexts only what its test
    declares in [context.provides]: no assignment of it, before or after
    it has waited for an answer, touches an expected slot, a slot of
    another test, or a provided slot of its own that is not declared
    ([hasTransferServerUrl]: [transferServerUrl]; [isCompliantWithSchema]:
    [infoObj]; the other two: nothing).  So it is when [run] has run to its
    end against any network, at the end of its first turn, and after an
    answer is delivered later. *)
Theorem X7_contexts_written `{Imports} (t : TestId) (body : Async ref)
  (s : Store) :
  run_of t = Some body ->
  let R := context_kept t (declared_provides t) in
  every_put R body s (fun _ _ => True)
  ∧ (forall net : Request -> FetchResult, R s (finish net body s []).1.2)
  ∧ (forall fl : list InFlight, R s (turn body s fl).1.2)
  ∧ (forall (net : Request -> FetchResult) (p : InFlight)
            (answer : FetchResult) (s2 : Store),
       p ∈ (turn body s []).2 ∨ p ∈ (finish net body s []).2 ->
       R s2 (deliver p answer s2 []).1.2).
Proof.
  intros Hrun R.
  pose proof (run_keeps_contexts t body s Hrun) as Hbody. fold R in Hbody.
  pose proof (every_put_turn R (context_refl _ _) (context_trans _ _)
                _ body s [] _ Hbody (Forall_nil_2 _)) as (Hstore & Hleft & _).
  split; [exact Hbody |]. split; [| split].
  - intros net.
    by apply (every_put_finish R net (context_refl _ _) (context_trans _ _)
                _ body s [] _ Hbody (Forall_nil_2 _)).
  - intros fl. rewrite turn_inflight. simpl. exact Hstore.
  - intros net p answer s2 Hp.
    assert (Hresume : every_put R (resume p answer) s2 (fun _ _ => True)).
    { destruct Hp as [Hp | Hp].
      - rewrite Forall_forall in Hleft. by apply Hleft.
      - destruct (every_put_finish R net (context_refl _ _) (context_trans _ _)
                    _ body s [] _ Hbody (Forall_nil_2 _)) as [_ Hfinished].
        rewrite Forall_forall in Hfinished. by apply Hfinished. }
    unfold deliver.
    by apply (every_put_turn R (context_refl _ _) (context_trans _ _)
                _ (resume p answer) s2 [] _ Hresume (Forall_nil_2 _)).
Qed.

Lemma X7_contexts_written_witness :
  context_kept isCompliantWithSchema_ref ["infoObj"]
    (Sample.store None isCompliantWithSchema_ref "transferServerUrl"
       (VStr "https://x"))
    (finish
       (fun _ => Responded {| resp_url := "https://x/info"; status := 200;
                              resp_headers := []; resp_body := "{}";
                              resp_bodyUsed := false |})
       (@isCompliantWithSchema.run Sample.imports)
       (Sample.store None isCompliantWithSchema_ref "transferServerUrl"
          (VStr "https://x")) []).1.2.
Proof.
  destruct (@X7_contexts_written Sample.imports isCompliantWithSchema_ref
              (@isCompliantWithSchema.run Sample.imports)
              (Sample.store None isCompliantWithSchema_ref "transferServerUrl"
                 (VStr "https://x")) eq_refl)
    as (_ & Hfinish & _).
  apply Hfinish.
Defined.

(** X8: every slot that a test of the suite declares in [context.expects]
    is declared in [context.provides] by one of its declared dependencies:
    [tomlObj] is left to [tomlExists], and each other slot has exactly one
    provider among the tests of the list, which is a dependency of every
    test that expects it. *)
Theorem X8_expected_slots_provided `{Imports} (t : TestId) (slot : string) :
  t ∈ tests ->
  slot ∈ declared_expects t ->
  (slot = "tomlObj" ∧ tomlExists_ref ∈ dependencies (test_of t))
  ∨ (exists d : TestId,
       d ∈ dependencies (test_of t)
       ∧ d ∈ tests
       ∧ slot ∈ declared_provides d
       ∧ forall d' : TestId,
           d' ∈ tests -> slot ∈ declared_provides d' -> d' = d).
Proof.
  intros Hin Hslot.
  assert (Hunique : forall (d d' : TestId) (k : string),
            k ∈ declared_provides d -> k ∈ declared_provides d' -> d' = d).
  { intros d d' k Hd Hd'.
    destruct d; simpl in Hd;
      repeat (apply elem_of_cons in Hd as [-> | Hd]);
      try (by apply elem_of_nil in Hd);
      destruct d'; simpl in Hd';
      repeat (apply elem_of_cons in Hd' as [[=] | Hd']);
      try (by apply elem_of_nil in Hd'); reflexivity. }
  apply in_tests_position in Hin as [i Hi].
  destruct t; simpl in Hi; try discriminate; simpl in Hslot;
    repeat (apply elem_of_cons in Hslot as [-> | Hslot]);
    try (by apply elem_of_nil in Hslot).
  - left. split; [done |]. simpl. apply list_elem_of_here.
  - right. exists hasTransferServerUrl_ref. simpl.
    split; [apply list_elem_of_further, list_elem_of_here |].
    split; [by apply in_tests_position |].
    split; [apply list_elem_of_here |].
    intros d' _ Hd'. eapply Hunique; [| exact Hd']. apply list_elem_of_here.
  - right. exists isCompliantWithSchema_ref. simpl.
    split; [apply list_elem_of_further, list_elem_of_here |].
    split; [by apply in_tests_position |].
    split; [apply list_elem_of_here |].
    intros d' _ Hd'. eapply Hunique; [| exact Hd']. apply list_elem_of_here.
  - right. exists hasTransferServerUrl_ref. simpl.
    split; [apply list_elem_of_here |].
    split; [by apply in_tests_position |].
    split; [apply list_elem_of_here |].
    intros d' _ Hd'. eapply Hunique; [| exact Hd']. apply list_elem_of_here.
Qed.

Lemma X8_expected_slots_provided_witness :
  exists d : TestId,
    d ∈ dependencies (@test_of Sample.imports containsConfiguredAssetCode_ref)
    ∧ d ∈ tests
    ∧ "infoObj" ∈ declared_provides d.
Proof.
  destruct (@X8_expected_slots_provided Sample.imports
              containsConfiguredAssetCode_ref "infoObj")
    as [[[=] _] | (d & Hdep & Hin & Hprov & _)].
  - apply in_tests_position. by eexists.
  - apply list_elem_of_here.
  - exists d. by repeat split.
Defined.

(** ** [isCompliantWithSchema.run] *)


Lemma turn_makeRequest_answered `{Imports} call expectedStatus r contentType s fl :
  exists k,
    turn (makeRequest call expectedStatus r contentType) s fl
    = (Pending (request call) k, s, fl)
    ∧ forall resp v s2 fl2,
        status resp = expectedStatus ->
        decode_body contentType (resp_body resp) = Some v ->
        turn (k (Responded resp)) s2 fl2
        = (Completed v,
           update r (with_call {| request := request call;
                                  response := Some resp |}) s2,
           fl2).
Proof.
  eexists. split.
  - unfold makeRequest, mbind, Async_bind. rewrite turn_bind. simpl. reflexivity.
  - intros resp v s2 fl2 Hstatus Hbody. simpl.
    apply Z.eqb_eq in Hstatus. rewrite Hstatus, Hbody. simpl.
    reflexivity.
Qed.

Lemma mode_INVALID_SCHEMA `{Imports} (errors : string) :
  genericFailures !! "INVALID_SCHEMA" = None ->
  makeFailure (mode isCompliantWithSchema.test "INVALID_SCHEMA")
    (VObj [("errors", VStr errors)])
  = inr {| name := "invalid schema";
           message :=
             "The response body returned does not comply with the schema defined for the /info endpoint:"
             +:+ nl +:+ nl +:+
             "https://github.com/stellar/stellar-protocol/blob/master/ecosystem/sep-0024.md#info"
             +:+ nl +:+ nl +:+
             "The errors returned from the schema validation:"
             +:+ nl +:+ nl +:+ errors |}.
Proof.
  intros Hfree. unfold mode, isCompliantWithSchema.test. simpl failureModes.
  rewrite lookup_spread, Hfree. reflexivity.
Qed.

(** X10: when the server answers the [/info] request with status 200 and a
    body that parses as JSON, [run] leaves the decoded body in the provided
    slot [infoObj] and lets the schema validator decide: no failure when it
    reports no errors, otherwise [INVALID_SCHEMA] with the errors, one per
    line, at the end of the message. *)
Theorem X10_schema_verdict `{Imports} (net : Request -> FetchResult)
  (s : Store) (resp : Response) (v : Value) :
  let r := List.length (results s) in
  let base :=
    default VUndefined
      (expects (contexts s isCompliantWithSchema_ref) !! "transferServerUrl") in
  let infoCall :=
    {| request := new_Request (toString base +:+ "/info"); response := None |} in
  let errors := validate_infoSchema v in
  net (request infoCall) = Responded resp ->
  status resp = 200 ->
  JSON_parse (resp_body resp) = Some v ->
  genericFailures !! "INVALID_SCHEMA" = None ->
  exists (s' : Store) (x : Result),
    finish net isCompliantWithSchema.run s [] = (inr r, s', [])
    ∧ provides (contexts s' isCompliantWithSchema_ref) !! "infoObj" = Some v
    ∧ results s' !! r = Some x
    ∧ failure x
      = match errors with
        | [] => None
        | _ :: _ =>
            Some {| name := "invalid schema";
                    message :=
                      "The response body returned does not comply with the schema defined for the /info endpoint:"
                      +:+ nl +:+ nl +:+
                      "https://github.com/stellar/stellar-protocol/blob/master/ecosystem/sep-0024.md#info"
                      +:+ nl +:+ nl +:+
                      "The errors returned from the schema validation:"
                      +:+ nl +:+ nl +:+ join nl errors |}
        end.
Proof.
  intros r base infoCall errors Hnet Hstatus Hparse Hfree.
  set (answered := {| request := request infoCall; response := Some resp |}).
  set (s1 := update r (with_call infoCall) (alloc empty_result s)).
  set (s2 := assign_provides isCompliantWithSchema_ref "infoObj" v
               (update r (with_call answered) s1)).
  assert (Hs2 : results s2 !! r
                = Some (with_call answered (with_call infoCall empty_result))).
  { unfold s2. rewrite results_assign_provides.
    apply results_update, results_update, results_alloc. }
  destruct (turn_makeRequest_answered infoCall 200 r (Some "application/json")
              s1 []) as (k & Hk & Hanswer).
  assert (Hturn : exists k',
    turn isCompliantWithSchema.run s [] = (Pending (request infoCall) k', s1, [])
    ∧ turn (k' (Responded resp)) s1 []
      = turn (if 0 <? Z.of_nat (List.length errors) then
                fail_with r isCompliantWithSchema.test "INVALID_SCHEMA"
                  (VObj [("errors", VStr (join nl errors))])
              else mret r) s2 []).
  { eexists. split.
    - unfold isCompliantWithSchema.run, isCompliantWithSchema.this.
      sync turn_new_result. sync turn_expects_slot. sync turn_push_call.
      unfold mbind, Async_bind. rewrite turn_bind.
      change (contexts (alloc empty_result s)) with (contexts s).
      fold base. fold infoCall. fold r. fold s1. rewrite Hk. reflexivity.
    - cbv beta. rewrite turn_bind.
      rewrite (Hanswer resp v s1 [] Hstatus) by exact Hparse.
      erewrite turn_bind_completed by apply turn_set_provides.
      erewrite turn_bind_completed by apply turn_read_result. cbv beta.
      match goal with
      | |- context [results ?st !! ?rr] =>
          change (results st !! rr) with (results s2 !! r)
      end.
      rewrite Hs2. simpl default. simpl failure. cbv iota.
      erewrite turn_bind_completed by apply turn_provides_slot. cbv beta.
      rewrite provides_assigned. simpl default.
      reflexivity. }
  destruct Hturn as (k' & Hpending & Hresume).
  assert (Hfinish : finish net isCompliantWithSchema.run s []
                    = match turn (k' (Responded resp)) s1 [] with
                      | (Completed a, s', fl') => (inr a, s', fl')
                      | (Rejected e, s', fl') => (inl e, s', fl')
                      | (Pending req k0, s', fl') =>
                          finish net (k0 (net req)) s' fl'
                      end).
  { by rewrite finish_of_turn, Hpending, Hnet, finish_of_turn. }
  rewrite Hresume in Hfinish.
  destruct errors as [| e rest] eqn:Herrors.
  - simpl in Hfinish. exists s2. eexists. split; [exact Hfinish |].
    split; [apply provides_assigned |]. split; [exact Hs2 | reflexivity].
  - change (0 <? Z.of_nat (List.length (e :: rest))) with true in Hfinish.
    cbv iota in Hfinish.
    erewrite turn_fail_with in Hfinish by (by apply mode_INVALID_SCHEMA).
    eexists _, _. split; [exact Hfinish |].
    split; [rewrite provides_update; apply provides_assigned |].
    split; [by apply results_update | reflexivity].
Qed.

Lemma X10_schema_verdict_witness :
  exists (s' : Store) (x : Result),
    finish
      (fun _ => Responded {| resp_url := "https://x/info"; status := 200; resp_headers := [];
                             resp_body := "{}"; resp_bodyUsed := false |})
      (@isCompliantWithSchema.run Sample.imports)
      (Sample.store None isCompliantWithSchema_ref "transferServerUrl"
         (VStr "https://x")) []
    = (inr 0%nat, s', [])
    ∧ provides (contexts s' isCompliantWithSchema_ref) !! "infoObj"
      = Some (VObj [])
    ∧ results s' !! 0%nat = Some x
    ∧ failure x = None.
Proof.
  apply (@X10_schema_verdict Sample.imports
           (fun _ => Responded {| resp_url := "https://x/info"; status := 200; resp_headers := [];
                                  resp_body := "{}"; resp_bodyUsed := false |})
           (Sample.store None isCompliantWithSchema_ref "transferServerUrl"
              (VStr "https://x"))
           {| resp_url := "https://x/info"; status := 200; resp_headers := [];
              resp_body := "{}"; resp_bodyUsed := false |}
           (VObj [])).
  - reflexivity.
  - reflexivity.
  - reflexivity.
  - vm_compute. reflexivity.
Defined.

(** ** The console groups of the reporter *)

Lemma depth_after_app (cs1 cs2 : list ConsoleCall) :
  forall n : nat,
    depth_after n (cs1 ++ cs2)
    = match depth_after n cs1 with
      | Some k => depth_after k cs2
      | None => None
      end.
Proof.
  induction cs1 as [| c rest IH]; intros n; simpl; [done |].
  destruct c; try apply IH. destruct n; [done | apply IH].
Qed.

Lemma levels_bind {A B : Type} (m : M A) (f : A -> M B) (i j o lo : nat) :
  levels i j lo m -> (forall a, levels j o lo (f a)) -> levels i o lo (m ≫= f).
Proof.
  intros [Hm Hlm] Hf. split.
  - apply tracer_bind; [done | intros a; apply Hf].
  - intros n. specialize (Hlm n). rewrite perform_bind.
    destruct (perform m silent) as [[e | a] d].
    + exact Hlm.
    + destruct (Hf a) as [Hfa Hlf]. specialize (Hlf n).
      rewrite (Hfa d).
      destruct (perform (f a) silent) as [[e | b] d']; simpl;
        rewrite depth_after_app, Hlm; exact Hlf.
Qed.

Lemma levels_ret {A : Type} (a : A) (i lo : nat) : levels i i lo (mret a).
Proof. split; [apply tracer_ret | by intros n]. Qed.

Lemma levels_reject {A : Type} (e : Exn) (i o lo : nat) :
  (lo <= i)%nat -> levels i o lo (@reject A e).
Proof.
  intros Hlo. split; [apply tracer_reject |]. intros n. simpl.
  exists (i - lo)%nat. f_equal. lia.
Qed.

Lemma levels_log (line : string) (i lo : nat) : levels i i lo (log line).
Proof. split; [apply tracer_emit | by intros n]. Qed.

Lemma levels_blank (i lo : nat) : levels i i lo (emit LogBlank).
Proof. split; [apply tracer_emit | by intros n]. Qed.

Lemma levels_dir (v : Value) (i lo : nat) : levels i i lo (emit (Dir v)).
Proof. split; [apply tracer_emit | by intros n]. Qed.

Lemma levels_group (i lo : nat) : levels i (S i) lo (emit Group).
Proof.
  split; [apply tracer_emit |]. intros n. simpl. f_equal. lia.
Qed.

Lemma levels_groupEnd (i lo : nat) : levels (S i) i lo (emit GroupEnd).
Proof.
  split; [apply tracer_emit |]. intros n. simpl.
  by rewrite Nat.add_succ_r.
Qed.

Lemma levels_note_read (r : BodyRead) (i lo : nat) : levels i i lo (note_read r).
Proof. split; [apply tracer_note_read | by intros n]. Qed.

Lemma levels_when (b : bool) (m : M unit) (i lo : nat) :
  levels i i lo m -> levels i i lo (when b m).
Proof. destruct b; [done | intros _; apply levels_ret]. Qed.

Lemma levels_for_each {A : Type} (f : A -> M unit) (xs : list A) (i lo : nat) :
  (forall a, levels i i lo (f a)) -> levels i i lo (for_each f xs).
Proof.
  intros Hf. induction xs as [| x rest IH]; simpl.
  - apply levels_ret.
  - eapply levels_bind; [apply Hf | intros _; exact IH].
Qed.

(** Walks through a computation, keeping count of the open groups. *)
Ltac levels_step :=
  lazymatch goal with
  | |- levels ?i ?o ?lo (emit Group ≫= _) =>
      apply (levels_bind _ _ i (S i) o lo); [apply levels_group | intros]
  | |- levels (S ?i) ?o ?lo (emit GroupEnd ≫= _) =>
      apply (levels_bind _ _ (S i) i o lo); [apply levels_groupEnd | intros]
  | |- levels ?i ?o ?lo (_ ≫= _) =>
      apply (levels_bind _ _ i i o lo); [| intros]
  | |- levels _ _ _ (mret _) => apply levels_ret
  | |- levels _ _ _ (reject _) => apply levels_reject; lia
  | |- levels _ _ _ (log _) => apply levels_log
  | |- levels _ _ _ (emit LogBlank) => apply levels_blank
  | |- levels _ _ _ (emit (Dir _)) => apply levels_dir
  | |- levels _ _ _ (emit Group) => apply levels_group
  | |- levels _ _ _ (emit GroupEnd) => apply levels_groupEnd
  | |- levels _ _ _ (note_read _) => apply levels_note_read
  | |- levels _ _ _ (when _ _) => apply levels_when
  | |- levels _ _ _ (for_each _ _) => apply levels_for_each; intros
  | |- levels _ _ _ (if ?b then _ else _) => destruct b
  | |- levels _ _ _ (let '(_, _) := ?p in _) => destruct p
  | |- levels _ _ _ (match ?x with _ => _ end) => destruct x
  end.

Section Levels.
Context `{Imports} `{Terminal}.

Lemma levels_consume_request j how req (i lo : nat) :
  (lo <= i)%nat -> levels i i lo (consume_request j how req).
Proof. intros Hlo. unfold consume_request. repeat levels_step. Qed.

Lemma levels_consume_response j how resp (i lo : nat) :
  (lo <= i)%nat -> levels i i lo (consume_response j how resp).
Proof. intros Hlo. unfold consume_response. repeat levels_step. Qed.

Lemma levels_parse u body (i lo : nat) :
  (lo <= i)%nat -> levels i i lo (parse u body).
Proof. intros Hlo. unfold parse. repeat levels_step. Qed.

Lemma levels_print_headers headers (i lo : nat) :
  levels i i lo (print_headers headers).
Proof. unfold print_headers. repeat levels_step. Qed.

Lemma levels_print_request_body j req (i lo : nat) :
  (lo <= i)%nat -> levels i i lo (print_request_body j req).
Proof.
  intros Hlo. unfold print_request_body. cbv zeta.
  repeat first [ simple apply levels_consume_request; lia
               | simple apply levels_parse; lia
               | levels_step ].
Qed.

Lemma levels_print_response j resp (i lo : nat) :
  (lo <= i)%nat -> levels i i lo (print_response j resp).
Proof.
  intros Hlo. unfold print_response.
  repeat first [ simple apply levels_consume_response; lia
               | simple apply levels_parse; lia
               | simple apply levels_print_headers
               | levels_step ].
Qed.

Lemma levels_print_networkCall j networkCall (i lo : nat) :
  (lo <= i)%nat -> levels i i lo (print_networkCall j networkCall).
Proof.
  intros Hlo. unfold print_networkCall. cbv zeta.
  repeat first [ simple apply levels_print_headers
               | simple apply levels_print_request_body; lia
               | simple apply levels_print_response; lia
               | levels_step ].
Qed.

Lemma levels_print_networkCalls calls (i lo : nat) :
  (lo <= i)%nat -> forall j, levels i i lo (print_networkCalls j calls).
Proof.
  intros Hlo. induction calls as [| c rest IH]; intros j; simpl.
  - apply levels_ret.
  - eapply levels_bind; [by apply levels_print_networkCall | intros c'].
    eapply levels_bind; [apply IH | intros rest']. apply levels_ret.
Qed.

Lemma levels_print_failure result f (i lo : nat) :
  levels i i lo (print_failure result f).
Proof. unfold print_failure, print_expected_received. repeat levels_step. Qed.

Lemma levels_print_success test (i lo : nat) : levels i i lo (print_success test).
Proof. unfold print_success. repeat levels_step. Qed.

Lemma levels_print_network_section result verbose (i lo : nat) :
  (lo <= i)%nat -> levels i i lo (print_network_section result verbose).
Proof.
  intros Hlo. unfold print_network_section.
  repeat first [ simple apply levels_print_networkCalls; lia | levels_step ].
Qed.

Lemma levels_printTestRun testRun verbose :
  levels 0 0 1 (printTestRun testRun verbose).
Proof.
  unfold printTestRun, printColoredTextTestRun. cbv zeta.
  repeat first [ simple apply levels_print_failure
               | simple apply levels_print_success
               | simple apply levels_print_network_section; lia
               | levels_step ].
Qed.

End Levels.

(** X11: [printTestRun] keeps the console groups in balance.  It never
    closes a group it did not open; when it returns, every group it opened
    is closed again; when it rejects (a body read fails in the verbose
    listing), it stops with at least the result group of the run still
    open. *)
Theorem X11_console_groups `{Imports} `{Terminal} (testRun : TestRun)
  (verbose : bool) (n : nat) :
  match perform (printTestRun testRun verbose) silent with
  | (inr _, d) => depth_after n (console d) = Some n
  | (inl _, d) => exists k : nat, depth_after n (console d) = Some (n + 1 + k)%nat
  end.
Proof.
  destruct (levels_printTestRun testRun verbose) as [_ Hlevels].
  specialize (Hlevels n).
  destruct (perform (printTestRun testRun verbose) silent) as [[e | calls] d].
  - destruct Hlevels as [k Hk]. exists k. by rewrite Nat.add_0_r in Hk.
  - by rewrite !Nat.add_0_r in Hlevels.
Qed.

(** ** What the reporter gives back *)

Lemma returns_bind {A B : Type} (m : M A) (f : A -> M B) (a : A) (b : B) :
  returns a m -> returns b (f a) -> returns b (m ≫= f).
Proof.
  intros Hm Hf io. rewrite perform_bind. specialize (Hm io).
  destruct (perform m io) as [[e | a'] io']; simpl in Hm; [done |].
  injection Hm as ->. apply Hf.
Qed.

Lemma returns_ret {A : Type} (a : A) : returns a (mret a).
Proof. by intros io. Qed.

Lemma returns_emit (c : ConsoleCall) : returns tt (emit c).
Proof. by intros io. Qed.

Lemma returns_when (b : bool) (m : M unit) : returns tt m -> returns tt (when b m).
Proof. destruct b; [done | intros _; apply returns_ret]. Qed.

Lemma returns_for_each {A : Type} (f : A -> M unit) (xs : list A) :
  (forall a, returns tt (f a)) -> returns tt (for_each f xs).
Proof.
  intros Hf. induction xs as [| x rest IH]; simpl.
  - apply returns_ret.
  - eapply returns_bind; [apply Hf | exact IH].
Qed.

Ltac returns_step :=
  lazymatch goal with
  | |- returns _ (_ ≫= _) => eapply returns_bind
  | |- returns _ (mret _) => apply returns_ret
  | |- returns _ (emit _) => apply returns_emit
  | |- returns _ (log _) => apply returns_emit
  | |- returns _ (when _ _) => apply returns_when
  | |- returns _ (for_each _ _) => apply returns_for_each; intros
  | |- returns _ (if ?b then _ else _) => destruct b
  | |- returns _ (match ?x with _ => _ end) => destruct x
  end.

Section Returns.
Context `{Imports} `{Terminal}.

Lemma returns_print_headers headers : returns tt (print_headers headers).
Proof. unfold print_headers. repeat returns_step. Qed.

Lemma returns_print_failure result f : returns tt (print_failure result f).
Proof. unfold print_failure, print_expected_received. repeat returns_step. Qed.

Lemma returns_print_success test : returns tt (print_success test).
Proof. unfold print_success. repeat returns_step. Qed.

Lemma returns_report testRun :
  returns tt
    (match failure (run_result testRun) with
     | Some f => print_failure (run_result testRun) f
     | None => when false (print_success (run_test testRun))
     end)
  ∧ forall verbose,
      returns tt
        (match failure (run_result testRun) with
         | Some f => print_failure (run_result testRun) f
         | None => when verbose (print_success (run_test testRun))
         end).
Proof.
  split; [| intros verbose];
    destruct (failure (run_result testRun));
    first [ apply returns_print_failure
          | apply returns_when, returns_print_success ].
Qed.

End Returns.



(** ** The bodies after a verbose listing *)

Lemma ensures_bind {A B : Type} (m : M A) (f : A -> M B)
  (P' : A -> Prop) (P : B -> Prop) :
  ensures P' m -> (forall a, P' a -> ensures P (f a)) -> ensures P (m ≫= f).
Proof.
  intros Hm Hf io b io'. rewrite perform_bind.
  destruct (perform m io) as [[e | a] io1] eqn:Hperform; [done |].
  intros Hfa. eapply Hf; [| exact Hfa]. eapply Hm. exact Hperform.
Qed.

Lemma ensures_bind_any {A B : Type} (m : M A) (f : A -> M B) (P : B -> Prop) :
  (forall a, ensures P (f a)) -> ensures P (m ≫= f).
Proof.
  intros Hf. apply (ensures_bind m f (fun _ => True)); [done | auto].
Qed.

Lemma ensures_ret {A : Type} (a : A) (P : A -> Prop) : P a -> ensures P (mret a).
Proof. intros HP io a' io' [= <- _]. exact HP. Qed.

Lemma ensures_reject {A : Type} (e : Exn) (P : A -> Prop) : ensures P (@reject A e).
Proof. by intros io a io'. Qed.

Section Listed.
Context `{Imports} `{Terminal}.

Lemma ensures_consume_request i how req :
  ensures (fun p => p.2 = used_request req) (consume_request i how req).
Proof.
  unfold consume_request. apply ensures_bind_any. intros _.
  destruct (req_bodyUsed req); [apply ensures_reject | by apply ensures_ret].
Qed.

Lemma ensures_consume_response i how resp :
  ensures (fun p => p.2 = used_response resp) (consume_response i how resp).
Proof.
  unfold consume_response. apply ensures_bind_any. intros _.
  destruct (resp_bodyUsed resp); [apply ensures_reject | by apply ensures_ret].
Qed.

Lemma ensures_print_request_body i req :
  ensures (fun req' => req' = listed_request req) (print_request_body i req).
Proof.
  unfold print_request_body, listed_request, request_reads. cbv zeta.
  destruct (header_includes (own_lookup "content-type" (req_headers req)) "json").
  - eapply ensures_bind; [apply ensures_consume_request |].
    intros [body req'] Hreq'. simpl in Hreq'. subst req'.
    apply ensures_bind_any. intros v. apply ensures_bind_any. intros _.
    by apply ensures_ret.
  - destruct (header_includes (own_lookup "content-type" (req_headers req))
                "multipart/form-data").
    + by apply ensures_ret.
    + eapply ensures_bind; [apply ensures_consume_request |].
      intros [body req'] Hreq'. simpl in Hreq'. subst req'.
      apply ensures_bind_any. intros _. by apply ensures_ret.
Qed.

Lemma ensures_print_response i resp :
  ensures (fun resp' => resp' = used_response resp) (print_response i resp).
Proof.
  unfold print_response.
  apply ensures_bind_any. intros _. apply ensures_bind_any. intros _.
  apply ensures_bind_any. intros _.
  eapply (ensures_bind _ _ (fun resp' => resp' = used_response resp)).
  - destruct (header_includes (own_lookup "content-type" (resp_headers resp)) "json").
    + eapply ensures_bind; [apply ensures_consume_response |].
      intros [body resp'] Hresp'. simpl in Hresp'. subst resp'.
      apply ensures_bind_any. intros v. apply ensures_bind_any. intros _.
      by apply ensures_ret.
    + apply ensures_bind_any. intros _.
      eapply ensures_bind; [apply ensures_consume_response |].
      intros [body resp'] Hresp'. simpl in Hresp'. subst resp'.
      apply ensures_bind_any. intros _. apply ensures_bind_any. intros _.
      by apply ensures_ret.
  - intros resp' ->. apply ensures_bind_any. intros _. by apply ensures_ret.
Qed.

Lemma ensures_print_networkCall i networkCall :
  ensures (fun c' => c' = listed_call networkCall) (print_networkCall i networkCall).
Proof.
  unfold print_networkCall. cbv zeta.
  do 5 (apply ensures_bind_any; intros _).
  eapply ensures_bind; [apply ensures_print_request_body |].
  intros req' ->.
  do 2 (apply ensures_bind_any; intros _).
  eapply (ensures_bind _ _
            (fun resp' => resp' = used_response <$> response networkCall)).
  - destruct (response networkCall) as [resp |].
    + eapply ensures_bind; [apply ensures_print_response |].
      intros resp' ->. by apply ensures_ret.
    + apply ensures_bind_any. intros _. by apply ensures_ret.
  - intros resp' ->. apply ensures_bind_any. intros _. by apply ensures_ret.
Qed.

Lemma ensures_print_networkCalls calls :
  forall i,
    ensures (fun calls' => calls' = listed_call <$> calls)
            (print_networkCalls i calls).
Proof.
  induction calls as [| c rest IH]; intros i; simpl.
  - by apply ensures_ret.
  - eapply ensures_bind; [apply ensures_print_networkCall |].
    intros c' ->. eapply ensures_bind; [apply IH |].
    intros rest' ->. by apply ensures_ret.
Qed.

End Listed.

Lemma verbose_listing_gives_listed_calls `{Imports} `{Terminal}
  (testRun : TestRun) :
  ensures (fun calls' => calls' = listed_call <$> networkCalls (run_result testRun))
          (printTestRun testRun true).
Proof.
  unfold printTestRun, printColoredTextTestRun. cbv zeta.
  do 3 (apply ensures_bind_any; intros _).
  eapply ensures_bind.
  - unfold print_network_section.
    destruct (true && negb (Nat.eqb (List.length (networkCalls (run_result testRun))) 0))
      eqn:Hsome.
    + apply ensures_bind_any. intros _. apply ensures_print_networkCalls.
    + apply ensures_ret. simpl in Hsome.
      destruct (networkCalls (run_result testRun)); [done | discriminate].
  - intros calls' ->. apply ensures_bind_any. intros _. by apply ensures_ret.
Qed.

(** X13: when the verbose listing returns, the network calls it gives back
    are the ones it was given with the bodies it read marked as used: every
    response body, and every request body unless the content type of the
    request mentions [multipart/form-data] and does not mention [json];
    nothing else of a call is changed. *)
Theorem X13_listing_consumes_bodies `{Imports} `{Terminal} (testRun : TestRun)
  (io io' : Io) (calls' : list NetworkCall) :
  perform (printTestRun testRun true) io = (inr calls', io') ->
  calls' = listed_call <$> networkCalls (run_result testRun)
  ∧ forall (i : nat) (c c' : NetworkCall),
      networkCalls (run_result testRun) !! i = Some c ->
      calls' !! i = Some c' ->
      let contentType := own_lookup "content-type" (req_headers (request c)) in
      request c'
      = (if header_includes contentType "json"
            || negb (header_includes contentType "multipart/form-data")
         then used_request (request c)
         else request c)
      ∧ response c' = used_response <$> response c.
Proof.
  intros Hlisted%verbose_listing_gives_listed_calls.
  split; [exact Hlisted |].
  intros i c c' Hc Hc' contentType. subst calls'.
  rewrite list_lookup_fmap, Hc in Hc'. injection Hc' as <-.
  split; [| reflexivity].
  unfold listed_call, listed_request, request_reads. simpl. fold contentType.
  destruct (header_includes contentType "json"); [reflexivity |].
  by destruct (header_includes contentType "multipart/form-data").
Qed.

Lemma X13_listing_consumes_bodies_witness :
  [{| request := used_request (Sample.info_request); response := None |}]
  = listed_call <$> [{| request := Sample.info_request; response := None |}].
Proof.
  apply (@X13_listing_consumes_bodies Sample.imports Sample.terminal
           {| run_test := hasTransferServerUrl.test;
              run_result :=
                {| networkCalls :=
                     [{| request := Sample.info_request; response := None |}];
                   failure := None;
                   expected := VUndefined; actual := VUndefined |};
              run_suite := None |}
           silent
           (perform
              (@printTestRun Sample.imports Sample.terminal
                 {| run_test := hasTransferServerUrl.test;
                    run_result :=
                      {| networkCalls :=
                           [{| request := Sample.info_request;
                               response := None |}];
                         failure := None;
                         expected := VUndefined; actual := VUndefined |};
                    run_suite := None |} true) silent).2).
  vm_compute. reflexivity.
Defined.

(** ** Listing a run twice *)

Lemma rejects_bind_l {A B : Type} (m : M A) (f : A -> M B) (e : Exn) :
  rejects e m -> rejects e (m ≫= f).
Proof.
  intros Hm io. rewrite perform_bind. specialize (Hm io).
  destruct (perform m io) as [[e' | a] io']; simpl in *; congruence.
Qed.

Lemma rejects_bind_r {A B : Type} (m : M A) (f : A -> M B) (a : A) (e : Exn) :
  returns a m -> rejects e (f a) -> rejects e (m ≫= f).
Proof.
  intros Hm Hf io. rewrite perform_bind. specialize (Hm io).
  destruct (perform m io) as [[e' | a'] io']; simpl in Hm; [done |].
  injection Hm as ->. apply Hf.
Qed.

Section Twice.
Context `{Imports} `{Terminal}.

Lemma rejects_consume_used_request i how req :
  req_bodyUsed req = true ->
  rejects (TypeError ("body used already for: " +:+ url req))
          (consume_request i how req).
Proof.
  intros Hused. unfold consume_request.
  eapply rejects_bind_r; [by intros io |]. rewrite Hused. by intros io.
Qed.

Lemma rejects_print_used_request_body i req :
  request_reads 0 req ≠ [] ->
  rejects (TypeError ("body used already for: " +:+ url req))
          (print_request_body i (listed_request req)).
Proof.
  intros Hreads. unfold listed_request.
  destruct (request_reads 0 req) as [| r rest] eqn:Hr; [done |].
  unfold print_request_body. cbv zeta.
  change (req_headers (used_request req)) with (req_headers req).
  unfold request_reads in Hr. cbv zeta in Hr.
  destruct (header_includes (own_lookup "content-type" (req_headers req)) "json").
  - apply rejects_bind_l. by apply (rejects_consume_used_request i AsJson (used_request req)).
  - destruct (header_includes (own_lookup "content-type" (req_headers req))
                "multipart/form-data"); [discriminate |].
    apply rejects_bind_l.
    by apply (rejects_consume_used_request i AsText (used_request req)).
Qed.

Lemma rejects_print_used_networkCall i c :
  request_reads 0 (request c) ≠ [] ->
  rejects (TypeError ("body used already for: " +:+ url (request c)))
          (print_networkCall i (listed_call c)).
Proof.
  intros Hreads. unfold print_networkCall. cbv zeta.
  change (request (listed_call c)) with (listed_request (request c)).
  eapply rejects_bind_r; [apply returns_emit |].
  eapply rejects_bind_r; [apply returns_emit |].
  eapply rejects_bind_r; [apply returns_emit |].
  eapply rejects_bind_r; [apply returns_print_headers |].
  eapply rejects_bind_r; [apply returns_emit |].
  apply rejects_bind_l. by apply rejects_print_used_request_body.
Qed.

End Twice.

(** X14: a run cannot be listed twice in verbose mode.  If the listing
    returned and the first network call has a request whose body it reads
    (any request that is not [multipart/form-data]), listing the run again
    with the calls it gave back rejects with the [TypeError] of a body that
    was used already. *)
Theorem X14_second_listing_rejects `{Imports} `{Terminal} (testRun : TestRun)
  (c : NetworkCall) (rest calls' : list NetworkCall) (io io' io2 : Io) :
  networkCalls (run_result testRun) = c :: rest ->
  request_reads 0 (request c) ≠ [] ->
  perform (printTestRun testRun true) io = (inr calls', io') ->
  (perform (printTestRun (with_calls testRun calls') true) io2).1
  = inl (TypeError ("body used already for: " +:+ url (request c))).
Proof.
  intros Hcalls Hreads Hfirst.
  apply verbose_listing_gives_listed_calls in Hfirst.
  rewrite Hcalls in Hfirst. simpl in Hfirst. subst calls'.
  revert io2.
  change (rejects (TypeError ("body used already for: " +:+ url (request c)))
            (printTestRun
               (with_calls testRun (listed_call c :: (listed_call <$> rest)))
               true)).
  unfold printTestRun, printColoredTextTestRun. cbv zeta.
  eapply rejects_bind_r; [apply returns_emit |].
  eapply rejects_bind_r; [apply returns_emit |].
  eapply rejects_bind_r.
  { apply (returns_report
             (with_calls testRun (listed_call c :: (listed_call <$> rest)))). }
  apply rejects_bind_l.
  unfold print_network_section. simpl.
  eapply rejects_bind_r; [apply returns_emit |].
  apply rejects_bind_l. by apply rejects_print_used_networkCall.
Qed.

Lemma X14_second_listing_rejects_witness :
  (perform
     (@printTestRun Sample.imports Sample.terminal
        (with_calls
           {| run_test := hasTransferServerUrl.test;
              run_result :=
                {| networkCalls :=
                     [{| request := Sample.info_request; response := None |}];
                   failure := None;
                   expected := VUndefined; actual := VUndefined |};
              run_suite := None |}
           [{| request := used_request (Sample.info_request);
               response := None |}])
        true) silent).1
  = inl (TypeError "body used already for: https://x/info").
Proof.
  apply (@X14_second_listing_rejects Sample.imports Sample.terminal
           {| run_test := hasTransferServerUrl.test;
              run_result :=
                {| networkCalls :=
                     [{| request := Sample.info_request; response := None |}];
                   failure := None;
                   expected := VUndefined; actual := VUndefined |};
              run_suite := None |}
           {| request := Sample.info_request; response := None |}
           []
           [{| request := used_request (Sample.info_request);
               response := None |}]
           silent
           (perform
              (@printTestRun Sample.imports Sample.terminal
                 {| run_test := hasTransferServerUrl.test;
                    run_result :=
                      {| networkCalls :=
                           [{| request := Sample.info_request;
                               response := None |}];
                         failure := None;
                         expected := VUndefined; actual := VUndefined |};
                    run_suite := None |} true) silent).2
           silent).
  - reflexivity.
  - vm_compute. discriminate.
  - vm_compute. reflexivity.
Defined.

(** ** Payloads of a passing run *)

(** X15: for a run without failure the reporter never looks at
    [result.expected] and [result.actual]: in both modes it does exactly
    what it does for the same run with neither payload. *)
Theorem X15_passing_run_ignores_payloads `{Imports} `{Terminal}
  (testRun : TestRun) (verbose : bool) (io : Io) :
  failure (run_result testRun) = None ->
  perform (printTestRun testRun verbose) io
  = perform (printTestRun (without_payload testRun) verbose) io.
Proof.
  destruct testRun as [test [calls fl e a] suite]. simpl. intros ->.
  reflexivity.
Qed.

Lemma X15_passing_run_ignores_payloads_witness :
  perform
    (@printTestRun Sample.imports Sample.terminal
       {| run_test := hasTransferServerUrl.test;
          run_result :=
            {| networkCalls := []; failure := None;
               expected := VStr "200"; actual := VStr "404" |};
          run_suite := None |} true) silent
  = perform
      (@printTestRun Sample.imports Sample.terminal
         (without_payload
            {| run_test := hasTransferServerUrl.test;
               run_result :=
                 {| networkCalls := []; failure := None;
                    expected := VStr "200"; actual := VStr "404" |};
               run_suite := None |}) true) silent.
Proof.
  apply (@X15_passing_run_ignores_payloads Sample.imports Sample.terminal
           {| run_test := hasTransferServerUrl.test;
              run_result :=
                {| networkCalls := []; failure := None;
                   expected := VStr "200"; actual := VStr "404" |};
              run_suite := None |} true silent).
  reflexivity.
Defined.

(** ** From the discovered asset code to the deposit request *)





(** ** A request that failed *)

Lemma turn_makeRequest_failed `{Imports} call expectedStatus r contentType s fl :
  exists k,
    turn (makeRequest call expectedStatus r contentType) s fl
    = (Pending (request call) k, s, fl)
    ∧ forall answer p s2 fl2,
        answer_problem expectedStatus contentType answer = Some p ->
        turn (k answer) s2 fl2
        = (Completed VUndefined,
           update r (with_failure (requestFailure p)) s2, fl2).
Proof.
  eexists. split.
  - unfold makeRequest, mbind, Async_bind. rewrite turn_bind. simpl. reflexivity.
  - intros answer p s2 fl2 Hp. simpl. unfold answer_problem in Hp.
    destruct answer as [| resp].
    + injection Hp as <-. reflexivity.
    + destruct (negb (status resp =? expectedStatus)).
      * injection Hp as <-. reflexivity.
      * destruct (decode_body contentType (resp_body resp)); [discriminate |].
        injection Hp as <-. reflexivity.
Qed.

(** X17: when the request helper holds something against the answer to the
    [/info] request (no answer, a status other than 200, a body that is
    not JSON), [run] returns the helper's failure as it is, with the one
    network call it pushed itself, and leaves [undefined] in the provided
    slot [infoObj]: the schema validator has no say. *)
Theorem X17_failed_info_request `{Imports} (net : Request -> FetchResult)
  (s : Store) (p : RequestProblem) :
  let r := List.length (results s) in
  let base :=
    default VUndefined
      (expects (contexts s isCompliantWithSchema_ref) !! "transferServerUrl") in
  let infoCall :=
    {| request := new_Request (toString base +:+ "/info"); response := None |} in
  answer_problem 200 (Some "application/json") (net (request infoCall)) = Some p ->
  exists s' : Store,
    finish net isCompliantWithSchema.run s [] = (inr r, s', [])
    ∧ results s' !! r
      = Some {| networkCalls := [infoCall]; failure := Some (requestFailure p);
                expected := VUndefined; actual := VUndefined |}
    ∧ provides (contexts s' isCompliantWithSchema_ref) !! "infoObj"
      = Some VUndefined.
Proof.
  intros r base infoCall Hproblem.
  set (s1 := update r (with_call infoCall) (alloc empty_result s)).
  set (s2 := assign_provides isCompliantWithSchema_ref "infoObj" VUndefined
               (update r (with_failure (requestFailure p)) s1)).
  assert (Hs2 : results s2 !! r
                = Some (with_failure (requestFailure p)
                          (with_call infoCall empty_result))).
  { unfold s2. rewrite results_assign_provides.
    apply results_update, results_update, results_alloc. }
  destruct (turn_makeRequest_failed infoCall 200 r (Some "application/json")
              s1 []) as (k & Hk & Hfailed).
  assert (Hturn : exists k',
    turn isCompliantWithSchema.run s [] = (Pending (request infoCall) k', s1, [])
    ∧ turn (k' (net (request infoCall))) s1 [] = (Completed r, s2, [])).
  { eexists. split.
    - unfold isCompliantWithSchema.run, isCompliantWithSchema.this.
      sync turn_new_result. sync turn_expects_slot. sync turn_push_call.
      unfold mbind, Async_bind. rewrite turn_bind.
      change (contexts (alloc empty_result s)) with (contexts s).
      fold base. fold infoCall. fold r. fold s1. rewrite Hk. reflexivity.
    - cbv beta. rewrite turn_bind.
      rewrite (Hfailed _ p s1 [] Hproblem).
      erewrite turn_bind_completed by apply turn_set_provides.
      erewrite turn_bind_completed by apply turn_read_result. cbv beta.
      match goal with
      | |- context [results ?st !! ?rr] =>
          change (results st !! rr) with (results s2 !! r)
      end.
      rewrite Hs2. simpl default. simpl failure. cbv iota.
      apply turn_mret. }
  destruct Hturn as (k' & Hpending & Hresume).
  exists s2. split; [| split].
  - by rewrite finish_of_turn, Hpending, finish_of_turn, Hresume.
  - exact Hs2.
  - apply provides_assigned.
Qed.

Lemma X17_failed_info_request_witness :
  exists s' : Store,
    finish (fun _ => NetworkError) (@isCompliantWithSchema.run Sample.imports)
      (Sample.store None isCompliantWithSchema_ref "transferServerUrl"
         (VStr "https://x")) []
    = (inr 0%nat, s', [])
    ∧ results s' !! 0%nat
      = Some {| networkCalls :=
                  [{| request := Sample.info_request; response := None |}];
                failure := Some (Sample.problem_failure ConnectionRefused);
                expected := VUndefined; actual := VUndefined |}
    ∧ provides (contexts s' isCompliantWithSchema_ref) !! "infoObj"
      = Some VUndefined.
Proof.
  apply (@X17_failed_info_request Sample.imports (fun _ => NetworkError)
           (Sample.store None isCompliantWithSchema_ref "transferServerUrl"
              (VStr "https://x"))
           ConnectionRefused).
  reflexivity.
Defined.

(** ** When the verbose listing returns *)

Section Listable.
Context `{Imports} `{Terminal}.








End Listable.


